(** * BrandForge: the colour analyser, the style extractor, the generation
      orchestrator and the archive export, embedded from the TypeScript
      sources and checked against the written specification.

    Conventions of the embedding.
    - A JavaScript string is a [string]: the sequence of bytes of its UTF-8
      encoding.  Every character the sources inspect is ASCII, except the
      white space matched by [\s] and [trim], whose multi-byte members are
      recognised by their encodings.
    - A JavaScript number is a real number of [R]; [Math.pow] on a positive
      base is [Rpower], [Math.max] and [Math.min] are [Rmax] and [Rmin].
    - A promise is modelled by its settlement: [Ok v] when it fulfils,
      [Err e] when it rejects.  Every value thrown in the sources is an
      [Error] object, and is kept as its [message]. *)

From Stdlib Require Import List String Ascii Bool Arith ZArith NArith Lia.
From Stdlib Require Import Reals Lra Permutation DecimalString.
Import ListNotations.

Local Open Scope string_scope.
Local Open Scope list_scope.

(* ================================================================== *)
(** ** ColorAnalyzer: [utils/colorUtils.ts] *)
(* ================================================================== *)

Module ColorUtils.

Record RGB : Type := mkRGB { r : Z; g : Z; b : Z }.

Record ColorMetrics : Type := mkColorMetrics {
  hex : string;
  contrastWhite : R;
  contrastBlack : R;
  accessibility : string
}.

(** The value of one character under [[a-f\d]] with the [i] flag, read as a
    base-16 digit the way [parseInt(_, 16)] reads it. *)
Definition hexDigit (c : ascii) : option Z :=
  let n := Z.of_nat (nat_of_ascii c) in
  if ((48 <=? n) && (n <=? 57))%Z then Some (n - 48)%Z
  else if ((97 <=? n) && (n <=? 102))%Z then Some (n - 87)%Z
  else if ((65 <=? n) && (n <=? 70))%Z then Some (n - 55)%Z
  else None.

(** [parseInt] of a two-character capture group. *)
Definition parseInt16 (hi lo : Z) : Z := (hi * 16 + lo)%Z.

(** The optional [#] at the head of the pattern. *)
Definition stripMarker (s : string) : string :=
  match s with
  | String "#" rest => rest
  | _ => s
  end.

(** [/^#?([a-f\d]{2})([a-f\d]{2})([a-f\d]{2})$/i.exec(hex)] followed by the
    three [parseInt] calls; [None] is the source's [null]. *)
Definition hexToRgb (hex : string) : option RGB :=
  match list_ascii_of_string (stripMarker hex) with
  | [c1; c2; c3; c4; c5; c6] =>
      match hexDigit c1, hexDigit c2, hexDigit c3,
            hexDigit c4, hexDigit c5, hexDigit c6 with
      | Some d1, Some d2, Some d3, Some d4, Some d5, Some d6 =>
          Some (mkRGB (parseInt16 d1 d2) (parseInt16 d3 d4) (parseInt16 d5 d6))
      | _, _, _, _, _, _ => None
      end
  | _ => None
  end.

Local Open Scope R_scope.

(** The callback mapped over [[r, g, b]] in [luminance]. *)
Definition channel (v : R) : R :=
  let v := v / 255 in
  if Rle_dec v 0.03928 then v / 12.92
  else Rpower ((v + 0.055) / 1.055) 2.4.

Definition luminance (r g b : R) : R :=
  let a := map channel [r; g; b] in
  nth 0 a 0 * 0.2126 + nth 1 a 0 * 0.7152 + nth 2 a 0 * 0.0722.

Definition lumOf (c : RGB) : R := luminance (IZR (r c)) (IZR (g c)) (IZR (b c)).

Definition calculateContrast (rgb1 rgb2 : RGB) : R :=
  let lum1 := lumOf rgb1 in
  let lum2 := lumOf rgb2 in
  let brightest := Rmax lum1 lum2 in
  let darkest := Rmin lum1 lum2 in
  (brightest + 0.05) / (darkest + 0.05).

(** [parseFloat(x.toFixed(2))].  [toFixed] prints the sign apart, prints a
    magnitude of [1e21] or more as [String(x)], and otherwise picks the
    integer [n] with [n / 100] nearest to the magnitude, the larger one on a
    tie. *)
Definition toFixed2 (x : R) : R :=
  let m := Rabs x in
  if Rle_dec 1e21 m then x
  else
    let n := IZR (Zfloor (m * 100 + / 2)) / 100 in
    if Rlt_dec x 0 then - n else n.

Definition geb (x y : R) : bool := if Rge_dec x y then true else false.

Definition white : RGB := mkRGB 255 255 255.
Definition black : RGB := mkRGB 0 0 0.

Definition analyzeColor (hex : string) : ColorMetrics :=
  match hexToRgb hex with
  | None => mkColorMetrics hex 0 0 "Invalid"
  | Some rgb =>
      let contrastWhite := toFixed2 (calculateContrast rgb white) in
      let contrastBlack := toFixed2 (calculateContrast rgb black) in
      let accessibility := "Fail"%string in
      let accessibility :=
        if geb contrastWhite 4.5 || geb contrastBlack 4.5
        then "AA"%string else accessibility in
      let accessibility :=
        if geb contrastWhite 7 || geb contrastBlack 7
        then "AAA"%string else accessibility in
      mkColorMetrics hex contrastWhite contrastBlack accessibility
  end.

End ColorUtils.

(* ================================================================== *)
(** ** JavaScript string operations used by the sources *)
(* ================================================================== *)

Module JsString.

Definition code (c : ascii) : N := N_of_ascii c.

(** The double quote, written by its code. *)
Definition dq : string := String (ascii_of_nat 34) EmptyString.
(** The line feed. *)
Definition nl : string := String (ascii_of_nat 10) EmptyString.

(** [String.prototype.startsWith]. *)
Definition startsWith (s p : string) : bool := String.prefix p s.

Fixpoint prefixOf (p cs : list ascii) : bool :=
  match p, cs with
  | [], _ => true
  | a :: p', c :: cs' => Ascii.eqb a c && prefixOf p' cs'
  | _ :: _, [] => false
  end.

Local Open Scope N_scope.

(** TAB, LF, VT, FF, CR and SP. *)
Definition ws1 (a : N) : bool := ((9 <=? a) && (a <=? 13)) || (a =? 32).

(** U+00A0 as [C2 A0]. *)
Definition ws2 (a b : N) : bool := (a =? 194) && (b =? 160).

(** U+1680, U+2000 to U+200A, U+2028, U+2029, U+202F, U+205F, U+3000 and
    U+FEFF as their three-byte encodings. *)
Definition ws3 (a b c : N) : bool :=
  ((a =? 225) && (b =? 154) && (c =? 128))
  || ((a =? 226) && (b =? 128) &&
      (((128 <=? c) && (c <=? 138)) || (c =? 168) || (c =? 169) || (c =? 175)))
  || ((a =? 226) && (b =? 129) && (c =? 159))
  || ((a =? 227) && (b =? 128) && (c =? 128))
  || ((a =? 239) && (b =? 187) && (c =? 191)).

(** Number of bytes of the white-space character that starts [cs], [0] when
    none does: the characters of [\s] and of [trim]. *)
Definition wsLen (cs : list ascii) : nat :=
  match cs with
  | [] => 0%nat
  | a :: rest =>
      if ws1 (code a) then 1%nat
      else match rest with
           | [] => 0%nat
           | b :: rest' =>
               if ws2 (code a) (code b) then 2%nat
               else match rest' with
                    | [] => 0%nat
                    | c :: _ => if ws3 (code a) (code b) (code c) then 3%nat else 0%nat
                    end
           end
  end.

Local Close Scope N_scope.

(** [s.replace(/\s+/g, '_')] on the bytes of [s]: [skip] bytes of the
    white-space character being read are still to be dropped, and [inRun]
    tells that the underscore of the current run is already out. *)
Fixpoint replaceWsFrom (inRun : bool) (skip : nat) (cs : list ascii) : list ascii :=
  match cs with
  | [] => []
  | c :: rest =>
      match skip with
      | S k => replaceWsFrom inRun k rest
      | O =>
          match wsLen cs with
          | O => c :: replaceWsFrom false 0 rest
          | S k => (if inRun then [] else ["_"%char]) ++ replaceWsFrom true k rest
          end
      end
  end.

Definition replaceWs (s : string) : string :=
  string_of_list_ascii (replaceWsFrom false 0 (list_ascii_of_string s)).

(** Whether [cs], read after dropping [skip] bytes, is white space only. *)
Fixpoint allWsFrom (skip : nat) (cs : list ascii) : bool :=
  match cs with
  | [] => Nat.eqb skip 0
  | _ :: rest =>
      match skip with
      | S k => allWsFrom k rest
      | O => match wsLen cs with
             | O => false
             | S k => allWsFrom k rest
             end
      end
  end.

Fixpoint trimStartFrom (skip : nat) (cs : list ascii) : list ascii :=
  match cs with
  | [] => []
  | c :: rest =>
      match skip with
      | S k => trimStartFrom k rest
      | O => match wsLen cs with
             | O => cs
             | S k => trimStartFrom k rest
             end
      end
  end.

Fixpoint trimEndList (cs : list ascii) : list ascii :=
  match cs with
  | [] => []
  | c :: rest => if allWsFrom 0 cs then [] else c :: trimEndList rest
  end.

(** [String.prototype.trim]. *)
Definition trim (s : string) : string :=
  string_of_list_ascii (trimEndList (trimStartFrom 0 (list_ascii_of_string s))).

(** [s.replace(/pat\n?/g, '')] when [optNl], [s.replace(/pat/g, '')]
    otherwise, for a literal, non-empty [pat]. *)
Fixpoint removeAllFrom (pat : list ascii) (optNl : bool) (skip : nat)
    (cs : list ascii) : list ascii :=
  match cs with
  | [] => []
  | c :: rest =>
      match skip with
      | S k => removeAllFrom pat optNl k rest
      | O =>
          if prefixOf pat cs then
            let n := List.length pat in
            let extra :=
              if optNl && prefixOf [ascii_of_nat 10] (skipn n cs) then 1 else 0 in
            removeAllFrom pat optNl (n + extra - 1) rest
          else c :: removeAllFrom pat optNl 0 rest
      end
  end.

Definition removeAll (pat : string) (optNl : bool) (s : string) : string :=
  string_of_list_ascii
    (removeAllFrom (list_ascii_of_string pat) optNl 0 (list_ascii_of_string s)).

(** [s.split(',')[1]]: the text between the first and the second comma,
    [None] (the source's [undefined]) when [s] has no comma. *)
Fixpoint untilComma (cs : list ascii) : list ascii :=
  match cs with
  | [] => []
  | c :: rest => if Ascii.eqb c ","%char then [] else c :: untilComma rest
  end.

Fixpoint afterComma (cs : list ascii) : option (list ascii) :=
  match cs with
  | [] => None
  | c :: rest => if Ascii.eqb c ","%char then Some rest else afterComma rest
  end.

Definition splitCommaSecond (s : string) : option string :=
  match afterComma (list_ascii_of_string s) with
  | Some rest => Some (string_of_list_ascii (untilComma rest))
  | None => None
  end.

(** [Array.prototype.join] on strings. *)
Fixpoint join (sep : string) (l : list string) : string :=
  match l with
  | [] => ""
  | [x] => x
  | x :: rest => x ++ sep ++ join sep rest
  end.

(** Decimal print of a non-negative integer, as in a template literal. *)
Definition ofN (n : N) : string := NilZero.string_of_uint (N.to_uint n).

(** Truthiness of a string. *)
Definition truthy (s : string) : bool :=
  match s with EmptyString => false | String _ _ => true end.

End JsString.

(* ================================================================== *)
(** ** JSON values and [JSON.parse] *)
(* ================================================================== *)

Module Json.
Import JsString.
Local Open Scope string_scope.

#[local] Set Warnings "-register-all".
Inductive JSON : Type :=
| JNull
| JBool (b : bool)
| JNumber (lexeme : string)
| JString (s : string)
| JArray (items : list JSON)
| JObject (members : list (string * JSON)).

(** Property lookup: the last member of that name wins, as in the object
    [JSON.parse] builds. *)
Fixpoint lookup (k : string) (members : list (string * JSON)) : option JSON :=
  match members with
  | [] => None
  | (k', v) :: rest =>
      match lookup k rest with
      | Some v' => Some v'
      | None => if String.eqb k k' then Some v else None
      end
  end.

Definition isChar (c : ascii) (s : string) : bool :=
  match s with
  | String a EmptyString => Ascii.eqb c a
  | _ => false
  end.

Definition isDigit (c : ascii) : bool := ((48 <=? code c) && (code c <=? 57))%N.

(** JSON white space: SP, TAB, LF and CR. *)
Definition isJsonWs (c : ascii) : bool :=
  ((code c =? 32) || (code c =? 9) || (code c =? 10) || (code c =? 13))%N.

Fixpoint skipWs (cs : list ascii) : list ascii :=
  match cs with
  | c :: rest => if isJsonWs c then skipWs rest else cs
  | [] => []
  end.

Fixpoint digits (cs : list ascii) : list ascii * list ascii :=
  match cs with
  | c :: rest =>
      if isDigit c then let '(ds, r) := digits rest in (c :: ds, r) else ([], cs)
  | [] => ([], [])
  end.

(** The integer part: [0], or a non-zero digit and more digits. *)
Definition parseInt (cs : list ascii) : option (list ascii * list ascii) :=
  match cs with
  | c :: rest =>
      if isChar c "0" then Some ([c], rest)
      else if isDigit c then let '(ds, r) := digits rest in Some (c :: ds, r)
      else None
  | [] => None
  end.

Definition parseFrac (cs : list ascii) : option (list ascii * list ascii) :=
  match cs with
  | c :: rest =>
      if isChar c "." then
        match digits rest with
        | ([], _) => None
        | (ds, r) => Some (c :: ds, r)
        end
      else Some ([], cs)
  | [] => Some ([], [])
  end.

Definition parseExp (cs : list ascii) : option (list ascii * list ascii) :=
  match cs with
  | c :: rest =>
      if isChar c "e" || isChar c "E" then
        let '(sign, rest') :=
          match rest with
          | s :: r => if isChar s "+" || isChar s "-" then ([s], r) else ([], rest)
          | [] => ([], rest)
          end in
        match digits rest' with
        | ([], _) => None
        | (ds, r) => Some (c :: sign ++ ds, r)
        end
      else Some ([], cs)
  | [] => Some ([], [])
  end.

Definition parseNumber (cs : list ascii) : option (JSON * list ascii) :=
  let '(sign, cs1) :=
    match cs with
    | c :: rest => if isChar c "-" then ([c], rest) else ([], cs)
    | [] => ([], cs)
    end in
  match parseInt cs1 with
  | None => None
  | Some (i, cs2) =>
      match parseFrac cs2 with
      | None => None
      | Some (f, cs3) =>
          match parseExp cs3 with
          | None => None
          | Some (e, cs4) =>
              Some (JNumber (string_of_list_ascii (sign ++ i ++ f ++ e)), cs4)
          end
      end
  end.

(** What a string literal is made of: a byte written as such, or a UTF-16
    code unit written [\uXXXX]. *)
Inductive StrUnit : Type :=
| Raw (c : ascii)
| Esc (n : N).

Definition hexVal (c : ascii) : option N :=
  option_map Z.to_N (ColorUtils.hexDigit c).

Definition hex4 (a b c d : ascii) : option N :=
  match hexVal a, hexVal b, hexVal c, hexVal d with
  | Some x, Some y, Some z, Some w => Some (((x * 16 + y) * 16 + z) * 16 + w)%N
  | _, _, _, _ => None
  end.

Definition simpleEscape (e : ascii) : option ascii :=
  if isChar e dq then Some e
  else if isChar e "\" then Some e
  else if isChar e "/" then Some e
  else if isChar e "b" then Some (ascii_of_nat 8)
  else if isChar e "f" then Some (ascii_of_nat 12)
  else if isChar e "n" then Some (ascii_of_nat 10)
  else if isChar e "r" then Some (ascii_of_nat 13)
  else if isChar e "t" then Some (ascii_of_nat 9)
  else None.

Definition consUnit (u : StrUnit) (r : option (list StrUnit * list ascii))
  : option (list StrUnit * list ascii) :=
  match r with
  | Some (us, rest) => Some (u :: us, rest)
  | None => None
  end.

(** The characters of a string literal after its opening quote, up to and
    including the closing one. *)
Fixpoint parseChars (cs : list ascii) : option (list StrUnit * list ascii) :=
  match cs with
  | [] => None
  | c :: rest =>
      if isChar c dq then Some ([], rest)
      else if isChar c "\" then
        match rest with
        | [] => None
        | e :: rest1 =>
            if isChar e "u" then
              match rest1 with
              | h1 :: h2 :: h3 :: h4 :: rest2 =>
                  match hex4 h1 h2 h3 h4 with
                  | Some n => consUnit (Esc n) (parseChars rest2)
                  | None => None
                  end
              | _ => None
              end
            else
              match simpleEscape e with
              | Some x => consUnit (Raw x) (parseChars rest1)
              | None => None
              end
        end
      else if (code c <? 32)%N then None
      else consUnit (Raw c) (parseChars rest)
  end.

Definition byte (n : N) : ascii := ascii_of_N n.

(** UTF-8 encoding of a code point. *)
Definition utf8 (n : N) : list ascii :=
  (if n <? 128 then [byte n]
   else if n <? 2048 then [byte (192 + n / 64); byte (128 + n mod 64)]
   else if n <? 65536 then
     [byte (224 + n / 4096); byte (128 + (n / 64) mod 64); byte (128 + n mod 64)]
   else
     [byte (240 + n / 262144); byte (128 + (n / 4096) mod 64);
      byte (128 + (n / 64) mod 64); byte (128 + n mod 64)])%N.

Definition isHigh (n : N) : bool := ((55296 <=? n) && (n <=? 56319))%N.
Definition isLow (n : N) : bool := ((56320 <=? n) && (n <=? 57343))%N.

(** The bytes of the string value: a high surrogate followed by a low one is
    one code point. *)
Fixpoint encodeUnits (us : list StrUnit) : list ascii :=
  match us with
  | [] => []
  | Raw c :: rest => c :: encodeUnits rest
  | Esc hi :: rest =>
      match rest with
      | Esc lo :: rest' =>
          if isHigh hi && isLow lo
          then utf8 (65536 + (hi - 55296) * 1024 + (lo - 56320))%N ++ encodeUnits rest'
          else utf8 hi ++ encodeUnits rest
      | _ => utf8 hi ++ encodeUnits rest
      end
  end.

Definition parseString (cs : list ascii) : option (string * list ascii) :=
  match parseChars cs with
  | Some (us, rest) => Some (string_of_list_ascii (encodeUnits us), rest)
  | None => None
  end.

Definition parseLiteral (name : string) (v : JSON) (cs : list ascii)
  : option (JSON * list ascii) :=
  let p := list_ascii_of_string name in
  if prefixOf p cs then Some (v, skipn (List.length p) cs) else None.

Fixpoint parseValue (fuel : nat) (cs : list ascii) : option (JSON * list ascii) :=
  match fuel with
  | O => None
  | S f =>
      match skipWs cs with
      | [] => None
      | c :: rest =>
          if isChar c "{" then
            match skipWs rest with
            | c' :: rest' =>
                if isChar c' "}" then Some (JObject [], rest')
                else parseMembers f (skipWs rest) []
            | [] => None
            end
          else if isChar c "[" then
            match skipWs rest with
            | c' :: rest' =>
                if isChar c' "]" then Some (JArray [], rest')
                else parseElements f rest []
            | [] => None
            end
          else if isChar c dq then
            match parseString rest with
            | Some (s, r) => Some (JString s, r)
            | None => None
            end
          else if isChar c "t" then parseLiteral "true" (JBool true) (c :: rest)
          else if isChar c "f" then parseLiteral "false" (JBool false) (c :: rest)
          else if isChar c "n" then parseLiteral "null" JNull (c :: rest)
          else parseNumber (c :: rest)
      end
  end

with parseElements (fuel : nat) (cs : list ascii) (acc : list JSON)
  : option (JSON * list ascii) :=
  match fuel with
  | O => None
  | S f =>
      match parseValue f cs with
      | None => None
      | Some (v, r) =>
          match skipWs r with
          | c :: r' =>
              if isChar c "," then parseElements f r' (v :: acc)
              else if isChar c "]" then Some (JArray (rev (v :: acc)), r')
              else None
          | [] => None
          end
      end
  end

with parseMembers (fuel : nat) (cs : list ascii) (acc : list (string * JSON))
  : option (JSON * list ascii) :=
  match fuel with
  | O => None
  | S f =>
      match cs with
      | q :: afterQuote =>
          if isChar q dq then
            match parseString afterQuote with
            | None => None
            | Some (k, r) =>
                match skipWs r with
                | colon :: r1 =>
                    if isChar colon ":" then
                      match parseValue f r1 with
                      | None => None
                      | Some (v, r2) =>
                          match skipWs r2 with
                          | c :: r3 =>
                              if isChar c "," then parseMembers f (skipWs r3) ((k, v) :: acc)
                              else if isChar c "}" then Some (JObject (rev ((k, v) :: acc)), r3)
                              else None
                          | [] => None
                          end
                      end
                    else None
                | [] => None
                end
            end
          else None
      | [] => None
      end
  end.

(** [JSON.parse]: one value, white space around it, nothing else; [None] is
    the [SyntaxError]. *)
Definition JSON_parse (text : string) : option JSON :=
  let cs := list_ascii_of_string text in
  match parseValue (2 * List.length cs + 2) cs with
  | Some (v, rest) =>
      match skipWs rest with
      | [] => Some v
      | _ :: _ => None
      end
  | None => None
  end.

Definition hexChar (n : N) : ascii :=
  if (n <? 10)%N then ascii_of_N (48 + n) else ascii_of_N (87 + n).

(** One character of a string as [JSON.stringify] writes it. *)
Definition quoteChar (c : ascii) : list ascii :=
  let n := code c in
  if (n =? 34)%N then ["\"%char; c]
  else if (n =? 92)%N then ["\"%char; c]
  else if (n =? 8)%N then ["\"%char; "b"%char]
  else if (n =? 12)%N then ["\"%char; "f"%char]
  else if (n =? 10)%N then ["\"%char; "n"%char]
  else if (n =? 13)%N then ["\"%char; "r"%char]
  else if (n =? 9)%N then ["\"%char; "t"%char]
  else if (n <? 32)%N then
    ["\"%char; "u"%char; "0"%char; "0"%char; hexChar (n / 16); hexChar (n mod 16)]
  else [c].

Definition quote (s : string) : string :=
  dq ++ string_of_list_ascii (flat_map quoteChar (list_ascii_of_string s)) ++ dq.

(** [JSON.stringify(v, null, 2)] below the indentation [indent]; a number is
    written as it was read. *)
Fixpoint stringifyAt (indent : string) (v : JSON) {struct v} : string :=
  match v with
  | JNull => "null"
  | JBool true => "true"
  | JBool false => "false"
  | JNumber lexeme => lexeme
  | JString s => quote s
  | JArray [] => "[]"
  | JArray items =>
      let inner := indent ++ "  " in
      "[" ++ nl ++ inner
      ++ join ("," ++ nl ++ inner) (map (stringifyAt inner) items)
      ++ nl ++ indent ++ "]"
  | JObject [] => "{}"
  | JObject members =>
      let inner := indent ++ "  " in
      "{" ++ nl ++ inner
      ++ join ("," ++ nl ++ inner)
           (map (fun m => quote (fst m) ++ ": " ++ stringifyAt inner (snd m)) members)
      ++ nl ++ indent ++ "}"
  end.

Definition JSON_stringify (v : JSON) : string := stringifyAt "" v.

End Json.

(* ================================================================== *)
(** ** The collaborators: what the program asks of the outside and what
       the outside may answer *)
(* ================================================================== *)

Module Env.
Import JsString Json.

(** The settlement of a promise. *)
Inductive Result (A : Type) : Type :=
| Ok (value : A)
| Err (message : string).
Arguments Ok {A} value.
Arguments Err {A} message.

(** [types.ts] *)
Record BrandStyle : Type := mkBrandStyle {
  brandName : string;
  themeDescription : string;
  dominantColors : list string;
  fontStyle : string;
  layoutVibe : string
}.

Inductive AssetType : Type := logo | social.

Record GeneratedAsset : Type := mkGeneratedAsset {
  id : string;
  type : AssetType;
  subtype : string;
  imageUrl : string;
  description : string
}.

Inductive AnalysisState : Type :=
| idle
| analyzing
| generating
| complete
| error (message : string).

(** One entry of the [parts] array of a model request. *)
Inductive Part : Type :=
| InlineData (mimeType data : string)
| Text (text : string).

(** The argument of [ai.models.generateContent]. *)
Record Request : Type := mkRequest {
  model : string;
  parts : list Part;
  googleSearch : bool;
  imageConfig : option (string * string)
}.

(** A file of the archive: the manifest text or an image blob. *)
Inductive Content : Type :=
| TextFile (text : string)
| BlobFile (blob : string).

(** The [JSZip] folder the export fills: its name and its files by path, in
    the order they were first added. *)
Record Zip : Type := mkZip {
  folderName : string;
  files : list (string * Content)
}.

(** What the program does to the outside, in the order it does it. *)
Inductive Effect : Type :=
| Log (message : string)
| ConsoleWarn (text detail : string)
| ConsoleError (text detail : string)
| SetTimeout (ms : N)
| ClearTimeout
| Fetch (url : string)
| AbortFetch
| GenerateContent (request : Request)
| SaveAs (zip : Zip) (fileName : string).

(** How the [FileReader] of the screenshot ends: [error], or [load] with
    [reader.result] (empty when it is [null]). *)
Inductive ReaderOutcome : Type :=
| ReaderFailed
| ReaderLoaded (result : string).

(** How [response.blob()] ends. *)
Inductive BlobOutcome : Type :=
| BlobFailed (message : string)
| BlobRead (mime : string) (reader : ReaderOutcome).

(** How the screenshot [fetch] ends: a network failure, the eight-second
    timer firing first, or a response with its status. *)
Inductive FetchOutcome : Type :=
| FetchFailed (message : string)
| FetchTimedOut (message : string)
| FetchResponded (status : N) (body : BlobOutcome).

(** Which of the two promises of [Promise.race] settles first.  The call
    settles with [response.text], or rejects; when the timer is first, the
    call may still settle later. *)
Inductive Race : Type :=
| CallFirst (settlement : Result (option string))
| TimerFirst (late : option (Result (option string))).

(** The answer of the image model to one generation request: a rejection, or
    a response with [candidates?.[0]?.content?.parts], each part given by its
    [inlineData.data] when it has one, together with the values [Date.now()]
    and [Math.random()] print when the asset is built. *)
Inductive GenOutcome : Type :=
| GenRejected (message : string)
| GenReplied (candidateParts : option (list (option string))) (now random : string).

(** How fetching one image of the export ends. *)
Inductive ImageFetch : Type :=
| ImageFailed (message : string)
| ImageBlob (blob : string).

End Env.

(* ================================================================== *)
(** ** StyleExtractor and the generation requests:
       [services/geminiService.ts] *)
(* ================================================================== *)

Module GeminiService.
Import JsString Json Env.
Local Open Scope string_scope.

(** [process.env.API_KEY] is [apiKey]; the client is kept as its key. *)
Definition getClient (apiKey : option string) : Result string :=
  match apiKey with
  | Some k => if truthy k then Ok k else Err "API Key not found"
  | None => Err "API Key not found"
  end.

Definition getDemoBrandStyle : BrandStyle :=
  mkBrandStyle "NeonFlux"
    "Cyberpunk aesthetic with high-contrast neon accents against deep void black."
    ["#09090B"; "#00F0FF"; "#7000FF"; "#FF003C"; "#FFFFFF"]
    "Futuristic Sans-Serif (Orbitron/Inter)"
    "Asymmetrical grid, glowing borders, glitch effects".

Definition screenshotUrlOf (url : string) : string :=
  let targetUrl := if startsWith url "http" then url else "https://" ++ url in
  "https://image.thum.io/get/width/1024/crop/800/noanimate/" ++ targetUrl.

(** The [catch] block of [fetchScreenshotBase64]. *)
Definition screenshotCatch (message : string) : list Effect :=
  [ Log ("Screenshot failed (using text fallback): " ++ message);
    ConsoleWarn
      "Screenshot fetch failed or timed out, falling back to text analysis:"
      message ].

(** [fetchScreenshotBase64]: the effects in order and the value the promise
    fulfils with, [None] for [null] and [undefined]. *)
Definition fetchScreenshotBase64 (url : string) (outcome : FetchOutcome)
  : list Effect * option string :=
  let start :=
    [ Log ("Initiating screenshot capture for " ++ url ++ "...");
      SetTimeout 8000;
      Log "Sending request to screenshot service...";
      Fetch (screenshotUrlOf url) ] in
  match outcome with
  | FetchFailed message => ((start ++ screenshotCatch message)%list, None)
  | FetchTimedOut message => ((start ++ AbortFetch :: screenshotCatch message)%list, None)
  | FetchResponded status body =>
      if negb ((200 <=? status) && (status <=? 299))%N then
        ((start ++ [ ClearTimeout;
                     Log ("Screenshot service returned status: " ++ ofN status) ])%list,
         None)
      else
        match body with
        | BlobFailed message => ((start ++ ClearTimeout :: screenshotCatch message)%list, None)
        | BlobRead mime reader =>
            if negb (startsWith mime "image/") then
              ((start ++ [ ClearTimeout;
                           Log ("Invalid content type received: " ++ mime) ])%list,
               None)
            else
              let converting :=
                (start ++ [ ClearTimeout;
                            Log "Screenshot captured successfully. Converting to Base64..." ])%list in
              match reader with
              | ReaderFailed =>
                  ((converting ++ [ Log "Failed to read blob data.";
                                    Log "FileReader result is empty." ])%list,
                   None)
              | ReaderLoaded res =>
                  if negb (truthy res) then
                    ((converting ++ [ Log "FileReader result is empty." ])%list, None)
                  else (converting, splitCommaSecond res)
              end
        end
  end.

(** The text of the analysis prompt. *)
Definition analysisPrompt (url : string) (withImage : bool) : string :=
  (nl ++ "    Analyze the brand and visual style of the website: " ++ url ++ "." ++ nl
   ++ "  ")
  ++ (if withImage then
        nl ++ "    I have provided a screenshot of the website. " ++ nl
        ++ "    1. ANALYZE the image to determine the dominant color palette (extract hex codes from the image pixels)." ++ nl
        ++ "    2. OBSERVE the layout structure (hero section, navigation, density)." ++ nl
        ++ "    3. DETECT the typography style (serif vs sans-serif, weights, mood)." ++ nl
        ++ "    If the image appears to be a " ++ dq ++ "loading" ++ dq
        ++ " placeholder or " ++ dq ++ "screenshot failed" ++ dq
        ++ " image, IGNORE the image and use Google Search instead." ++ nl
        ++ "    "
      else
        nl ++ "    Use Google Search to find information about the brand's logo, colors, and design language." ++ nl
        ++ "    ")
  ++ (nl ++ "    If the website is not well-known, infer a suitable style based on the domain name and industry standards." ++ nl
      ++ "    " ++ nl
      ++ "    Return a VALID JSON object (no markdown, just raw JSON) with the following specific structure:" ++ nl
      ++ "    {" ++ nl
      ++ "      " ++ dq ++ "brandName" ++ dq ++ ": " ++ dq ++ "Name of the brand" ++ dq ++ "," ++ nl
      ++ "      " ++ dq ++ "themeDescription" ++ dq ++ ": " ++ dq
      ++ "A concise description of the visual theme" ++ dq ++ "," ++ nl
      ++ "      " ++ dq ++ "dominantColors" ++ dq ++ ": [" ++ dq ++ "#hex1" ++ dq ++ ", "
      ++ dq ++ "#hex2" ++ dq ++ ", " ++ dq ++ "#hex3" ++ dq ++ ", " ++ dq ++ "#hex4" ++ dq
      ++ ", " ++ dq ++ "#hex5" ++ dq ++ "]," ++ nl
      ++ "      " ++ dq ++ "fontStyle" ++ dq ++ ": " ++ dq ++ "Description of typography" ++ dq ++ "," ++ nl
      ++ "      " ++ dq ++ "layoutVibe" ++ dq ++ ": " ++ dq ++ "Description of layout structure" ++ dq ++ nl
      ++ "    }" ++ nl
      ++ "  ").

(** [inputParts] as it is when the request is sent. *)
Definition inputParts (url : string) (screenshotBase64 : option string) : list Part :=
  match screenshotBase64 with
  | Some data =>
      if truthy data
      then [InlineData "image/png" data; Text (analysisPrompt url true)]
      else [Text (analysisPrompt url false)]
  | None => [Text (analysisPrompt url false)]
  end.

Definition hasImage (screenshotBase64 : option string) : bool :=
  match screenshotBase64 with
  | Some data => truthy data
  | None => false
  end.

(** [text.replace(/```json\n?/g, '').replace(/```/g, '').trim()] *)
Definition stripFences (text : string) : string :=
  trim (removeAll "```" false (removeAll "```json" true text)).

(** The outer [catch] of [analyzeBrandFromUrl]: log and rethrow. *)
Definition critical {A : Type} (message : string) : list Effect * Result A :=
  ([Log ("Critical Error: " ++ message)], Err message).

Definition andThen {A : Type} (before : list Effect) (r : list Effect * Result A)
  : list Effect * Result A :=
  ((before ++ fst r)%list, snd r).

(** [analyzeBrandFromUrl(url, onLog)]: the effects in order ([Log] is a call
    of [onLog]) and the settlement; the value it fulfils with is whatever
    [JSON.parse] returned. *)
Definition analyzeBrandFromUrl (apiKey : option string) (url : string)
    (shot : FetchOutcome) (race : Race) : list Effect * Result JSON :=
  match getClient apiKey with
  | Err message => ([], Err message)
  | Ok _ =>
      let '(shotEffects, screenshotBase64) := fetchScreenshotBase64 url shot in
      let request :=
        mkRequest "gemini-3-pro-preview" (inputParts url screenshotBase64) true None in
      let sent :=
        (Log "Step 1: Fetching visual context..." :: shotEffects
        ++ [ Log (if hasImage screenshotBase64
                  then "Visual context acquired. Attaching image to prompt."
                  else "No visual context available. Proceeding with text/search analysis.");
             Log "Step 2: Sending request to Gemini 3 Pro...";
             GenerateContent request;
             SetTimeout 40000 ])%list in
      andThen sent
        match race with
        | TimerFirst _ => critical "Gemini API timed out after 40s"
        | CallFirst (Err message) => critical message
        | CallFirst (Ok response_text) =>
            andThen [Log "Gemini response received."]
              match response_text with
              | None =>
                  andThen [Log "Error: Empty text response from Gemini."]
                    (critical "Failed to analyze brand.")
              | Some text =>
                  if negb (truthy text) then
                    andThen [Log "Error: Empty text response from Gemini."]
                      (critical "Failed to analyze brand.")
                  else
                    andThen [Log "Step 3: Parsing analysis results..."]
                      match JSON_parse (stripFences text) with
                      | Some result =>
                          ([Log "Analysis complete. Style definition ready."], Ok result)
                      | None =>
                          andThen
                            [ ConsoleError "Failed to parse JSON response:" (stripFences text);
                              Log "Error: Invalid JSON format received." ]
                            (critical "Failed to parse brand analysis results.")
                      end
              end
        end
  end.

(** The loop over [response.candidates[0].content.parts]: the data URL of
    the first part that carries image data, the empty string when none does. *)
Fixpoint firstImage (candidateParts : list (option string)) : string :=
  match candidateParts with
  | [] => ""
  | Some data :: rest =>
      if truthy data then "data:image/png;base64," ++ data else firstImage rest
  | None :: rest => firstImage rest
  end.

Definition imageUrlOf (candidateParts : option (list (option string))) : string :=
  match candidateParts with
  | Some ps => firstImage ps
  | None => ""
  end.

Definition logoPrompt (style : BrandStyle) (variant : string) : string :=
  nl ++ "    Design a professional logo for the brand " ++ dq ++ brandName style ++ dq ++ "." ++ nl
  ++ "    Style: " ++ themeDescription style ++ "." ++ nl
  ++ "    Variant: " ++ variant ++ "." ++ nl
  ++ "    Colors: Use the palette " ++ join ", " (dominantColors style) ++ "." ++ nl
  ++ "    Vibe: " ++ layoutVibe style ++ "." ++ nl
  ++ "    Requirements: Flat vector style, simple, scalable, transparent background if possible." ++ nl
  ++ "  ".

Definition logoRequest (style : BrandStyle) (variant : string) : Request :=
  mkRequest "gemini-3-pro-image-preview" [Text (logoPrompt style variant)] false
    (Some ("1:1", "1K")).

(** [generateLogoVariant(style, variant)] settled by [outcome]. *)
Definition generateLogoVariant (apiKey : option string) (style : BrandStyle)
    (variant : string) (outcome : GenOutcome) : Result GeneratedAsset :=
  match getClient apiKey with
  | Err message => Err message
  | Ok _ =>
      match outcome with
      | GenRejected message => Err message
      | GenReplied candidateParts now random =>
          let imageUrl := imageUrlOf candidateParts in
          if negb (truthy imageUrl) then Err "Failed to generate logo image"
          else Ok (mkGeneratedAsset ("logo-" ++ now ++ "-" ++ random) logo variant
                     imageUrl (variant ++ " logo variant"))
      end
  end.

(** The [type] argument of [generateBrandAsset]. *)
Inductive BrandAssetType : Type := Billboard | Merch | Poster.

Definition typeName (t : BrandAssetType) : string :=
  match t with
  | Billboard => "Billboard"
  | Merch => "Merch"
  | Poster => "Poster"
  end.

Definition aspectRatioOf (t : BrandAssetType) : string :=
  match t with
  | Billboard => "16:9"
  | Merch => "3:4"
  | Poster => "9:16"
  end.

Definition promptDetails (style : BrandStyle) (t : BrandAssetType) : string :=
  match t with
  | Billboard =>
      "A photorealistic wide urban billboard advertisement for " ++ dq
      ++ brandName style ++ dq ++ ". " ++ nl
      ++ "      High-end 3D city context. Clean, bold typography. "
  | Merch =>
      "A high-fashion streetwear hoodie mockup featuring the " ++ dq
      ++ brandName style ++ dq ++ " logo. " ++ nl
      ++ "      Professional studio lighting, model wearing the merchandise, lifestyle photography. "
  | Poster =>
      "A Swiss-style graphic design poster for " ++ dq ++ brandName style ++ dq ++ ". " ++ nl
      ++ "      Vertical format, bold typography, abstract geometric shapes based on brand colors. Artsy and modern."
  end.

Definition assetPrompt (style : BrandStyle) (t : BrandAssetType) : string :=
  nl ++ "    Create a " ++ promptDetails style t ++ nl
  ++ "    " ++ nl
  ++ "    Brand Identity:" ++ nl
  ++ "    - Theme: " ++ themeDescription style ++ nl
  ++ "    - Colors: " ++ join ", " (dominantColors style) ++ nl
  ++ "    - Vibe: " ++ layoutVibe style ++ nl
  ++ "    " ++ nl
  ++ "    Make it look like a high-budget professional brand asset." ++ nl
  ++ "  ".

Definition assetRequest (style : BrandStyle) (t : BrandAssetType) : Request :=
  mkRequest "gemini-3-pro-image-preview" [Text (assetPrompt style t)] false
    (Some (aspectRatioOf t, "1K")).

(** [generateBrandAsset(style, type)] settled by [outcome]. *)
Definition generateBrandAsset (apiKey : option string) (style : BrandStyle)
    (t : BrandAssetType) (outcome : GenOutcome) : Result GeneratedAsset :=
  match getClient apiKey with
  | Err message => Err message
  | Ok _ =>
      match outcome with
      | GenRejected message => Err message
      | GenReplied candidateParts now _ =>
          let imageUrl := imageUrlOf candidateParts in
          if negb (truthy imageUrl) then Err ("Failed to generate " ++ typeName t)
          else Ok (mkGeneratedAsset ("asset-" ++ typeName t ++ "-" ++ now) social
                     (typeName t) imageUrl (typeName t ++ " Mockup"))
      end
  end.

End GeminiService.

(* ================================================================== *)
(** ** GenerationOrchestrator and the archive export: [App.tsx] *)
(* ================================================================== *)

Module App.
Import JsString Json Env GeminiService.
Local Open Scope string_scope.

Definition LOGO_VARIANTS : list string :=
  ["Minimalist Wordmark"; "Abstract Icon"; "App Icon"].

Definition BRAND_ASSETS : list BrandAssetType := [Billboard; Merch; Poster].

(** The state hooks of the component. *)
Record UI : Type := mkUI {
  hasKey : bool;
  state : AnalysisState;
  brandStyle : option BrandStyle;
  assets : list GeneratedAsset;
  progress : string;
  logs : list string;
  analyzedUrl : string
}.

(** The component state, the number of clock readings made for the log, and
    what was done to the outside so far. *)
Record Session : Type := mkSession {
  ui : UI;
  ticks : nat;
  out : list Effect
}.

Definition initialUI : UI := mkUI false idle None [] "" [] "".
Definition initialSession : Session := mkSession initialUI 0 [].

Definition onUI (f : UI -> UI) (s : Session) : Session :=
  mkSession (f (ui s)) (ticks s) (out s).

Definition setHasKey (v : bool) : Session -> Session :=
  onUI (fun u => mkUI v (state u) (brandStyle u) (assets u) (progress u) (logs u) (analyzedUrl u)).
Definition setState (v : AnalysisState) : Session -> Session :=
  onUI (fun u => mkUI (hasKey u) v (brandStyle u) (assets u) (progress u) (logs u) (analyzedUrl u)).
Definition setBrandStyle (v : option BrandStyle) : Session -> Session :=
  onUI (fun u => mkUI (hasKey u) (state u) v (assets u) (progress u) (logs u) (analyzedUrl u)).
Definition setAssets (f : list GeneratedAsset -> list GeneratedAsset) : Session -> Session :=
  onUI (fun u => mkUI (hasKey u) (state u) (brandStyle u) (f (assets u)) (progress u) (logs u) (analyzedUrl u)).
Definition setProgress (v : string) : Session -> Session :=
  onUI (fun u => mkUI (hasKey u) (state u) (brandStyle u) (assets u) v (logs u) (analyzedUrl u)).
Definition setLogs (f : list string -> list string) : Session -> Session :=
  onUI (fun u => mkUI (hasKey u) (state u) (brandStyle u) (assets u) (progress u) (f (logs u)) (analyzedUrl u)).
Definition setAnalyzedUrl (v : string) : Session -> Session :=
  onUI (fun u => mkUI (hasKey u) (state u) (brandStyle u) (assets u) (progress u) (logs u) v).

(** Something done to the outside, other than a log line. *)
Definition emit (e : Effect) (s : Session) : Session :=
  mkSession (ui s) (ticks s) (out s ++ [e]).

Section Clock.

(** [clock n] is what [new Date().toLocaleTimeString().split(' ')[0]] gives
    at the [n]-th reading. *)
Variable clock : nat -> string.

Definition addLog (msg : string) (s : Session) : Session :=
  let line := "[" ++ clock (ticks s) ++ "] " ++ msg in
  let s := setLogs (fun prev => (prev ++ [line])%list) s in
  mkSession (ui s) (S (ticks s)) (out s).

(** One effect of a service called with [addLog] as its [onLog]. *)
Definition perform (s : Session) (e : Effect) : Session :=
  match e with
  | Log msg => addLog msg s
  | _ => emit e s
  end.

Definition appendAsset (asset : GeneratedAsset) : Session -> Session :=
  setAssets (fun prev => (prev ++ [asset])%list).

(** The tasks of the second wave. *)
Inductive WaveTask : Type :=
| AssetTask (t : BrandAssetType)
| ExtraLogoTask (variant : string).

Definition waveTask_eqb (a b : WaveTask) : bool :=
  match a, b with
  | AssetTask x, AssetTask y => String.eqb (typeName x) (typeName y)
  | ExtraLogoTask x, ExtraLogoTask y => String.eqb x y
  | _, _ => false
  end.

(** [[...assetPromises, ...extraLogoPromises]] *)
Definition secondWave : list WaveTask :=
  (map AssetTask BRAND_ASSETS ++ map ExtraLogoTask (skipn 1 LOGO_VARIANTS))%list.

Definition waveRequest (style : BrandStyle) (t : WaveTask) : Request :=
  match t with
  | AssetTask a => assetRequest style a
  | ExtraLogoTask v => logoRequest style v
  end.

(** The promise of [Promise.all]. *)
Inductive Join : Type :=
| Waiting
| AllFulfilled
| FirstRejected (message : string).

(** A run of [startGeneration] as far as the tasks have settled: the session,
    the promise the function awaits, and the second-wave tasks still in
    flight. *)
Record GenRun : Type := mkGenRun {
  session : Session;
  join : Join;
  pending : list WaveTask
}.

Fixpoint removeTask (t : WaveTask) (l : list WaveTask) : list WaveTask :=
  match l with
  | [] => []
  | x :: rest => if waveTask_eqb t x then rest else x :: removeTask t rest
  end.

Definition isPending (t : WaveTask) (l : list WaveTask) : bool :=
  existsb (waveTask_eqb t) l.

(** The lines of [startGeneration] after [await Promise.all(...)]. *)
Definition finish (s : Session) : Session :=
  addLog "All assets generated successfully." (setProgress "" (setState complete s)).

(** [Promise.all] fulfils once every promise given to it has. *)
Definition joinStep (run : GenRun) : GenRun :=
  match join run, pending run with
  | Waiting, [] => mkGenRun (finish (session run)) AllFulfilled []
  | _, _ => run
  end.

Section Run.

Variable apiKey : option string.

(** What the caller does when the promise of [startGeneration] rejects. *)
Variable onReject : string -> Session -> Session.

Variable style : BrandStyle.

(** [startGeneration] up to its first [await]. *)
Definition startGeneration_begin (s : Session) : Session :=
  let s := setBrandStyle (Some style) s in
  let s := setState generating s in
  let s := setProgress ("Synthesizing brand identity for " ++ brandName style ++ "...") s in
  let s := addLog "Analysis complete. Starting asset generation..." s in
  let s := setAssets (fun _ => []) s in
  let s := addLog "Generating primary logo..." s in
  match getClient apiKey with
  | Ok _ => emit (GenerateContent (logoRequest style (nth 0 LOGO_VARIANTS "undefined"))) s
  | Err _ => s
  end.

(** The primary logo settles; the second wave is sent and joined. *)
Definition primarySettled (outcome : GenOutcome) (s : Session) : GenRun :=
  let s :=
    match generateLogoVariant apiKey style (nth 0 LOGO_VARIANTS "undefined") outcome with
    | Ok primaryLogo => appendAsset primaryLogo s
    | Err message => emit (ConsoleError "Primary logo failed" message) s
    end in
  let s :=
    match getClient apiKey with
    | Ok _ => fold_left (fun s t => emit (GenerateContent (waveRequest style t)) s) secondWave s
    | Err _ => s
    end in
  joinStep (mkGenRun s Waiting secondWave).

(** One task of the second wave settles. *)
Definition taskSettled (run : GenRun) (ev : WaveTask * GenOutcome) : GenRun :=
  let '(task, outcome) := ev in
  if negb (isPending task (pending run)) then run
  else
    let rest := removeTask task (pending run) in
    let s := session run in
    match task with
    | AssetTask t =>
        let s :=
          match generateBrandAsset apiKey style t outcome with
          | Ok asset => appendAsset asset (addLog ("Generated " ++ typeName t ++ " asset.") s)
          | Err message =>
              addLog ("Error generating " ++ typeName t ++ ": " ++ message)
                (emit (ConsoleError ("Failed to generate " ++ typeName t) message) s)
          end in
        joinStep (mkGenRun s (join run) rest)
    | ExtraLogoTask variant =>
        match generateLogoVariant apiKey style variant outcome with
        | Ok asset => joinStep (mkGenRun (appendAsset asset s) (join run) rest)
        | Err message =>
            match join run with
            | Waiting => mkGenRun (onReject message s) (FirstRejected message) rest
            | _ => mkGenRun s (join run) rest
            end
        end
    end.

(** [startGeneration(style)] as far as the settlements [wave], given in the
    order they happen, take it. *)
Definition startGeneration (primary : GenOutcome) (wave : list (WaveTask * GenOutcome))
    (s : Session) : GenRun :=
  fold_left taskSettled wave (primarySettled primary (startGeneration_begin s)).

End Run.

(** The [catch] block of [handleAnalyze]. *)
Definition analyzeCatch (message : string) (s : Session) : Session :=
  let s := emit (ConsoleError message "") s in
  let s := setState (error message) s in
  addLog ("FATAL ERROR: " ++ message) s.

Definition asString (v : option JSON) : option string :=
  match v with
  | Some (JString s) => Some s
  | _ => None
  end.

Fixpoint asStrings (items : list JSON) : option (list string) :=
  match items with
  | [] => Some []
  | JString s :: rest =>
      match asStrings rest with
      | Some l => Some (s :: l)
      | None => None
      end
  | _ :: _ => None
  end.

(** The parse result read at the type the cast [as BrandStyle] asserts:
    [None] when the value does not have that type. *)
Definition asBrandStyle (v : JSON) : option BrandStyle :=
  match v with
  | JObject members =>
      match asString (lookup "brandName" members),
            asString (lookup "themeDescription" members),
            lookup "dominantColors" members,
            asString (lookup "fontStyle" members),
            asString (lookup "layoutVibe" members) with
      | Some n, Some t, Some (JArray items), Some f, Some l =>
          match asStrings items with
          | Some colors => Some (mkBrandStyle n t colors f l)
          | None => None
          end
      | _, _, _, _, _ => None
      end
  | _ => None
  end.

(** [handleAnalyze] up to the settlement of [analyzeBrandFromUrl]. *)
Definition handleAnalyze_extract (apiKey : option string) (url : string)
    (shot : FetchOutcome) (race : Race) (s : Session) : Session * Result JSON :=
  let s := setAnalyzedUrl url s in
  let s := setState analyzing s in
  let s := setProgress "Capturing site visuals & analyzing DNA with Gemini 3 Pro..." s in
  let s := setLogs (fun _ => []) s in
  let s := addLog ("Starting analysis for: " ++ url) s in
  let '(effects, settlement) := analyzeBrandFromUrl apiKey url shot race in
  (fold_left perform effects s, settlement).

(** [handleAnalyze(url)] as far as the settlements [wave] take it.  The run
    is followed for parse results that have the type [BrandStyle]; for the
    others, whose use depends on how JavaScript coerces them, the model gives
    [None]. *)
Definition handleAnalyze (apiKey : option string) (url : string)
    (shot : FetchOutcome) (race : Race)
    (primary : GenOutcome) (wave : list (WaveTask * GenOutcome))
    (s : Session) : option Session :=
  match handleAnalyze_extract apiKey url shot race s with
  | (s, Err message) => Some (analyzeCatch message s)
  | (s, Ok v) =>
      match asBrandStyle v with
      | Some style =>
          Some (session (startGeneration apiKey analyzeCatch style primary wave s))
      | None => None
      end
  end.

(** [handleDemoMode]: the rejection of [startGeneration] is left unhandled. *)
Definition handleDemoMode (apiKey : option string)
    (primary : GenOutcome) (wave : list (WaveTask * GenOutcome))
    (s : Session) : Session :=
  let s := setAnalyzedUrl "neonflux.io" s in
  let s := setState analyzing s in
  let s := setLogs (fun _ => []) s in
  let s := addLog "Demo Mode activated." s in
  let s := addLog "Skipping live analysis..." s in
  let s := emit (SetTimeout 1000) s in
  let s := addLog "Loaded 'NeonFlux' demo brand profile." s in
  session (startGeneration apiKey (fun _ s => s) getDemoBrandStyle primary wave s).

End Clock.

(** [folder.file(name, data)]: a file of that name is replaced, a new one is
    added last. *)
Fixpoint file (name : string) (data : Content) (fs : list (string * Content))
  : list (string * Content) :=
  match fs with
  | [] => [(name, data)]
  | (n, d) :: rest =>
      if String.eqb n name then (n, data) :: rest else (n, d) :: file name data rest
  end.

Definition typeString (t : AssetType) : string :=
  match t with
  | logo => "logo"
  | social => "social"
  end.

(** [`${asset.type}s/${asset.subtype.replace(/\s+/g, '_')}.png`] *)
Definition assetPath (asset : GeneratedAsset) : string :=
  typeString (type asset) ++ "s/" ++ replaceWs (subtype asset) ++ ".png".

(** The object [styleGuide]. *)
Definition styleGuide (style : BrandStyle) (generatedAt : string) : JSON :=
  JObject
    [ ("name", JString (brandName style));
      ("theme", JString (themeDescription style));
      ("colors", JArray (map JString (dominantColors style)));
      ("fonts", JString (fontStyle style));
      ("layout", JString (layoutVibe style));
      ("generatedAt", JString generatedAt) ].

Section Download.

(** What [fetch(asset.imageUrl)] followed by [response.blob()] gives. *)
Variable fetchImage : string -> ImageFetch.

(** [new Date().toISOString()] when the manifest is built. *)
Variable generatedAt : string.

(** One turn of the loop over [assets]. *)
Definition addImage (acc : Session * Zip) (asset : GeneratedAsset) : Session * Zip :=
  let '(s, folder) := acc in
  let s := emit (Fetch (imageUrl asset)) s in
  match fetchImage (imageUrl asset) with
  | ImageBlob blob =>
      (s, mkZip (folderName folder) (file (assetPath asset) (BlobFile blob) (files folder)))
  | ImageFailed message =>
      (emit (ConsoleError "Failed to add file to zip" message) s, folder)
  end.

(** [handleDownloadZip]; [zip.folder] always gives a folder. *)
Definition handleDownloadZip (s : Session) : Session :=
  match brandStyle (ui s), assets (ui s) with
  | None, _ => s
  | Some _, [] => s
  | Some style, _ :: _ =>
      let folder := mkZip (replaceWs (brandName style) ++ "_BrandKit") [] in
      let folder :=
        mkZip (folderName folder)
          (file "style-guide.json"
             (TextFile (JSON_stringify (styleGuide style generatedAt))) (files folder)) in
      let '(s, folder) := fold_left addImage (assets (ui s)) (s, folder) in
      emit (SaveAs folder (brandName style ++ "_BrandKit.zip")) s
  end.

End Download.

(** What [window.aistudio] is: absent, or present with the settlement of
    [hasSelectedApiKey()]. *)
Definition checkKey (aistudio : option (Result bool)) (s : Session) : Session :=
  match aistudio with
  | Some (Ok has) => setHasKey has s
  | Some (Err message) => setHasKey true (emit (ConsoleError message "") s)
  | None => setHasKey true s
  end.

(** [handleSelectKey], the dialog of [openSelectKey()] having closed. *)
Definition handleSelectKey (aistudio : bool) (s : Session) : Session :=
  if aistudio then setHasKey true s else s.

End App.

(* ================================================================== *)
(** ** What the components compute from the state:
       [components/ColorPalette.tsx], [components/UrlInput.tsx] and the
       render of [App.tsx] *)
(* ================================================================== *)

Module ColorPalette.
Import ColorUtils.
Local Open Scope string_scope.

(** [colors.map(analyzeColor)] *)
Definition analyzedColors (colors : list string) : list ColorMetrics :=
  map analyzeColor colors.

(** The class of the hex label: [color.contrastBlack > 10]. *)
Definition labelClass (color : ColorMetrics) : string :=
  if Rgt_dec (contrastBlack color) 10 then "text-black" else "text-white".

(** The class of the accessibility badge. *)
Definition badgeClass (color : ColorMetrics) : string :=
  if String.eqb (accessibility color) "Fail"
  then "bg-red-500 text-white" else "bg-emerald-500 text-white".

(** [Math.max(color.contrastBlack, color.contrastWhite)], shown as
    "Contrast: _:1". *)
Definition shownContrast (color : ColorMetrics) : R :=
  Rmax (contrastBlack color) (contrastWhite color).

End ColorPalette.

Module UrlInput.
Import JsString.

(** [handleSubmit]: the url handed to [onAnalyze], [None] when it is not
    called. *)
Definition handleSubmit (url : string) : option string :=
  if truthy (trim url) then Some url else None.

End UrlInput.

Module Render.
Import Env.

Definition isLogo (a : GeneratedAsset) : bool :=
  match type a with logo => true | social => false end.

(** [assets.find(a => a.type === 'logo')] *)
Definition primaryLogo (assets : list GeneratedAsset) : option GeneratedAsset :=
  List.find isLogo assets.

(** [assets.find(a => a.subtype === name)], for the billboard, the merch and
    the poster boxes. *)
Definition assetNamed (name : string) (assets : list GeneratedAsset)
  : option GeneratedAsset :=
  List.find (fun a => String.eqb (subtype a) name) assets.

(** Whether the board of results is rendered: the key screen is returned
    first when [!hasKey], and the board stands under
    [brandStyle && (state.status === 'complete' || state.status === 'generating')]. *)
Definition showsBoard (u : App.UI) : bool :=
  App.hasKey u
  && match App.brandStyle u with Some _ => true | None => false end
  && match App.state u with
     | complete | generating => true
     | _ => false
     end.

(** What the logo box holds: [None] when the box is not rendered,
    [Some None] when it is rendered without a logo, [Some (Some a)] when it
    shows the image of [a]. *)
Definition logoBox (u : App.UI) : option (option GeneratedAsset) :=
  if showsBoard u then Some (primaryLogo (App.assets u)) else None.

(** [disabled={assets.length < 3}] on the download button. *)
Definition downloadDisabled (assets : list GeneratedAsset) : bool :=
  (List.length assets <? 3)%nat.

End Render.

(* ================================================================== *)
(** ** Notions used to state the properties *)
(* ================================================================== *)

Import JsString Json Env GeminiService App.

(** *** Colours *)

Definition hexAlphabet : list ascii := list_ascii_of_string "0123456789abcdefABCDEF".

Definition isHexDigit (c : ascii) : Prop := In c hexAlphabet.

(** A string that reads as a colour of six hex digits, in either case, with
    or without the leading [#]. *)
Definition is_hex_color (s : string) : Prop :=
  exists ds : list ascii,
    List.length ds = 6%nat /\ Forall isHexDigit ds /\
    (s = string_of_list_ascii ds \/ s = String "#" (string_of_list_ascii ds)).

(** A colour whose three channels are bytes. *)
Definition byteRange (c : ColorUtils.RGB) : Prop :=
  (0 <= ColorUtils.r c <= 255)%Z /\ (0 <= ColorUtils.g c <= 255)%Z /\
  (0 <= ColorUtils.b c <= 255)%Z.

(** [y] is [x] rounded to two decimal places, a tie going up. *)
Definition rounded2 (x y : R) : Prop :=
  (exists n : Z, y = (IZR n / 100)%R) /\ (- 0.005 < y - x <= 0.005)%R.

(** *** The extractor *)

(** The ways a capture attempt fails: a network failure, the timer, a status
    outside 200..299, a content type that is not an image. *)
Inductive CaptureFails : FetchOutcome -> Prop :=
| capture_network message : CaptureFails (FetchFailed message)
| capture_timeout message : CaptureFails (FetchTimedOut message)
| capture_status status body :
    ((200 <=? status) && (status <=? 299))%N = false ->
    CaptureFails (FetchResponded status body)
| capture_mime status mime reader :
    startsWith mime "image/" = false ->
    CaptureFails (FetchResponded status (BlobRead mime reader)).

Definition isInlineData (p : Part) : bool :=
  match p with InlineData _ _ => true | Text _ => false end.

(** The model requests among some effects, in order. *)
Definition analysisRequests (effects : list Effect) : list Request :=
  flat_map (fun e => match e with GenerateContent r => [r] | _ => [] end) effects.

Definition isString (v : option JSON) : bool :=
  match v with Some (JString _) => true | _ => false end.

Definition isHexString (v : JSON) : bool :=
  match v with
  | JString s => match ColorUtils.hexToRgb s with Some _ => true | None => false end
  | _ => false
  end.

(** The schema the specification requires of the collaborator's output: a
    single JSON object with the string fields [brandName],
    [themeDescription], [fontStyle] and [layoutVibe], and [dominantColors] a
    list of five hex strings. *)
Definition requiredSchema (v : JSON) : bool :=
  match v with
  | JObject members =>
      isString (lookup "brandName" members)
      && isString (lookup "themeDescription" members)
      && isString (lookup "fontStyle" members)
      && isString (lookup "layoutVibe" members)
      && match lookup "dominantColors" members with
         | Some (JArray items) => (List.length items =? 5)%nat && forallb isHexString items
         | _ => false
         end
  | _ => false
  end.

(** A part of a reply that carries no image data. *)
Definition noImage (p : option string) : Prop := p = None \/ p = Some "".

(** *** The orchestrator *)

(** The tasks of [wave] are, each once, among the tasks [p]: [wave] is the
    beginning of a completion order of [p]. *)
Definition Scheduled (p : list WaveTask) (wave : list (WaveTask * GenOutcome)) : Prop :=
  exists rest, Permutation (map fst wave ++ rest) p.

Section TaskOutcomes.

Variable apiKey : option string.
Variable style : BrandStyle.

(** What the service call behind one settlement returns. *)
Definition produced (ev : WaveTask * GenOutcome) : Result GeneratedAsset :=
  match fst ev with
  | AssetTask t => generateBrandAsset apiKey style t (snd ev)
  | ExtraLogoTask v => generateLogoVariant apiKey style v (snd ev)
  end.

Definition failed (ev : WaveTask * GenOutcome) : bool :=
  match produced ev with Ok _ => false | Err _ => true end.

(** The assets the settlements of [wave] deliver, in that order. *)
Definition delivered (wave : list (WaveTask * GenOutcome)) : list GeneratedAsset :=
  flat_map (fun ev => match produced ev with Ok a => [a] | Err _ => [] end) wave.

(** The message of a settlement whose promise has no [catch]: an extra logo
    that fails. *)
Definition uncaught (ev : WaveTask * GenOutcome) : option string :=
  match fst ev with
  | ExtraLogoTask v =>
      match generateLogoVariant apiKey style v (snd ev) with
      | Err m => Some m
      | Ok _ => None
      end
  | AssetTask _ => None
  end.

Fixpoint firstUncaught (wave : list (WaveTask * GenOutcome)) : option string :=
  match wave with
  | [] => None
  | ev :: rest =>
      match uncaught ev with
      | Some m => Some m
      | None => firstUncaught rest
      end
  end.

(** What the primary logo adds to the asset sequence. *)
Definition primaryAssets (primary : GenOutcome) : list GeneratedAsset :=
  match generateLogoVariant apiKey style "Minimalist Wordmark" primary with
  | Ok primaryLogo => [primaryLogo]
  | Err _ => []
  end.

End TaskOutcomes.

(** *** The archive *)

(** The file of the archive at a path. *)
Fixpoint find (name : string) (fs : list (string * Content)) : option Content :=
  match fs with
  | [] => None
  | (n, d) :: rest => if String.eqb n name then Some d else find name rest
  end.

(** The urls fetched, in order. *)
Definition fetched (trace : list Effect) : list string :=
  flat_map (fun e => match e with Fetch url => [url] | _ => [] end) trace.

Definition savedArchives (trace : list Effect) : list (Zip * string) :=
  flat_map (fun e => match e with SaveAs z n => [(z, n)] | _ => [] end) trace.

Section ArchiveNotions.

Variable fetchImage : string -> ImageFetch.

(** What one turn of the export loop does to the outside. *)
Definition imageTrace (asset : GeneratedAsset) : list Effect :=
  Fetch (imageUrl asset)
  :: match fetchImage (imageUrl asset) with
     | ImageBlob _ => []
     | ImageFailed message => [ConsoleError "Failed to add file to zip" message]
     end.

(** The file at path [p] once the loop has run over [l], [init] being there
    before: the blob of the last asset of that path whose fetch succeeded. *)
Fixpoint stored (p : string) (l : list GeneratedAsset) (init : option Content)
  : option Content :=
  match l with
  | [] => init
  | a :: rest =>
      stored p rest
        match fetchImage (imageUrl a) with
        | ImageBlob blob => if String.eqb (assetPath a) p then Some (BlobFile blob) else init
        | ImageFailed _ => init
        end
  end.

End ArchiveNotions.

(** *** Strings and JSON text *)

(** The unit [JSON.parse] reads for a character [JSON.stringify] wrote. *)
Definition unitOf (c : ascii) : StrUnit :=
  let n := code c in
  if ((n <? 32) && negb ((n =? 8) || (n =? 9) || (n =? 10) || (n =? 12) || (n =? 13)))%N
  then Esc n else Raw c.

Definition qc : ascii := ascii_of_nat 34.
Definition lf : ascii := ascii_of_nat 10.

(** The characters of a quoted string between its quotes. *)
Definition body (s : string) : list ascii := flat_map quoteChar (list_ascii_of_string s).

Definition quoted (s : string) : list ascii := qc :: body s ++ [qc].

(** The elements of an array of strings, as written at depth two. *)
Fixpoint elems (l : list string) : list ascii :=
  match l with
  | [] => []
  | [x] => quoted x
  | x :: rest =>
      quoted x ++ ","%char :: lf :: " "%char :: " "%char :: " "%char :: " "%char :: elems rest
  end.

(** An array of strings, as written at depth one. *)
Definition arrayText (l : list string) : list ascii :=
  match l with
  | [] => ["["%char; "]"%char]
  | _ :: _ =>
      "["%char :: lf :: " "%char :: " "%char :: " "%char :: " "%char
      :: elems l ++ [lf; " "%char; " "%char; "]"%char]
  end.

(** The manifest, character by character. *)
Definition manifestText (style : BrandStyle) (generatedAt : string) : list ascii :=
  "{"%char :: lf :: " "%char :: " "%char
  :: quoted "name" ++ ":"%char :: " "%char :: quoted (brandName style)
  ++ ","%char :: lf :: " "%char :: " "%char
  :: quoted "theme" ++ ":"%char :: " "%char :: quoted (themeDescription style)
  ++ ","%char :: lf :: " "%char :: " "%char
  :: quoted "colors" ++ ":"%char :: " "%char :: arrayText (dominantColors style)
  ++ ","%char :: lf :: " "%char :: " "%char
  :: quoted "fonts" ++ ":"%char :: " "%char :: quoted (fontStyle style)
  ++ ","%char :: lf :: " "%char :: " "%char
  :: quoted "layout" ++ ":"%char :: " "%char :: quoted (layoutVibe style)
  ++ ","%char :: lf :: " "%char :: " "%char
  :: quoted "generatedAt" ++ ":"%char :: " "%char :: quoted generatedAt
  ++ [lf; "}"%char].

(** Whether a white-space character starts somewhere in [cs]. *)
Fixpoint hasWs (cs : list ascii) : bool :=
  match cs with
  | [] => false
  | _ :: rest => negb (Nat.eqb (wsLen cs) 0) || hasWs rest
  end.

(** A string without a comma. *)
Definition noComma (s : string) : Prop :=
  Forall (fun c => c <> ","%char) (list_ascii_of_string s).


(** *** Sample inputs *)

Definition sampleClock (n : nat) : string := "12:00:00".

Definition imageReply (data stamp : string) : GenOutcome :=
  GenReplied (Some [Some data]) stamp "0.5".

(** Every task of the second wave answers with an image. *)
Definition allSucceed : list (WaveTask * GenOutcome) :=
  [ (AssetTask Billboard, imageReply "AA" "1");
    (AssetTask Merch, imageReply "BB" "2");
    (AssetTask Poster, imageReply "CC" "3");
    (ExtraLogoTask "Abstract Icon", imageReply "DD" "4");
    (ExtraLogoTask "App Icon", imageReply "EE" "5") ].

(** Every task of the second wave answers with an image, but the logo
    variant "Abstract Icon", which the service rejects. *)
Definition abstractIconFails : list (WaveTask * GenOutcome) :=
  [ (AssetTask Billboard, imageReply "AA" "1");
    (ExtraLogoTask "Abstract Icon", GenRejected "quota exceeded");
    (AssetTask Merch, imageReply "BB" "2");
    (AssetTask Poster, imageReply "CC" "3");
    (ExtraLogoTask "App Icon", imageReply "EE" "5") ].

Definition sampleMalformed : string := "Sorry, I cannot help with that.".

Definition field (k v : string) : string := dq ++ k ++ dq ++ ":" ++ dq ++ v ++ dq.

(** A response, in a code fence, with one colour where five are required. *)
Definition oneColourResponse : string :=
  "```json" ++ nl ++ "{" ++ field "brandName" "Acme" ++ ","
  ++ field "themeDescription" "Plain" ++ ","
  ++ dq ++ "dominantColors" ++ dq ++ ":[" ++ dq ++ "#000000" ++ dq ++ "],"
  ++ field "fontStyle" "Sans" ++ "," ++ field "layoutVibe" "Grid" ++ "}" ++ nl ++ "```".

Definition oneColourStyle : JSON :=
  JObject [ ("brandName", JString "Acme"); ("themeDescription", JString "Plain");
            ("dominantColors", JArray [JString "#000000"]);
            ("fontStyle", JString "Sans"); ("layoutVibe", JString "Grid") ].

(** A session holding the demo style and one logo. *)
Definition sampleExportSession : Session :=
  mkSession
    (mkUI true complete (Some getDemoBrandStyle)
       [mkGeneratedAsset "logo-1-0.5" logo "App  Icon" "data:image/png;base64,AA"
          "App  Icon logo variant"]
       "" [] "neonflux.io")
    0 [].

(** Every task of the second wave answers with an image, but the billboard,
    whose reply carries no image. *)
Definition billboardFails : list (WaveTask * GenOutcome) :=
  [ (ExtraLogoTask "App Icon", imageReply "EE" "5");
    (AssetTask Billboard, GenReplied (Some [None]) "1" "0.5");
    (AssetTask Merch, imageReply "BB" "2");
    (ExtraLogoTask "Abstract Icon", imageReply "DD" "4");
    (AssetTask Poster, imageReply "CC" "3") ].

(** The character that opens and closes a code fence. *)
Definition backtick : ascii := "`"%char.

(** A text without a backtick. *)
Definition noBacktick (s : string) : Prop :=
  Forall (fun c => c <> backtick) (list_ascii_of_string s).

(** *** White space replaced by underscores *)

(** [out] is [cs] with each run of white space replaced by one underscore:
    a character that starts no white space is kept, and a run of white
    space, taken as long as it is, gives one underscore. *)
Inductive Underscored : list ascii -> list ascii -> Prop :=
| Underscored_end : Underscored [] []
| Underscored_keep c cs out :
    wsLen (c :: cs) = 0%nat -> Underscored cs out -> Underscored (c :: cs) (c :: out)
| Underscored_run run rest out :
    run <> [] -> allWsFrom 0 run = true -> wsLen rest = 0%nat ->
    Underscored rest out -> Underscored (run ++ rest)%list ("_"%char :: out).

(** *** The structure the prompt asks for *)

(** The fields the prompt of the analysis asks for, each with the value the
    prompt shows for it; the colours are five hex strings. *)
Definition askedFields : list (string * string) :=
  [ ("brandName", dq ++ "Name of the brand" ++ dq);
    ("themeDescription", dq ++ "A concise description of the visual theme" ++ dq);
    ("dominantColors",
     "[" ++ JsString.join ", " (map (fun n => dq ++ "#hex" ++ n ++ dq) ["1"; "2"; "3"; "4"; "5"])
     ++ "]");
    ("fontStyle", dq ++ "Description of typography" ++ dq);
    ("layoutVibe", dq ++ "Description of layout structure" ++ dq) ]%string.

Definition askedLine (f : string * string) : string :=
  ("      " ++ dq ++ fst f ++ dq ++ ": " ++ snd f)%string.

(** The end of the prompt: the one JSON object asked of the response. *)
Definition askedStructure : string :=
  ("    Return a VALID JSON object (no markdown, just raw JSON) with the following specific structure:"
  ++ nl ++ "    {" ++ nl
  ++ JsString.join ("," ++ nl) (map askedLine askedFields) ++ nl
  ++ "    }" ++ nl ++ "  ")%string.

(** *** An export of three assets *)

(** A session holding the demo style and three assets; the subtype of the
    first has two spaces. *)
Definition sampleKitSession : Session :=
  mkSession
    (mkUI true complete (Some getDemoBrandStyle)
       [ mkGeneratedAsset "logo-1-0.5" logo "App  Icon" "data:image/png;base64,AA"
           "App  Icon logo variant";
         mkGeneratedAsset "asset-Billboard-2" social "Billboard" "data:image/png;base64,BB"
           "Billboard Mockup";
         mkGeneratedAsset "asset-Poster-3" social "Poster" "data:image/png;base64,CC"
           "Poster Mockup" ]
       "" [] "neonflux.io")
    0 [].

(** Every image is fetched, with its url for a blob, but the billboard's. *)
Definition billboardOffline (url : string) : ImageFetch :=
  if String.eqb url "data:image/png;base64,BB" then ImageFailed "offline" else ImageBlob url.

(** A session whose style has a brand name with two spaces, and one logo. *)
Definition spacedKitSession : Session :=
  mkSession
    (mkUI true complete
       (Some (mkBrandStyle "Neon  Flux" "Plain" ["#000000"] "Sans" "Grid"))
       [ mkGeneratedAsset "logo-1-0.5" logo "App Icon" "data:image/png;base64,AA"
           "App Icon logo variant" ]
       "" [] "neonflux.io")
    0 [].

(* ================================================================== *)
(** ** Properties of the colour analyser *)
(* ================================================================== *)

Section ColorAnalyzer.

Import ColorUtils.


Lemma hexDigit_alphabet c :
  match hexDigit c with
  | Some d => existsb (Ascii.eqb c) hexAlphabet = true /\ (0 <=? d)%Z && (d <=? 15)%Z = true
  | None => existsb (Ascii.eqb c) hexAlphabet = false
  end.
Proof.
  destruct c as [[] [] [] [] [] [] [] []]; vm_compute; auto.
Qed.

Lemma hexDigit_None_iff c : hexDigit c = None <-> ~ isHexDigit c.
Proof.
  pose proof (hexDigit_alphabet c) as H. unfold isHexDigit.
  destruct (hexDigit c) as [d|].
  - destruct H as [H _]. apply existsb_exists in H. destruct H as (x & Hin & Heq).
    apply Ascii.eqb_eq in Heq. subst x. split; [discriminate | tauto].
  - split; [intros _ Hin | reflexivity].
    assert (existsb (Ascii.eqb c) hexAlphabet = true) as E.
    { apply existsb_exists. exists c. split; [exact Hin | apply Ascii.eqb_refl]. }
    congruence.
Qed.
Lemma hexDigit_range c d : hexDigit c = Some d -> (0 <= d <= 15)%Z.
Proof.
  intro E. pose proof (hexDigit_alphabet c) as H. rewrite E in H. destruct H as [_ H].
  apply andb_true_iff in H. lia.
Qed.

Lemma isHexDigit_not_marker c : isHexDigit c -> c <> "#"%char.
Proof.
  intros H E. subst c. vm_compute in H. intuition discriminate.
Qed.

Lemma stripMarker_other c rest : c <> "#"%char -> stripMarker (String c rest) = String c rest.
Proof.
  intro H. destruct c as [[] [] [] [] [] [] [] []]; try reflexivity. exfalso; apply H; reflexivity.
Qed.

Lemma stripMarker_cases s : s = stripMarker s \/ s = String "#" (stripMarker s).
Proof.
  destruct s as [|c rest]; [left; reflexivity|].
  destruct (Ascii.ascii_dec c "#"%char) as [-> | Hne].
  - right. reflexivity.
  - left. symmetry. apply stripMarker_other. exact Hne.
Qed.


Lemma hexDigit_isHexDigit c d : hexDigit c = Some d -> isHexDigit c.
Proof.
  intro E. destruct (hexDigit c) as [d'|] eqn:E'; [|discriminate].
  destruct (hexDigit_None_iff c) as [_ H].
  destruct (in_dec Ascii.ascii_dec c hexAlphabet) as [Hin | Hout]; [exact Hin|].
  specialize (H Hout). congruence.
Qed.

Lemma hexDigit_Some c : isHexDigit c -> exists d, hexDigit c = Some d.
Proof.
  intro H. destruct (hexDigit c) as [d|] eqn:E; [eauto|].
  apply hexDigit_None_iff in E. contradiction.
Qed.

Lemma hexToRgb_six ds :
  List.length ds = 6%nat -> Forall isHexDigit ds ->
  exists c, match list_ascii_of_string (string_of_list_ascii ds) with
            | [c1; c2; c3; c4; c5; c6] =>
              match hexDigit c1, hexDigit c2, hexDigit c3,
                    hexDigit c4, hexDigit c5, hexDigit c6 with
              | Some d1, Some d2, Some d3, Some d4, Some d5, Some d6 =>
                Some (mkRGB (parseInt16 d1 d2) (parseInt16 d3 d4) (parseInt16 d5 d6))
              | _, _, _, _, _, _ => None
              end
            | _ => None
            end = Some c.
Proof.
  intros Hlen Hall. rewrite list_ascii_of_string_of_list_ascii.
  destruct ds as [|c1 [|c2 [|c3 [|c4 [|c5 [|c6 [|]]]]]]]; try discriminate.
  repeat match goal with
  | H : Forall _ (_ :: _) |- _ => inversion H; subst; clear H
  end.
  repeat match goal with
  | H : isHexDigit ?c |- _ => apply hexDigit_Some in H; destruct H as [? ->]
  end.
  eauto.
Qed.

Lemma is_hex_color_parses s : is_hex_color s -> exists c, hexToRgb s = Some c.
Proof.
  intros (ds & Hlen & Hall & [-> | ->]); unfold hexToRgb.
  - destruct ds as [|c1 rest]; [discriminate|].
    cbn [string_of_list_ascii]. rewrite stripMarker_other.
    + apply (hexToRgb_six (c1 :: rest)); assumption.
    + apply isHexDigit_not_marker. inversion Hall; assumption.
  - cbn [stripMarker]. apply hexToRgb_six; assumption.
Qed.

Lemma hexToRgb_Some_inv s c :
  hexToRgb s = Some c ->
  exists c1 c2 c3 c4 c5 c6 d1 d2 d3 d4 d5 d6,
    list_ascii_of_string (stripMarker s) = [c1; c2; c3; c4; c5; c6] /\
    hexDigit c1 = Some d1 /\ hexDigit c2 = Some d2 /\ hexDigit c3 = Some d3 /\
    hexDigit c4 = Some d4 /\ hexDigit c5 = Some d5 /\ hexDigit c6 = Some d6 /\
    c = mkRGB (parseInt16 d1 d2) (parseInt16 d3 d4) (parseInt16 d5 d6).
Proof.
  unfold hexToRgb.
  destruct (list_ascii_of_string (stripMarker s))
    as [|c1 [|c2 [|c3 [|c4 [|c5 [|c6 [|]]]]]]]; try discriminate.
  destruct (hexDigit c1) as [d1|] eqn:E1; [|discriminate].
  destruct (hexDigit c2) as [d2|] eqn:E2; [|discriminate].
  destruct (hexDigit c3) as [d3|] eqn:E3; [|discriminate].
  destruct (hexDigit c4) as [d4|] eqn:E4; [|discriminate].
  destruct (hexDigit c5) as [d5|] eqn:E5; [|discriminate].
  destruct (hexDigit c6) as [d6|] eqn:E6; [|discriminate].
  intro H. injection H as <-.
  exists c1, c2, c3, c4, c5, c6, d1, d2, d3, d4, d5, d6. repeat split; assumption.
Qed.

Lemma parses_is_hex_color s c : hexToRgb s = Some c -> is_hex_color s.
Proof.
  intro H. apply hexToRgb_Some_inv in H.
  destruct H as (c1 & c2 & c3 & c4 & c5 & c6 & d1 & d2 & d3 & d4 & d5 & d6 &
                 Hl & E1 & E2 & E3 & E4 & E5 & E6 & _).
  exists [c1; c2; c3; c4; c5; c6]. split; [reflexivity|]. split.
  - repeat (apply Forall_cons; [eapply hexDigit_isHexDigit; eassumption|]). apply Forall_nil.
  - assert (stripMarker s = string_of_list_ascii [c1; c2; c3; c4; c5; c6]) as Hs.
    { rewrite <- Hl. symmetry. apply string_of_list_ascii_of_string. }
    rewrite <- Hs. apply stripMarker_cases.
Qed.

Lemma hexToRgb_None_iff s : hexToRgb s = None <-> ~ is_hex_color s.
Proof.
  split.
  - intros E H. apply is_hex_color_parses in H. destruct H as [c H]. congruence.
  - intro H. destruct (hexToRgb s) as [c|] eqn:E; [|reflexivity].
    exfalso. apply H. eapply parses_is_hex_color. exact E.
Qed.

Local Open Scope R_scope.
Lemma Rpower_one y : Rpower 1 y = 1.
Proof. unfold Rpower. rewrite ln_1, Rmult_0_r. apply exp_0. Qed.

Lemma channel_bounds v : 0 <= v <= 255 -> 0 <= channel v <= 1.
Proof.
  intros [H0 H1]. unfold channel. cbv zeta.
  destruct (Rle_dec (v / 255) 0.03928) as [Hle | Hgt].
  - lra.
  - assert (0 < (v / 255 + 0.055) / 1.055 <= 1) as Hx by lra.
    split.
    + left. unfold Rpower. apply exp_pos.
    + rewrite <- (Rpower_one 2.4). apply Rle_Rpower_l; lra.
Qed.

Lemma channel_0 : channel 0 = 0.
Proof.
  unfold channel. cbv zeta. destruct (Rle_dec (0 / 255) 0.03928); lra.
Qed.

Lemma channel_255 : channel 255 = 1.
Proof.
  unfold channel. cbv zeta. destruct (Rle_dec (255 / 255) 0.03928) as [H|H].
  - lra.
  - replace ((255 / 255 + 0.055) / 1.055) with 1 by lra. apply Rpower_one.
Qed.

Lemma luminance_bounds r g b :
  0 <= r <= 255 -> 0 <= g <= 255 -> 0 <= b <= 255 -> 0 <= luminance r g b <= 1.
Proof.
  intros Hr Hg Hb. unfold luminance. cbn [map nth].
  pose proof (channel_bounds r Hr). pose proof (channel_bounds g Hg).
  pose proof (channel_bounds b Hb). lra.
Qed.

Lemma lumOf_white : lumOf white = 1.
Proof.
  unfold lumOf, white, luminance. cbn [map nth r g b]. rewrite channel_255. lra.
Qed.

Lemma lumOf_black : lumOf black = 0.
Proof.
  unfold lumOf, black, luminance. cbn [map nth r g b]. rewrite channel_0. lra.
Qed.


Lemma lumOf_bounds c : byteRange c -> 0 <= lumOf c <= 1.
Proof.
  intros (Hr & Hg & Hb). unfold lumOf.
  apply luminance_bounds; split; try (apply IZR_le; lia).
Qed.

Lemma contrast_white c :
  byteRange c -> calculateContrast c white = 1.05 / (lumOf c + 0.05).
Proof.
  intro H. apply lumOf_bounds in H. unfold calculateContrast. cbv zeta.
  rewrite lumOf_white. rewrite Rmax_right, Rmin_left by lra. f_equal. lra.
Qed.

Lemma contrast_black c :
  byteRange c -> calculateContrast c black = (lumOf c + 0.05) / 0.05.
Proof.
  intro H. apply lumOf_bounds in H. unfold calculateContrast. cbv zeta.
  rewrite lumOf_black. rewrite Rmax_left, Rmin_right by lra. f_equal. lra.
Qed.

Lemma contrast_white_bounds c : byteRange c -> 1 <= calculateContrast c white <= 21.
Proof.
  intro H. rewrite contrast_white by exact H. apply lumOf_bounds in H.
  assert (0 < lumOf c + 0.05) as Hp by lra.
  split.
  - apply Rmult_le_reg_r with (lumOf c + 0.05); [exact Hp|].
    unfold Rdiv. rewrite Rmult_assoc, Rinv_l by lra. lra.
  - apply Rmult_le_reg_r with (lumOf c + 0.05); [exact Hp|].
    unfold Rdiv. rewrite Rmult_assoc, Rinv_l by lra. lra.
Qed.

Lemma contrast_black_bounds c : byteRange c -> 1 <= calculateContrast c black <= 21.
Proof.
  intro H. rewrite contrast_black by exact H. apply lumOf_bounds in H. lra.
Qed.

Lemma contrast_product c :
  byteRange c -> calculateContrast c white * calculateContrast c black = 21.
Proof.
  intro H. rewrite contrast_white, contrast_black by exact H.
  apply lumOf_bounds in H. set (t := lumOf c + 0.05). assert (0 < t) by (unfold t; lra).
  unfold Rdiv. replace (1.05 * / t * (t * / 0.05)) with (1.05 * / 0.05 * (/ t * t)) by ring.
  rewrite Rinv_l by lra. lra.
Qed.

Lemma toFixed2_small x :
  0 <= x < 1e21 -> toFixed2 x = IZR (Zfloor (x * 100 + / 2)) / 100.
Proof.
  intros [H0 H1]. unfold toFixed2. cbv zeta. rewrite (Rabs_pos_eq x H0).
  destruct (Rle_dec 1e21 x); [lra|]. destruct (Rlt_dec x 0); [lra | reflexivity].
Qed.

Lemma toFixed2_near x :
  0 <= x < 1e21 -> - 0.005 < toFixed2 x - x <= 0.005.
Proof.
  intro H. rewrite toFixed2_small by exact H.
  pose proof (Zfloor_bound (x * 100 + / 2)). lra.
Qed.

Lemma toFixed2_ge x (k : Z) :
  0 <= x < 1e21 -> IZR k / 100 <= x -> IZR k / 100 <= toFixed2 x.
Proof.
  intros H Hk. rewrite toFixed2_small by exact H.
  assert (k <= Zfloor (x * 100 + / 2))%Z as Hz by (apply Zfloor_lub; lra).
  apply IZR_le in Hz. lra.
Qed.

Lemma toFixed2_le x (k : Z) :
  0 <= x < 1e21 -> x <= IZR k / 100 -> toFixed2 x <= IZR k / 100.
Proof.
  intros H Hk. rewrite toFixed2_small by exact H.
  pose proof (Zfloor_bound (x * 100 + / 2)) as [Hb _].
  assert (Zfloor (x * 100 + / 2) < k + 1)%Z as Hz.
  { apply lt_IZR. rewrite plus_IZR. lra. }
  assert (Zfloor (x * 100 + / 2) <= k)%Z as Hz' by lia.
  apply IZR_le in Hz'. lra.
Qed.

Lemma hexToRgb_byteRange s c : hexToRgb s = Some c -> byteRange c.
Proof.
  intro H. apply hexToRgb_Some_inv in H.
  destruct H as (c1 & c2 & c3 & c4 & c5 & c6 & d1 & d2 & d3 & d4 & d5 & d6 &
                 _ & E1 & E2 & E3 & E4 & E5 & E6 & ->).
  apply hexDigit_range in E1, E2, E3, E4, E5, E6.
  unfold byteRange, parseInt16. cbn [r g b]. lia.
Qed.


Lemma toFixed2_rounded2 x : 0 <= x < 1e21 -> rounded2 x (toFixed2 x).
Proof.
  intro H. split; [|apply toFixed2_near; exact H].
  rewrite toFixed2_small by exact H. eauto.
Qed.

Lemma analyzeColor_Some s c :
  hexToRgb s = Some c ->
  analyzeColor s =
    let cw := toFixed2 (calculateContrast c white) in
    let cb := toFixed2 (calculateContrast c black) in
    mkColorMetrics s cw cb
      (if geb cw 7 || geb cb 7 then "AAA"
       else if geb cw 4.5 || geb cb 4.5 then "AA" else "Fail")%string.
Proof.
  intro E. unfold analyzeColor. rewrite E. cbv zeta.
  destruct (geb _ 7 || geb _ 7)%bool; reflexivity.
Qed.

Lemma geb_true x y : geb x y = true <-> x >= y.
Proof. unfold geb. destruct (Rge_dec x y); split; auto; discriminate. Qed.

Lemma orb_geb x y t : (geb x t || geb y t)%bool = true <-> (x >= t \/ y >= t).
Proof. rewrite orb_true_iff, !geb_true. tauto. Qed.

Lemma contrast_small c bg :
  1 <= calculateContrast c bg <= 21 -> 0 <= calculateContrast c bg < 1e21.
Proof. lra. Qed.

(** C6.  [analyzeColor] is total: for every string it returns metrics whose
    [hex] is the input and whose two contrasts lie in [0, 21]; and for every
    input that is not a colour of six hex digits, in either case, with or
    without the leading [#], it returns the input with both contrasts [0]
    and the accessibility [Invalid]. *)
Theorem analyzeColor_total_bounded_invalid (s : string) :
  hex (analyzeColor s) = s /\
  0 <= contrastWhite (analyzeColor s) <= 21 /\
  0 <= contrastBlack (analyzeColor s) <= 21 /\
  (~ is_hex_color s -> analyzeColor s = mkColorMetrics s 0 0 "Invalid").
Proof.
  destruct (hexToRgb s) as [c|] eqn:E.
  - rewrite (analyzeColor_Some s c E). cbv zeta. cbn [hex contrastWhite contrastBlack].
    pose proof (hexToRgb_byteRange s c E) as Hc.
    pose proof (contrast_white_bounds c Hc) as Hw.
    pose proof (contrast_black_bounds c Hc) as Hb.
    split; [reflexivity|]. split; [|split].
    + split.
      * apply Rle_trans with (IZR 100 / 100); [lra|]. apply toFixed2_ge; lra.
      * apply Rle_trans with (IZR 2100 / 100); [|lra]. apply toFixed2_le; lra.
    + split.
      * apply Rle_trans with (IZR 100 / 100); [lra|]. apply toFixed2_ge; lra.
      * apply Rle_trans with (IZR 2100 / 100); [|lra]. apply toFixed2_le; lra.
    + intro H. apply hexToRgb_None_iff in H. congruence.
  - unfold analyzeColor. rewrite E. cbn [hex contrastWhite contrastBlack].
    repeat split; try lra.
Qed.

Lemma analyzeColor_invalid_witness :
  analyzeColor "not-a-color" = mkColorMetrics "not-a-color" 0 0 "Invalid".
Proof.
  apply (analyzeColor_total_bounded_invalid "not-a-color").
  apply hexToRgb_None_iff. reflexivity.
Defined.

(** C7.  For every input that reads as a colour of six hex digits,
    [contrastWhite] and [contrastBlack] are the contrasts against pure white
    and pure black rounded to two decimal places, and the accessibility is
    decided on the rounded values: [AAA] if either is at least 7, else [AA]
    if either is at least 4.5, else [Fail]. *)
Theorem analyzeColor_rounds_then_classifies (s : string) :
  is_hex_color s ->
  exists c : RGB,
    hexToRgb s = Some c /\
    let cw := contrastWhite (analyzeColor s) in
    let cb := contrastBlack (analyzeColor s) in
    let acc := accessibility (analyzeColor s) in
    rounded2 (calculateContrast c (mkRGB 255 255 255)) cw /\
    rounded2 (calculateContrast c (mkRGB 0 0 0)) cb /\
    (cw >= 7 \/ cb >= 7 -> acc = "AAA"%string) /\
    (~ (cw >= 7 \/ cb >= 7) -> cw >= 4.5 \/ cb >= 4.5 -> acc = "AA"%string) /\
    (~ (cw >= 7 \/ cb >= 7) -> ~ (cw >= 4.5 \/ cb >= 4.5) -> acc = "Fail"%string).
Proof.
  intro H. destruct (is_hex_color_parses s H) as [c E]. exists c. split; [exact E|].
  rewrite (analyzeColor_Some s c E). cbv zeta. cbn [contrastWhite contrastBlack accessibility].
  pose proof (hexToRgb_byteRange s c E) as Hc.
  pose proof (contrast_white_bounds c Hc) as Hw.
  pose proof (contrast_black_bounds c Hc) as Hb.
  fold white black.
  set (cw := toFixed2 (calculateContrast c white)).
  set (cb := toFixed2 (calculateContrast c black)).
  split; [apply toFixed2_rounded2; lra|]. split; [apply toFixed2_rounded2; lra|].
  destruct (geb cw 7 || geb cb 7)%bool eqn:E7;
  destruct (geb cw 4.5 || geb cb 4.5)%bool eqn:E45.
  all: repeat split; intros; try reflexivity.
  all: try (apply orb_geb in E7; contradiction).
  all: try (apply orb_geb in E45; contradiction).
  all: try (match goal with Hx : _ >= 7 \/ _ >= 7 |- _ => apply orb_geb in Hx; congruence end).
  all: try (match goal with Hx : _ >= 4.5 \/ _ >= 4.5 |- _ => apply orb_geb in Hx; congruence end).
Qed.


Lemma analyzeColor_rounds_then_classifies_witness :
  exists c : RGB, hexToRgb "#3366cC" = Some c /\
    rounded2 (calculateContrast c (mkRGB 255 255 255)) (contrastWhite (analyzeColor "#3366cC")).
Proof.
  destruct (analyzeColor_rounds_then_classifies "#3366cC") as (c & E & Hw & _).
  - exists (list_ascii_of_string "3366cC"). split; [reflexivity|].
    split; [|right; reflexivity].
    repeat (apply Forall_cons; [vm_compute; tauto|]). apply Forall_nil.
  - exists c. split; [exact E | exact Hw].
Defined.

Lemma sqrt21_le_max x y : 0 <= x -> 0 <= y -> x * y = 21 -> sqrt 21 <= Rmax x y.
Proof.
  intros Hx Hy Hxy.
  assert (0 <= Rmax x y) as Hm by (apply Rle_trans with x; [exact Hx | apply Rmax_l]).
  rewrite <- (sqrt_square (Rmax x y)) by exact Hm.
  apply sqrt_le_1_alt. rewrite <- Hxy.
  apply Rmult_le_compat; try assumption; [apply Rmax_l | apply Rmax_r].
Qed.

Lemma one_side_large x y : 0 <= x -> 0 <= y -> x * y = 21 -> 4.58 <= x \/ 4.58 <= y.
Proof.
  intros Hx Hy Hxy. destruct (Rle_dec 4.58 x) as [H|H]; [left; exact H|].
  destruct (Rle_dec 4.58 y) as [H'|H']; [right; exact H'|]. exfalso.
  assert (x * y <= 4.58 * 4.58) by (apply Rmult_le_compat; lra). lra.
Qed.

(** C9.  For every input that reads as a colour of six hex digits, the
    product of the two unrounded contrasts is exactly 21, the larger one is
    at least the square root of 21, and the accessibility is never [Fail]:
    it is [AA] or [AAA]. *)
Theorem analyzeColor_never_Fail (s : string) :
  is_hex_color s ->
  exists c : RGB,
    hexToRgb s = Some c /\
    calculateContrast c white * calculateContrast c black = 21 /\
    sqrt 21 <= Rmax (calculateContrast c white) (calculateContrast c black) /\
    accessibility (analyzeColor s) <> "Fail"%string /\
    (accessibility (analyzeColor s) = "AA"%string \/
     accessibility (analyzeColor s) = "AAA"%string).
Proof.
  intro H. destruct (is_hex_color_parses s H) as [c E]. exists c. split; [exact E|].
  pose proof (hexToRgb_byteRange s c E) as Hc.
  pose proof (contrast_white_bounds c Hc) as Hw.
  pose proof (contrast_black_bounds c Hc) as Hb.
  pose proof (contrast_product c Hc) as Hp.
  split; [exact Hp|]. split; [apply sqrt21_le_max; lra|].
  rewrite (analyzeColor_Some s c E). cbv zeta. cbn [accessibility].
  set (cw := toFixed2 (calculateContrast c white)).
  set (cb := toFixed2 (calculateContrast c black)).
  assert ((geb cw 4.5 || geb cb 4.5)%bool = true) as E45.
  { apply orb_geb.
    destruct (one_side_large _ _ (proj1 (contrast_small _ _ Hw))
                (proj1 (contrast_small _ _ Hb)) Hp) as [L|L]; [left|right];
      apply Rle_ge; apply Rle_trans with (IZR 458 / 100); try lra;
      apply toFixed2_ge; lra. }
  rewrite E45. destruct (geb cw 7 || geb cb 7)%bool; split; try discriminate; auto.
Qed.

Lemma analyzeColor_never_Fail_witness :
  accessibility (analyzeColor "808080") <> "Fail"%string.
Proof.
  destruct (analyzeColor_never_Fail "808080") as (c & _ & _ & _ & Hnf & _).
  - exists (list_ascii_of_string "808080"). split; [reflexivity|].
    split; [|left; reflexivity].
    repeat (apply Forall_cons; [vm_compute; tauto|]). apply Forall_nil.
  - exact Hnf.
Defined.

End ColorAnalyzer.

Section ColorAnalyzerMore.

Import ColorUtils ColorPalette.
Local Open Scope R_scope.

(** X1.  [hexToRgb] returns a colour exactly for the texts made of an optional
    [#] and six hex digits, in either case, and nothing else; each channel of
    the colour it returns is an integer from 0 to 255. *)
Theorem hexToRgb_reads_exactly_hex_colours (s : string) :
  (is_hex_color s <-> exists c, hexToRgb s = Some c) /\
  (forall c, hexToRgb s = Some c -> byteRange c).
Proof.
  split; [split|].
  - apply is_hex_color_parses.
  - intros [c H]. eapply parses_is_hex_color. exact H.
  - apply hexToRgb_byteRange.
Qed.

(** X2.  For colours whose channels lie in 0..255, [calculateContrast] is
    symmetric in its arguments, lies between 1 and 21, and is 1 for a colour
    against itself. *)
Theorem calculateContrast_symmetric_bounded (c1 c2 : RGB) :
  byteRange c1 -> byteRange c2 ->
  calculateContrast c1 c2 = calculateContrast c2 c1 /\
  1 <= calculateContrast c1 c2 <= 21 /\
  calculateContrast c1 c1 = 1.
Proof.
  intros H1 H2. apply lumOf_bounds in H1, H2. unfold calculateContrast. cbv zeta.
  split; [|split].
  - rewrite (Rmax_comm (lumOf c1)), (Rmin_comm (lumOf c1)). reflexivity.
  - assert (0 <= Rmin (lumOf c1) (lumOf c2)) as Hmin0 by (apply Rmin_glb; lra).
    assert (Rmin (lumOf c1) (lumOf c2) <= Rmax (lumOf c1) (lumOf c2)) as Hle.
    { apply Rle_trans with (lumOf c1); [apply Rmin_l | apply Rmax_l]. }
    assert (Rmax (lumOf c1) (lumOf c2) <= 1) as Hmax1 by (apply Rmax_lub; lra).
    set (lo := Rmin (lumOf c1) (lumOf c2)) in *.
    set (hi := Rmax (lumOf c1) (lumOf c2)) in *.
    assert (0 < lo + 0.05) as Hp by lra.
    split.
    + apply Rmult_le_reg_r with (lo + 0.05); [exact Hp|].
      unfold Rdiv. rewrite Rmult_assoc, Rinv_l by lra. lra.
    + apply Rmult_le_reg_r with (lo + 0.05); [exact Hp|].
      unfold Rdiv. rewrite Rmult_assoc, Rinv_l by lra. lra.
  - unfold Rmax, Rmin. destruct (Rle_dec (lumOf c1) (lumOf c1)); [|lra].
    unfold Rdiv. apply Rinv_r. lra.
Qed.

Lemma calculateContrast_symmetric_bounded_witness :
  1 <= calculateContrast white black <= 21.
Proof.
  apply (calculateContrast_symmetric_bounded white black);
    unfold byteRange; cbn; lia.
Defined.

Lemma Zfloor_half (n : Z) : Zfloor (IZR n / 100 * 100 + / 2) = n.
Proof. apply Zfloor_eq. lra. Qed.

Lemma toFixed2_nonneg_nat x : 0 <= x -> (0 <= Zfloor (x * 100 + / 2))%Z.
Proof. intro H. apply Zfloor_lub. lra. Qed.

Lemma toFixed2_hundredth (n : Z) :
  (0 <= n)%Z -> toFixed2 (IZR n / 100) = IZR n / 100.
Proof.
  intro Hn. apply IZR_le in Hn. unfold toFixed2. cbv zeta.
  rewrite (Rabs_pos_eq (IZR n / 100)) by lra.
  destruct (Rle_dec 1e21 (IZR n / 100)); [reflexivity|].
  rewrite Zfloor_half. destruct (Rlt_dec (IZR n / 100) 0); [lra | reflexivity].
Qed.

Lemma toFixed2_neg_hundredth (n : Z) :
  (0 <= n)%Z -> toFixed2 (- (IZR n / 100)) = - (IZR n / 100).
Proof.
  intro Hn. apply IZR_le in Hn. unfold toFixed2. cbv zeta.
  rewrite Rabs_Ropp, (Rabs_pos_eq (IZR n / 100)) by lra.
  destruct (Rle_dec 1e21 (IZR n / 100)); [reflexivity|].
  rewrite Zfloor_half. destruct (Rlt_dec (- (IZR n / 100)) 0); [reflexivity | lra].
Qed.

Lemma toFixed2_value x :
  toFixed2 x = x \/
  exists n : Z, (0 <= n)%Z /\ (toFixed2 x = IZR n / 100 \/ toFixed2 x = - (IZR n / 100)).
Proof.
  unfold toFixed2. cbv zeta.
  destruct (Rle_dec 1e21 (Rabs x)); [left; reflexivity|]. right.
  exists (Zfloor (Rabs x * 100 + / 2)). split.
  - apply toFixed2_nonneg_nat, Rabs_pos.
  - destruct (Rlt_dec x 0); [right | left]; reflexivity.
Qed.

(** X3.  Rounding to two decimals, [parseFloat(x.toFixed(2))] read over the
    reals, is idempotent; for an input below 1e21 in absolute value the result
    is a whole number of hundredths, at most 0.005 away from the input. *)
Theorem toFixed2_idempotent_and_near (x : R) :
  toFixed2 (toFixed2 x) = toFixed2 x /\
  (Rabs x < 1e21 ->
   (exists n : Z, toFixed2 x = IZR n / 100) /\ Rabs (toFixed2 x - x) <= 0.005).
Proof.
  split.
  - destruct (toFixed2_value x) as [H | (n & Hn & [H | H])]; rewrite H.
    + exact H.
    + apply toFixed2_hundredth. exact Hn.
    + apply toFixed2_neg_hundredth. exact Hn.
  - intro Hsmall. unfold toFixed2. cbv zeta.
    destruct (Rle_dec 1e21 (Rabs x)); [lra|].
    pose proof (Zfloor_bound (Rabs x * 100 + / 2)) as Hb.
    set (m := Zfloor (Rabs x * 100 + / 2)) in *.
    destruct (Rlt_dec x 0) as [Hneg | Hpos].
    + rewrite (Rabs_left x Hneg) in Hb. split.
      * exists (- m)%Z. rewrite opp_IZR. lra.
      * apply Rabs_le. lra.
    + rewrite (Rabs_pos_eq x) in Hb by lra. split.
      * exists m. reflexivity.
      * apply Rabs_le. lra.
Qed.

Lemma toFixed2_idempotent_and_near_witness :
  exists n : Z, toFixed2 (/ 3) = IZR n / 100.
Proof.
  destruct (toFixed2_idempotent_and_near (/ 3)) as [_ H].
  apply H. rewrite Rabs_pos_eq; lra.
Defined.

Lemma toFixed2_ge_iff x (k : Z) :
  0 <= x < 1e21 -> (toFixed2 x >= IZR k / 100 <-> x >= IZR k / 100 - 0.005).
Proof.
  intro H. rewrite toFixed2_small by exact H.
  pose proof (Zfloor_bound (x * 100 + / 2)) as Hb.
  split; intro Hge.
  - assert (IZR k <= IZR (Zfloor (x * 100 + / 2))) as Hk by lra. lra.
  - assert (k <= Zfloor (x * 100 + / 2))%Z as Hz by (apply Zfloor_lub; lra).
    apply IZR_le in Hz. lra.
Qed.

(** X4.  For a text that reads as a colour, [analyzeColor] answers [AAA]
    exactly when the unrounded contrast against white or against black is at
    least 6.995, the threshold of 7 moved by the rounding, and [AA] exactly
    when both are below 6.995. *)
Theorem analyzeColor_AAA_threshold (s : string) (c : RGB) :
  hexToRgb s = Some c ->
  (accessibility (analyzeColor s) = "AAA"%string <->
   calculateContrast c white >= 6.995 \/ calculateContrast c black >= 6.995) /\
  (accessibility (analyzeColor s) = "AA"%string <->
   calculateContrast c white < 6.995 /\ calculateContrast c black < 6.995).
Proof.
  intro E. rewrite (analyzeColor_Some s c E). cbv zeta. cbn [accessibility].
  pose proof (hexToRgb_byteRange s c E) as Hc.
  pose proof (contrast_white_bounds c Hc) as Hw.
  pose proof (contrast_black_bounds c Hc) as Hb.
  pose proof (contrast_product c Hc) as Hp.
  assert (forall bg, 1 <= calculateContrast c bg <= 21 ->
            (geb (toFixed2 (calculateContrast c bg)) 7 = true <->
             calculateContrast c bg >= 6.995)) as H7.
  { intros bg Hbg. rewrite geb_true.
    replace 7 with (IZR 700 / 100) by lra.
    rewrite toFixed2_ge_iff by lra. split; intro; lra. }
  assert ((geb (toFixed2 (calculateContrast c white)) 4.5
           || geb (toFixed2 (calculateContrast c black)) 4.5)%bool = true) as E45.
  { apply orb_geb.
    destruct (one_side_large _ _ (proj1 (contrast_small _ _ Hw))
                (proj1 (contrast_small _ _ Hb)) Hp) as [L|L]; [left|right];
      apply Rle_ge; apply Rle_trans with (IZR 458 / 100); try lra;
      apply toFixed2_ge; lra. }
  rewrite E45.
  destruct (geb (toFixed2 (calculateContrast c white)) 7) eqn:Ew;
  destruct (geb (toFixed2 (calculateContrast c black)) 7) eqn:Eb; cbn [orb].
  all: try (apply (H7 white Hw) in Ew).
  all: try (apply (H7 black Hb) in Eb).
  all: try (assert (~ calculateContrast c white >= 6.995) as Nw
              by (intro Hx; apply (H7 white Hw) in Hx; congruence)).
  all: try (assert (~ calculateContrast c black >= 6.995) as Nb
              by (intro Hx; apply (H7 black Hb) in Hx; congruence)).
  all: split; split; intro Hx; try reflexivity; try discriminate; try tauto; try lra.
Qed.

Lemma analyzeColor_AAA_threshold_witness :
  accessibility (analyzeColor "#000000") = "AAA"%string <->
  calculateContrast black white >= 6.995 \/ calculateContrast black black >= 6.995.
Proof.
  apply (analyzeColor_AAA_threshold "#000000" black). reflexivity.
Defined.

(** X5.  The palette never shows the red badge: [analyzeColor] answers
    [Invalid] exactly for the texts that are no hex colour and never [Fail],
    so the class of the badge is always the green one; the contrast shown is
    between 4.58 and 21 for a hex colour and 0 for any other text. *)
Theorem badge_is_never_red (s : string) :
  (accessibility (analyzeColor s) = "Invalid"%string <-> ~ is_hex_color s) /\
  accessibility (analyzeColor s) <> "Fail"%string /\
  badgeClass (analyzeColor s) = "bg-emerald-500 text-white"%string /\
  (is_hex_color s -> 4.58 <= shownContrast (analyzeColor s) <= 21) /\
  (~ is_hex_color s -> shownContrast (analyzeColor s) = 0).
Proof.
  assert (accessibility (analyzeColor s) <> "Fail"%string /\
          (accessibility (analyzeColor s) = "Invalid"%string <-> ~ is_hex_color s)) as [Hnf Hinv].
  { destruct (hexToRgb s) as [c|] eqn:E.
    - pose proof (parses_is_hex_color s c E) as Hs.
      destruct (analyzeColor_never_Fail s Hs) as (c' & _ & _ & _ & Hnf & Hor).
      split; [exact Hnf|]. split.
      + intro Hi. destruct Hor as [Hor | Hor]; rewrite Hor in Hi; discriminate.
      + intro Hn. contradiction.
    - unfold analyzeColor. rewrite E. cbn [accessibility]. split; [discriminate|].
      split; [intros _; apply hexToRgb_None_iff; exact E | reflexivity]. }
  split; [exact Hinv|]. split; [exact Hnf|]. split; [|split].
  - unfold badgeClass. destruct (String.eqb (accessibility (analyzeColor s)) "Fail") eqn:E;
      [|reflexivity]. apply String.eqb_eq in E. contradiction.
  - intro Hs. destruct (is_hex_color_parses s Hs) as [c E].
    pose proof (hexToRgb_byteRange s c E) as Hc.
    pose proof (contrast_white_bounds c Hc) as Hw.
    pose proof (contrast_black_bounds c Hc) as Hb.
    pose proof (contrast_product c Hc) as Hp.
    rewrite (analyzeColor_Some s c E). cbv zeta. unfold shownContrast.
    cbn [contrastWhite contrastBlack].
    split.
    + destruct (one_side_large _ _ (proj1 (contrast_small _ _ Hw))
                  (proj1 (contrast_small _ _ Hb)) Hp) as [L|L].
      * apply Rle_trans with (toFixed2 (calculateContrast c white)); [|apply Rmax_r].
        apply Rle_trans with (IZR 458 / 100); [lra | apply toFixed2_ge; lra].
      * apply Rle_trans with (toFixed2 (calculateContrast c black)); [|apply Rmax_l].
        apply Rle_trans with (IZR 458 / 100); [lra | apply toFixed2_ge; lra].
    + apply Rmax_lub; (apply Rle_trans with (IZR 2100 / 100); [apply toFixed2_le; lra | lra]).
  - intro Hn. apply hexToRgb_None_iff in Hn. unfold analyzeColor. rewrite Hn.
    unfold shownContrast. cbn [contrastWhite contrastBlack]. apply Rmax_left. lra.
Qed.

End ColorAnalyzerMore.

(* ================================================================== *)
(** ** Properties of the style extractor *)
(* ================================================================== *)


Lemma perform_ui_state clock s e : state (ui (perform clock s e)) = state (ui s).
Proof. destruct e; reflexivity. Qed.

Lemma fold_perform_state clock effects : forall s,
  state (ui (fold_left (perform clock) effects s)) = state (ui s).
Proof.
  induction effects as [|e rest IH]; intro s; [reflexivity|].
  cbn [fold_left]. rewrite IH. apply perform_ui_state.
Qed.


Lemma capture_fails_null url shot :
  CaptureFails shot -> snd (fetchScreenshotBase64 url shot) = None.
Proof.
  intro H. destruct H as [m | m | status body Hs | status mime reader Hm];
    unfold fetchScreenshotBase64; cbv zeta; try reflexivity.
  - rewrite Hs. reflexivity.
  - destruct ((200 <=? status) && (status <=? 299))%N; [|reflexivity].
    cbn [negb]. rewrite Hm. reflexivity.
Qed.


Lemma analysisRequests_app a b :
  analysisRequests (a ++ b) = analysisRequests a ++ analysisRequests b.
Proof. unfold analysisRequests. apply flat_map_app. Qed.

Lemma screenshot_sends_no_request url shot :
  analysisRequests (fst (fetchScreenshotBase64 url shot)) = [].
Proof.
  unfold fetchScreenshotBase64. cbv zeta.
  destruct shot as [m | m | status body]; try reflexivity.
  destruct (negb _); [reflexivity|].
  destruct body as [m | mime reader]; [reflexivity|].
  destruct (negb _); [reflexivity|].
  destruct reader as [|res]; [reflexivity|].
  destruct (negb _); reflexivity.
Qed.

Lemma analyze_effects_shape apiKey k url shot race :
  getClient apiKey = Ok k ->
  exists tail,
    fst (analyzeBrandFromUrl apiKey url shot race) =
      Log "Step 1: Fetching visual context..."
      :: fst (fetchScreenshotBase64 url shot)
      ++ [ Log (if hasImage (snd (fetchScreenshotBase64 url shot))
                then "Visual context acquired. Attaching image to prompt."
                else "No visual context available. Proceeding with text/search analysis.");
           Log "Step 2: Sending request to Gemini 3 Pro...";
           GenerateContent
             (mkRequest "gemini-3-pro-preview"
                (inputParts url (snd (fetchScreenshotBase64 url shot))) true None);
           SetTimeout 40000 ] ++ tail /\
    analysisRequests tail = [] /\
    (forall late, race = TimerFirst late ->
       tail = [Log "Critical Error: Gemini API timed out after 40s"]).
Proof.
  intro Hk. unfold analyzeBrandFromUrl. rewrite Hk.
  destruct (fetchScreenshotBase64 url shot) as [fx sb] eqn:Es. cbn [fst snd].
  unfold andThen. cbn [fst snd].
  match goal with
  | |- exists tail, (?pre ++ fst ?X) = _ /\ _ => exists (fst X)
  end.
  split; [|split].
  - cbn [app]. rewrite <- app_assoc. reflexivity.
  - destruct race as [[[text|] | m] | late]; cbn; try reflexivity.
    destruct (negb (truthy text)); cbn; [reflexivity|].
    destruct (JSON_parse (stripFences text)); reflexivity.
  - intros late ->. reflexivity.
Qed.

Lemma analyze_result apiKey k url shot text :
  getClient apiKey = Ok k ->
  truthy text = true ->
  snd (analyzeBrandFromUrl apiKey url shot (CallFirst (Ok (Some text)))) =
    match JSON_parse (stripFences text) with
    | Some v => Ok v
    | None => Err "Failed to parse brand analysis results."
    end.
Proof.
  intros Hk Ht. unfold analyzeBrandFromUrl. rewrite Hk.
  destruct (fetchScreenshotBase64 url shot) as [fx sb]. cbn [andThen snd].
  rewrite Ht. cbn [negb andThen snd].
  destruct (JSON_parse (stripFences text)); reflexivity.
Qed.

Lemma analyze_timeout apiKey k url shot late :
  getClient apiKey = Ok k ->
  snd (analyzeBrandFromUrl apiKey url shot (TimerFirst late)) =
    Err "Gemini API timed out after 40s".
Proof.
  intros Hk. unfold analyzeBrandFromUrl. rewrite Hk.
  destruct (fetchScreenshotBase64 url shot) as [fx sb]. reflexivity.
Qed.

Lemma handleAnalyze_error clock apiKey url shot race primary wave s m :
  snd (analyzeBrandFromUrl apiKey url shot race) = Err m ->
  exists s', handleAnalyze clock apiKey url shot race primary wave s = Some s' /\
             state (ui s') = error m.
Proof.
  intro H. unfold handleAnalyze, handleAnalyze_extract.
  destruct (analyzeBrandFromUrl apiKey url shot race) as [fx r]. cbn [snd] in H. subst r.
  eexists. split; [reflexivity | reflexivity].
Qed.

(** C4.  When the timer of the race fires before the analysis call settles,
    [analyzeBrandFromUrl] rejects with the message of the timeout, whatever
    the call does later, and [handleAnalyze] ends in the state [error] with
    that message.  When the call fulfils with a text that is not JSON once
    the code fences are stripped, it rejects with the message of the parse
    failure, a different one.  After the request is sent the timed-out run
    only arms the 40000 ms timer and logs: the call is not aborted. *)
Theorem analysis_timeout_is_fatal_and_distinct
    clock apiKey k url shot late text primary wave s :
  getClient apiKey = Ok k ->
  truthy text = true ->
  JSON_parse (stripFences text) = None ->
  let timedOut := analyzeBrandFromUrl apiKey url shot (TimerFirst late) in
  let malformed := analyzeBrandFromUrl apiKey url shot (CallFirst (Ok (Some text))) in
  snd timedOut = Err "Gemini API timed out after 40s" /\
  snd malformed = Err "Failed to parse brand analysis results." /\
  snd timedOut <> snd malformed /\
  (exists s', handleAnalyze clock apiKey url shot (TimerFirst late) primary wave s = Some s' /\
              state (ui s') = error "Gemini API timed out after 40s") /\
  (exists s', handleAnalyze clock apiKey url shot (CallFirst (Ok (Some text))) primary wave s
                = Some s' /\
              state (ui s') = error "Failed to parse brand analysis results.") /\
  (exists before request,
     fst timedOut =
       before ++ [ GenerateContent request; SetTimeout 40000;
                   Log "Critical Error: Gemini API timed out after 40s" ] /\
     analysisRequests before = []).
Proof.
  intros Hk Ht Hp. cbv zeta.
  pose proof (analyze_timeout apiKey k url shot late Hk) as Hto.
  pose proof (analyze_result apiKey k url shot text Hk Ht) as Hmf. rewrite Hp in Hmf.
  split; [exact Hto|]. split; [exact Hmf|]. split; [rewrite Hto, Hmf; discriminate|].
  split; [apply handleAnalyze_error; exact Hto|].
  split; [apply handleAnalyze_error; exact Hmf|].
  destruct (analyze_effects_shape apiKey k url shot (TimerFirst late) Hk)
    as (tail & Hfx & _ & Htail).
  specialize (Htail late eq_refl). subst tail. rewrite Hfx.
  eexists (Log _ :: fst (fetchScreenshotBase64 url shot) ++ [Log _; Log _]), _.
    split.
    + cbn [app]. rewrite <- !app_assoc. cbn [app]. reflexivity.
    + change (analysisRequests (?x :: ?l)) with (analysisRequests [x] ++ analysisRequests l).
      rewrite analysisRequests_app, screenshot_sends_no_request. reflexivity.
Qed.


Lemma analysis_timeout_is_fatal_and_distinct_witness :
  snd (analyzeBrandFromUrl (Some "key") "stripe.com" (FetchTimedOut "aborted")
         (TimerFirst (Some (Ok (Some "{}"))))) = Err "Gemini API timed out after 40s" /\
  snd (analyzeBrandFromUrl (Some "key") "stripe.com" (FetchTimedOut "aborted")
         (CallFirst (Ok (Some sampleMalformed)))) = Err "Failed to parse brand analysis results.".
Proof.
  pose proof (analysis_timeout_is_fatal_and_distinct (fun _ => "12:00:00") (Some "key") "key"
                "stripe.com" (FetchTimedOut "aborted") (Some (Ok (Some "{}"))) sampleMalformed
                (GenRejected "") [] initialSession eq_refl eq_refl eq_refl) as H.
  cbv zeta in H. destruct H as (H1 & H2 & _). split; [exact H1 | exact H2].
Defined.

(** C5.  When the capture attempt fails (network failure, timeout, status
    outside 200..299, content type that is not an image) and the analysis
    call fulfils with a text that parses, [analyzeBrandFromUrl] fulfils with
    the parsed value; the one request it sends has the text prompt as its
    only part, no image; the fallback is logged; and [handleAnalyze] is
    still in the state [analyzing], not [error], when the extraction
    returns. *)
Theorem capture_failure_falls_back_to_text clock apiKey k url shot text v s :
  getClient apiKey = Ok k ->
  CaptureFails shot ->
  truthy text = true ->
  JSON_parse (stripFences text) = Some v ->
  let run := analyzeBrandFromUrl apiKey url shot (CallFirst (Ok (Some text))) in
  snd run = Ok v /\
  analysisRequests (fst run) =
    [mkRequest "gemini-3-pro-preview" [Text (analysisPrompt url false)] true None] /\
  (forall request part,
     In request (analysisRequests (fst run)) -> In part (parts request) ->
     isInlineData part = false) /\
  In (Log "No visual context available. Proceeding with text/search analysis.") (fst run) /\
  state (ui (fst (handleAnalyze_extract clock apiKey url shot
                    (CallFirst (Ok (Some text))) s))) = analyzing /\
  snd (handleAnalyze_extract clock apiKey url shot (CallFirst (Ok (Some text))) s) = Ok v.
Proof.
  intros Hk Hc Ht Hp. cbv zeta.
  pose proof (analyze_result apiKey k url shot text Hk Ht) as Hr. rewrite Hp in Hr.
  pose proof (capture_fails_null url shot Hc) as Hnull.
  destruct (analyze_effects_shape apiKey k url shot (CallFirst (Ok (Some text))) Hk)
    as (tail & Hfx & Htail & _).
  rewrite Hnull in Hfx. cbn [hasImage inputParts] in Hfx.
  assert (analysisRequests (fst (analyzeBrandFromUrl apiKey url shot (CallFirst (Ok (Some text)))))
          = [mkRequest "gemini-3-pro-preview" [Text (analysisPrompt url false)] true None]) as Hreq.
  { rewrite Hfx.
    change (analysisRequests (?x :: ?l)) with (analysisRequests [x] ++ analysisRequests l).
    rewrite !analysisRequests_app, screenshot_sends_no_request, Htail. reflexivity. }
  split; [exact Hr|]. split; [exact Hreq|]. split; [|split; [|split]].
  - intros request part Hin Hpart. rewrite Hreq in Hin.
    destruct Hin as [<- | []]. cbn [parts] in Hpart.
    destruct Hpart as [<- | []]. reflexivity.
  - rewrite Hfx. right. apply in_or_app. right. apply in_or_app. left. left. reflexivity.
  - unfold handleAnalyze_extract.
    destruct (analyzeBrandFromUrl apiKey url shot (CallFirst (Ok (Some text)))) as [fx r].
    cbn [fst]. rewrite fold_perform_state. reflexivity.
  - unfold handleAnalyze_extract.
    destruct (analyzeBrandFromUrl apiKey url shot (CallFirst (Ok (Some text)))) as [fx r].
    cbn [snd] in *. exact Hr.
Qed.

Lemma capture_failure_falls_back_to_text_witness :
  snd (analyzeBrandFromUrl (Some "key") "linear.app" (FetchResponded 503 (BlobFailed ""))
         (CallFirst (Ok (Some "{}")))) = Ok (JObject []).
Proof.
  apply (capture_failure_falls_back_to_text (fun _ => "12:00:00") (Some "key") "key"
           "linear.app" (FetchResponded 503 (BlobFailed "")) "{}" (JObject []) initialSession).
  - reflexivity.
  - apply capture_status. reflexivity.
  - reflexivity.
  - reflexivity.
Defined.


(** C3, the claim refuted.  A response with a single colour does not meet
    the required schema, yet [analyzeBrandFromUrl] fulfils with it, and the
    run goes on to [complete] with six assets. *)
Lemma schema_violation_is_returned :
  requiredSchema oneColourStyle = false /\
  snd (analyzeBrandFromUrl (Some "key") "acme.test" (FetchFailed "offline")
         (CallFirst (Ok (Some oneColourResponse)))) = Ok oneColourStyle /\
  exists s',
    handleAnalyze (fun _ => "12:00:00") (Some "key") "acme.test" (FetchFailed "offline")
      (CallFirst (Ok (Some oneColourResponse))) (imageReply "PP" "0") allSucceed initialSession
    = Some s' /\
    state (ui s') = complete /\ List.length (assets (ui s')) = 6%nat.
Proof.
  split; [reflexivity|]. split; [vm_compute; reflexivity|].
  eexists. split; [vm_compute; reflexivity|]. split; reflexivity.
Qed.

Lemma append_assoc (a b c : string) : ((a ++ b) ++ c = a ++ b ++ c)%string.
Proof. induction a as [|x a IH]; [reflexivity|]. cbn. rewrite IH. reflexivity. Qed.

(** The prompt ends with the structure asked of the response. *)
Lemma analysisPrompt_asks url withImage :
  exists before, analysisPrompt url withImage = (before ++ askedStructure)%string.
Proof.
  unfold analysisPrompt.
  match goal with
  | |- exists before, ((?a ++ ?b) ++ ?m ++ ?t)%string = _ =>
      exists ((a ++ b) ++ m ++
              (nl ++ "    If the website is not well-known, infer a suitable style based on the domain name and industry standards." ++ nl
               ++ "    " ++ nl))%string;
      rewrite (append_assoc (a ++ b) _ askedStructure);
      f_equal; rewrite (append_assoc m _ askedStructure); f_equal
  end.
Qed.

(** C3, as the code has it.  The required shape is only written in the
    prompt: the one request sent carries the prompt, after the capture when
    there is one, and the search tool, and the prompt ends by asking for a
    JSON object with the fields [brandName], [themeDescription],
    [dominantColors] (five hex strings), [fontStyle] and [layoutVibe].
    Nothing checks the response against it: when the analysis call fulfils
    with a non-empty text, [analyzeBrandFromUrl] fulfils with whatever value
    the text parses to, code fences stripped, and rejects with the message of
    the parse failure when it does not parse; a response without text or with
    an empty one is rejected as well. *)
Theorem extract_returns_whatever_parses apiKey k url shot text :
  getClient apiKey = Ok k ->
  truthy text = true ->
  let run := analyzeBrandFromUrl apiKey url shot (CallFirst (Ok (Some text))) in
  (forall v, JSON_parse (stripFences text) = Some v -> snd run = Ok v) /\
  (JSON_parse (stripFences text) = None ->
     snd run = Err "Failed to parse brand analysis results.") /\
  snd (analyzeBrandFromUrl apiKey url shot (CallFirst (Ok None))) = Err "Failed to analyze brand." /\
  snd (analyzeBrandFromUrl apiKey url shot (CallFirst (Ok (Some "")))) = Err "Failed to analyze brand." /\
  analysisRequests (fst run) =
    [mkRequest "gemini-3-pro-preview"
       (inputParts url (snd (fetchScreenshotBase64 url shot))) true None] /\
  (exists request prompt before,
     analysisRequests (fst run) = [request] /\
     model request = "gemini-3-pro-preview" /\
     googleSearch request = true /\
     imageConfig request = None /\
     (parts request = [Text prompt] \/
      exists data, parts request = [InlineData "image/png" data; Text prompt]) /\
     prompt = (before ++ askedStructure)%string) /\
  map fst askedFields =
    ["brandName"; "themeDescription"; "dominantColors"; "fontStyle"; "layoutVibe"].
Proof.
  intros Hk Ht. cbv zeta.
  pose proof (analyze_result apiKey k url shot text Hk Ht) as Hr.
  assert (analysisRequests
            (fst (analyzeBrandFromUrl apiKey url shot (CallFirst (Ok (Some text))))) =
          [mkRequest "gemini-3-pro-preview"
             (inputParts url (snd (fetchScreenshotBase64 url shot))) true None]) as Hreq.
  { destruct (analyze_effects_shape apiKey k url shot (CallFirst (Ok (Some text))) Hk)
      as (tail & Hfx & Htail & _).
    rewrite Hfx.
    change (analysisRequests (?x :: ?l)) with (analysisRequests [x] ++ analysisRequests l).
    rewrite !analysisRequests_app, screenshot_sends_no_request, Htail. reflexivity. }
  split; [intros v Hv; rewrite Hv in Hr; exact Hr|].
  split; [intros Hv; rewrite Hv in Hr; exact Hr|].
  split; [|split; [|split; [exact Hreq | split; [|reflexivity]]]].
  - unfold analyzeBrandFromUrl. rewrite Hk.
    destruct (fetchScreenshotBase64 url shot) as [fx sb]. reflexivity.
  - unfold analyzeBrandFromUrl. rewrite Hk.
    destruct (fetchScreenshotBase64 url shot) as [fx sb]. reflexivity.
  - rewrite Hreq.
    destruct (analysisPrompt_asks url true) as [beforeImage HI].
    destruct (analysisPrompt_asks url false) as [beforeText HT].
    unfold inputParts.
    destruct (snd (fetchScreenshotBase64 url shot)) as [data|]; [destruct (truthy data)|].
    + exists (mkRequest "gemini-3-pro-preview"
                [InlineData "image/png" data; Text (analysisPrompt url true)] true None),
             (analysisPrompt url true), beforeImage.
      repeat split; [right; exists data; reflexivity | exact HI].
    + exists (mkRequest "gemini-3-pro-preview" [Text (analysisPrompt url false)] true None),
             (analysisPrompt url false), beforeText.
      repeat split; [left; reflexivity | exact HT].
    + exists (mkRequest "gemini-3-pro-preview" [Text (analysisPrompt url false)] true None),
             (analysisPrompt url false), beforeText.
      repeat split; [left; reflexivity | exact HT].
Qed.

Lemma extract_returns_whatever_parses_witness :
  snd (analyzeBrandFromUrl (Some "key") "acme.test" (FetchFailed "offline")
         (CallFirst (Ok (Some "[1, 2]")))) = Ok (JArray [JNumber "1"; JNumber "2"]).
Proof.
  destruct (extract_returns_whatever_parses (Some "key") "key" "acme.test"
              (FetchFailed "offline") "[1, 2]" eq_refl eq_refl) as [H _].
  apply H. reflexivity.
Defined.

Lemma getClient_missing apiKey :
  apiKey = None \/ apiKey = Some "" -> getClient apiKey = Err "API Key not found".
Proof. intros [-> | ->]; reflexivity. Qed.

(** X6.  Without an API key, or with an empty one, [analyzeBrandFromUrl],
    [generateLogoVariant] and [generateBrandAsset] reject with
    [API Key not found] before any effect; [handleAnalyze] ends in the error
    state with that message, having fetched nothing and sent no request. *)
Theorem missing_key_rejects_before_any_effect
    clock apiKey url shot race style variant t outcome primary wave s :
  apiKey = None \/ apiKey = Some "" ->
  analyzeBrandFromUrl apiKey url shot race = ([], Err "API Key not found") /\
  generateLogoVariant apiKey style variant outcome = Err "API Key not found" /\
  generateBrandAsset apiKey style t outcome = Err "API Key not found" /\
  exists s',
    handleAnalyze clock apiKey url shot race primary wave s = Some s' /\
    state (ui s') = error "API Key not found" /\
    fetched (out s') = fetched (out s) /\
    analysisRequests (out s') = analysisRequests (out s).
Proof.
  intro H. apply getClient_missing in H.
  assert (analyzeBrandFromUrl apiKey url shot race = ([], Err "API Key not found")) as Ha
    by (unfold analyzeBrandFromUrl; rewrite H; reflexivity).
  split; [exact Ha|].
  split; [unfold generateLogoVariant; rewrite H; reflexivity|].
  split; [unfold generateBrandAsset; rewrite H; reflexivity|].
  unfold handleAnalyze, handleAnalyze_extract. rewrite Ha. cbn [fold_left].
  eexists. split; [reflexivity|]. split; [reflexivity|].
  cbn [analyzeCatch addLog setState setLogs setProgress setAnalyzedUrl onUI emit out ui].
  unfold fetched, analysisRequests. rewrite !flat_map_app. cbn [flat_map].
  rewrite !app_nil_r. split; reflexivity.
Qed.

Lemma missing_key_rejects_before_any_effect_witness :
  analyzeBrandFromUrl None "stripe.com" (FetchFailed "offline") (TimerFirst None)
  = ([], Err "API Key not found").
Proof.
  apply (missing_key_rejects_before_any_effect sampleClock None "stripe.com"
           (FetchFailed "offline") (TimerFirst None) getDemoBrandStyle "App Icon" Poster
           (GenRejected "") (GenRejected "") [] initialSession).
  left. reflexivity.
Defined.

(** X7.  [fetchScreenshotBase64] returns the payload [d] exactly when the
    service responded with a status from 200 to 299, the type of the blob
    starts with [image/], the reader loaded a non-empty result, and [d] is the
    text between the first and the second comma of that result. *)
Theorem screenshot_payload_iff (url : string) (shot : FetchOutcome) (d : string) :
  snd (fetchScreenshotBase64 url shot) = Some d <->
  exists status mime res,
    shot = FetchResponded status (BlobRead mime (ReaderLoaded res)) /\
    (200 <= status <= 299)%N /\
    startsWith mime "image/" = true /\
    res <> "" /\
    splitCommaSecond res = Some d.
Proof.
  unfold fetchScreenshotBase64. cbv zeta. split.
  - destruct shot as [m | m | status body]; try discriminate.
    destruct ((200 <=? status) && (status <=? 299))%N eqn:Es; cbn [negb]; [|discriminate].
    destruct body as [m | mime reader]; [discriminate|].
    destruct (startsWith mime "image/") eqn:Em; cbn [negb]; [|discriminate].
    destruct reader as [|res]; [discriminate|].
    destruct (truthy res) eqn:Et; cbn [negb snd]; [|discriminate].
    intro H. exists status, mime, res.
    apply andb_true_iff in Es. destruct Es as [E1 E2].
    apply N.leb_le in E1, E2.
    repeat split; try assumption. intros ->. discriminate.
  - intros (status & mime & res & -> & [H1 H2] & Hm & Hr & Hs).
    apply N.leb_le in H1, H2. rewrite H1, H2, Hm. cbn [andb negb].
    destruct res as [|c r]; [congruence|]. cbn [truthy negb snd]. exact Hs.
Qed.

(** X8.  Every capture starts with the same four effects: a log, the timer of
    8000 ms, a log and the fetch of the screenshot URL; it fetches exactly
    once; the fetch is aborted exactly when the timer fires first, and the
    timer is cleared exactly when the fetch responded. *)
Theorem screenshot_timer_discipline (url : string) (shot : FetchOutcome) :
  let fx := fst (fetchScreenshotBase64 url shot) in
  firstn 4 fx =
    [ Log ("Initiating screenshot capture for " ++ url ++ "...");
      SetTimeout 8000;
      Log "Sending request to screenshot service...";
      Fetch (screenshotUrlOf url) ] /\
  fetched fx = [screenshotUrlOf url] /\
  (In AbortFetch fx <-> exists m, shot = FetchTimedOut m) /\
  (In ClearTimeout fx <-> exists status body, shot = FetchResponded status body).
Proof.
  cbv zeta. unfold fetchScreenshotBase64. cbv zeta.
  destruct shot as [m | m | status body].
  - cbn. repeat split; try reflexivity.
    + intros [H | [H | [H | [H | [H | [H | []]]]]]]; discriminate.
    + intros [m' H]. discriminate.
    + intros [H | [H | [H | [H | [H | [H | []]]]]]]; discriminate.
    + intros (st & bd & H). discriminate.
  - cbn. repeat split; try reflexivity.
    + intros _. eauto.
    + intros _. tauto.
    + intros [H | [H | [H | [H | [H | [H | [H | []]]]]]]]; discriminate.
    + intros (st & bd & H). discriminate.
  - assert (forall tail : list Effect,
              ~ In AbortFetch tail -> fetched tail = [] ->
              let fx := [ Log ("Initiating screenshot capture for " ++ url ++ "...");
                          SetTimeout 8000;
                          Log "Sending request to screenshot service...";
                          Fetch (screenshotUrlOf url) ] ++ ClearTimeout :: tail in
              firstn 4 fx = firstn 4 fx /\
              fetched fx = [screenshotUrlOf url] /\
              (In AbortFetch fx <-> exists m, FetchResponded status body = FetchTimedOut m) /\
              (In ClearTimeout fx <->
               exists status' body', FetchResponded status body = FetchResponded status' body'))
      as Hshape.
    { intros tail Hno Hf. cbv zeta. split; [reflexivity|]. split; [|split].
      - unfold fetched in *. rewrite flat_map_app. cbn [flat_map app]. rewrite Hf. reflexivity.
      - split.
        + cbn. intros [H | [H | [H | [H | [H | H]]]]]; try discriminate. contradiction.
        + intros [m' H]. discriminate.
      - split; [intros _; eauto|]. intros _. cbn. tauto. }
    destruct (negb _).
    { destruct (Hshape [Log ("Screenshot service returned status: " ++ ofN status)])
        as (_ & H2 & H3 & H4); [cbn; intuition discriminate | reflexivity|].
      cbn [fst]. repeat split; try assumption; try apply H3; try apply H4. }
    destruct body as [m | mime reader].
    { destruct (Hshape (screenshotCatch m)) as (_ & H2 & H3 & H4);
        [cbn; intuition discriminate | reflexivity|].
      cbn [fst]. repeat split; try assumption; try apply H3; try apply H4. }
    destruct (negb _).
    { destruct (Hshape [Log ("Invalid content type received: " ++ mime)])
        as (_ & H2 & H3 & H4); [cbn; intuition discriminate | reflexivity|].
      cbn [fst]. repeat split; try assumption; try apply H3; try apply H4. }
    destruct reader as [|res].
    { destruct (Hshape [Log "Screenshot captured successfully. Converting to Base64...";
                        Log "Failed to read blob data."; Log "FileReader result is empty."])
        as (_ & H2 & H3 & H4); [cbn; intuition discriminate | reflexivity|].
      cbn [fst]. rewrite <- app_assoc. cbn [app] in *.
      repeat split; try assumption; try apply H3; try apply H4. }
    destruct (negb _).
    { destruct (Hshape [Log "Screenshot captured successfully. Converting to Base64...";
                        Log "FileReader result is empty."])
        as (_ & H2 & H3 & H4); [cbn; intuition discriminate | reflexivity|].
      cbn [fst]. rewrite <- app_assoc. cbn [app] in *.
      repeat split; try assumption; try apply H3; try apply H4. }
    { destruct (Hshape [Log "Screenshot captured successfully. Converting to Base64..."])
        as (_ & H2 & H3 & H4); [cbn; intuition discriminate | reflexivity|].
      cbn [fst]. repeat split; try assumption; try apply H3; try apply H4. }
Qed.

Lemma hasImage_iff sb : hasImage sb = true <-> exists d, sb = Some d /\ d <> "".
Proof.
  destruct sb as [[|c r]|]; cbn; split; try discriminate.
  - intros (d & H & Hd). injection H as <-. congruence.
  - intros _. eexists. split; [reflexivity | discriminate].
  - intros _. reflexivity.
  - intros (d & H & _). discriminate.
Qed.

(** X9.  With an API key, [analyzeBrandFromUrl] sends exactly one request, to
    [gemini-3-pro-preview] with the search tool; its parts are the capture as
    inline data followed by the prompt when a non-empty capture was obtained,
    and the prompt for text alone otherwise. *)
Theorem analysis_request_is_single_and_carries_the_capture
    apiKey k url shot race :
  getClient apiKey = Ok k ->
  exists request,
    analysisRequests (fst (analyzeBrandFromUrl apiKey url shot race)) = [request] /\
    model request = "gemini-3-pro-preview" /\ googleSearch request = true /\
    (forall d, snd (fetchScreenshotBase64 url shot) = Some d -> d <> "" ->
       parts request = [InlineData "image/png" d; Text (analysisPrompt url true)]) /\
    ((forall d, snd (fetchScreenshotBase64 url shot) = Some d -> d = "") ->
       parts request = [Text (analysisPrompt url false)]).
Proof.
  intro Hk.
  destruct (analyze_effects_shape apiKey k url shot race Hk) as (tail & Hfx & Htail & _).
  eexists. split; [|split; [|split; [|split]]].
  - rewrite Hfx.
    change (analysisRequests (?x :: ?l)) with (analysisRequests [x] ++ analysisRequests l).
    rewrite !analysisRequests_app, screenshot_sends_no_request, Htail. reflexivity.
  - reflexivity.
  - reflexivity.
  - intros d Hd Hne. cbn [parts]. rewrite Hd. unfold inputParts.
    destruct d; [congruence | reflexivity].
  - intro Hall. cbn [parts]. unfold inputParts.
    destruct (snd (fetchScreenshotBase64 url shot)) as [d|]; [|reflexivity].
    rewrite (Hall d eq_refl). reflexivity.
Qed.

Lemma analysis_request_is_single_and_carries_the_capture_witness :
  exists request,
    analysisRequests
      (fst (analyzeBrandFromUrl (Some "key") "stripe.com"
              (FetchResponded 200 (BlobRead "image/png" (ReaderLoaded "data:image/png;base64,AAAA")))
              (TimerFirst None))) = [request] /\
    model request = "gemini-3-pro-preview".
Proof.
  destruct (analysis_request_is_single_and_carries_the_capture (Some "key") "key" "stripe.com"
              (FetchResponded 200 (BlobRead "image/png" (ReaderLoaded "data:image/png;base64,AAAA")))
              (TimerFirst None) eq_refl) as (request & H1 & H2 & _).
  exists request. split; [exact H1 | exact H2].
Defined.

Lemma last_after {A : Type} (pre : list A) x l e :
  last (pre ++ x :: l) e = last (x :: l) e.
Proof.
  induction pre as [|y pre IH]; [reflexivity|].
  cbn [app]. change (last (y :: pre ++ x :: l) e) with
    (match pre ++ x :: l with [] => y | _ :: _ => last (pre ++ x :: l) e end).
  destruct (pre ++ x :: l) eqn:E; [destruct pre; discriminate | exact IH].
Qed.

(** X10.  With an API key, the last effect of [analyzeBrandFromUrl] tells its
    outcome: the log [Critical Error: m] with the message [m] it rejects
    with, or the log of the completed analysis when it fulfils. *)
Theorem extraction_outcome_is_the_last_log apiKey k url shot race :
  getClient apiKey = Ok k ->
  let run := analyzeBrandFromUrl apiKey url shot race in
  (forall m, snd run = Err m -> last (fst run) (Log "") = Log ("Critical Error: " ++ m)) /\
  (forall v, snd run = Ok v ->
     last (fst run) (Log "") = Log "Analysis complete. Style definition ready.").
Proof.
  intro Hk. cbv zeta. unfold analyzeBrandFromUrl. rewrite Hk.
  destruct (fetchScreenshotBase64 url shot) as [fx sb].
  assert (forall (A : Type) (pre : list Effect) (r : list Effect * Result A) e,
            fst r <> [] -> last (fst (andThen pre r)) e = last (fst r) e) as Hlast.
  { intros A pre r e Hne. unfold andThen. cbn [fst].
    destruct (fst r) as [|x l] eqn:E; [congruence|]. apply last_after. }
  destruct race as [[[text|] | m] | late].
  - destruct (truthy text) eqn:Et.
    + destruct (JSON_parse (stripFences text)) as [v|] eqn:Ep.
      * rewrite Hlast; cbn [andThen fst snd]; rewrite ?Et; cbn [negb andThen fst snd];
          rewrite ?Ep; cbn; try discriminate.
        split; [intros m H; discriminate|]. intros v' _. reflexivity.
      * rewrite Hlast; cbn [andThen fst snd]; rewrite ?Et; cbn [negb andThen fst snd];
          rewrite ?Ep; cbn; try discriminate.
        split; [|intros v' H; discriminate]. intros m H. injection H as <-. reflexivity.
    + rewrite Hlast; cbn [andThen fst snd]; rewrite ?Et; cbn; try discriminate.
      split; [|intros v' H; discriminate]. intros m H. injection H as <-. reflexivity.
  - rewrite Hlast; cbn; try discriminate.
    split; [|intros v' H; discriminate]. intros m H. injection H as <-. reflexivity.
  - rewrite Hlast; cbn; try discriminate.
    split; [|intros v' H; discriminate]. intros m' H. injection H as <-. reflexivity.
  - rewrite Hlast; cbn; try discriminate.
    split; [|intros v' H; discriminate]. intros m' H. injection H as <-. reflexivity.
Qed.

Lemma extraction_outcome_is_the_last_log_witness :
  last (fst (analyzeBrandFromUrl (Some "key") "stripe.com" (FetchFailed "offline")
               (CallFirst (Err "503 Service Unavailable")))) (Log "")
  = Log "Critical Error: 503 Service Unavailable".
Proof.
  apply (extraction_outcome_is_the_last_log (Some "key") "key" "stripe.com"
           (FetchFailed "offline") (CallFirst (Err "503 Service Unavailable")) eq_refl).
  reflexivity.
Defined.


Lemma firstImage_found pre d post :
  Forall noImage pre -> d <> "" ->
  firstImage (pre ++ Some d :: post) = ("data:image/png;base64," ++ d)%string.
Proof.
  intros Hpre Hd. induction Hpre as [|p rest Hp _ IH]; cbn [app firstImage].
  - destruct d; [congruence | reflexivity].
  - destruct Hp as [-> | ->]; exact IH.
Qed.

Lemma firstImage_cases l :
  (firstImage l = "" /\ Forall noImage l) \/
  exists pre d post,
    l = pre ++ Some d :: post /\ Forall noImage pre /\ d <> "" /\
    firstImage l = ("data:image/png;base64," ++ d)%string.
Proof.
  induction l as [|p rest IH]; [left; split; [reflexivity | constructor]|].
  destruct p as [[|c r]|].
  - cbn [firstImage truthy]. destruct IH as [[H1 H2] | (pre & d & post & -> & Hpre & Hd & Hf)].
    + left. split; [exact H1|]. constructor; [right; reflexivity | exact H2].
    + right. exists (Some "" :: pre), d, post. repeat split; try assumption.
      constructor; [right; reflexivity | exact Hpre].
  - right. exists [], (String c r), rest. repeat split; [constructor | discriminate].
  - cbn [firstImage]. destruct IH as [[H1 H2] | (pre & d & post & -> & Hpre & Hd & Hf)].
    + left. split; [exact H1|]. constructor; [left; reflexivity | exact H2].
    + right. exists (None :: pre), d, post. repeat split; try assumption.
      constructor; [left; reflexivity | exact Hpre].
Qed.

(** X11.  With an API key, [generateLogoVariant] and [generateBrandAsset] fulfil
    only with the first part of the response that carries non-empty inline
    data, as a PNG data URL under the id, type, subtype and label of the task;
    a response without parts or without an image rejects with the task's
    failure message, and a rejected call rejects with the call's message. *)
Theorem generated_asset_carries_the_first_image
    apiKey k style variant t outcome :
  getClient apiKey = Ok k ->
  (forall a, generateLogoVariant apiKey style variant outcome = Ok a ->
     exists pre d post now random,
       outcome = GenReplied (Some (pre ++ Some d :: post)) now random /\
       Forall noImage pre /\ d <> "" /\
       a = mkGeneratedAsset ("logo-" ++ now ++ "-" ++ random) logo variant
             ("data:image/png;base64," ++ d) (variant ++ " logo variant")) /\
  (forall a, generateBrandAsset apiKey style t outcome = Ok a ->
     exists pre d post now random,
       outcome = GenReplied (Some (pre ++ Some d :: post)) now random /\
       Forall noImage pre /\ d <> "" /\
       a = mkGeneratedAsset ("asset-" ++ typeName t ++ "-" ++ now) social (typeName t)
             ("data:image/png;base64," ++ d) (typeName t ++ " Mockup")) /\
  (forall now random,
     (outcome = GenReplied None now random \/
      exists l, outcome = GenReplied (Some l) now random /\ Forall noImage l) ->
     generateLogoVariant apiKey style variant outcome = Err "Failed to generate logo image" /\
     generateBrandAsset apiKey style t outcome = Err ("Failed to generate " ++ typeName t)) /\
  (forall m, outcome = GenRejected m ->
     generateLogoVariant apiKey style variant outcome = Err m /\
     generateBrandAsset apiKey style t outcome = Err m).
Proof.
  intro Hk. unfold generateLogoVariant, generateBrandAsset. rewrite Hk.
  split; [|split; [|split]].
  - intros a H. destruct outcome as [m | cps now random]; [discriminate|].
    destruct cps as [l|]; [|discriminate]. cbn [imageUrlOf] in H.
    destruct (firstImage_cases l) as [[H1 _] | (pre & d & post & -> & Hpre & Hd & Hf)].
    + rewrite H1 in H. discriminate.
    + rewrite Hf in H. cbn [append truthy negb] in H. injection H as <-.
      exists pre, d, post, now, random. repeat split; assumption.
  - intros a H. destruct outcome as [m | cps now random]; [discriminate|].
    destruct cps as [l|]; [|discriminate]. cbn [imageUrlOf] in H.
    destruct (firstImage_cases l) as [[H1 _] | (pre & d & post & -> & Hpre & Hd & Hf)].
    + rewrite H1 in H. discriminate.
    + rewrite Hf in H. cbn [append truthy negb] in H. injection H as <-.
      exists pre, d, post, now, random. repeat split; assumption.
  - intros now random [-> | (l & -> & Hl)]; [split; reflexivity|].
    cbn [imageUrlOf].
    destruct (firstImage_cases l) as [[H1 _] | (pre & d & post & -> & Hpre & Hd & Hf)].
    + rewrite H1. split; reflexivity.
    + exfalso. apply Forall_app in Hl. destruct Hl as [_ Hl].
      inversion Hl as [|? ? Hd' _]; subst. destruct Hd' as [Hd' | Hd']; congruence.
  - intros m ->. split; reflexivity.
Qed.

Lemma generated_asset_carries_the_first_image_witness :
  generateLogoVariant (Some "key") getDemoBrandStyle "App Icon"
    (GenReplied (Some [None; Some ""]) "1" "0.5") = Err "Failed to generate logo image".
Proof.
  destruct (generated_asset_carries_the_first_image (Some "key") "key" getDemoBrandStyle
              "App Icon" Poster (GenReplied (Some [None; Some ""]) "1" "0.5") eq_refl)
    as (_ & _ & H & _).
  apply (H "1" "0.5"). right. exists [None; Some ""]. split; [reflexivity|].
  constructor; [left; reflexivity | constructor; [right; reflexivity | constructor]].
Defined.

(** X12.  The id of a generated logo differs from the id of every generated
    brand asset, and brand assets of different types have different ids; a
    logo has type [logo] and its variant as subtype, a brand asset has type
    [social] and its asset type as subtype. *)
Theorem asset_ids_tell_the_tasks_apart
    apiKey style variant t1 t2 o o1 o2 a a1 a2 :
  generateLogoVariant apiKey style variant o = Ok a ->
  generateBrandAsset apiKey style t1 o1 = Ok a1 ->
  generateBrandAsset apiKey style t2 o2 = Ok a2 ->
  id a <> id a1 /\ (t1 <> t2 -> id a1 <> id a2) /\
  type a = logo /\ type a1 = social /\ subtype a = variant /\ subtype a1 = typeName t1.
Proof.
  unfold generateLogoVariant, generateBrandAsset.
  destruct (getClient apiKey); [|discriminate].
  destruct o as [|c n r]; [discriminate|]. destruct (negb _); [discriminate|].
  destruct o1 as [|c1 n1 r1]; [discriminate|]. destruct (negb _); [discriminate|].
  destruct o2 as [|c2 n2 r2]; [discriminate|]. destruct (negb _); [discriminate|].
  intros H H1 H2. injection H as <-. injection H1 as <-. injection H2 as <-.
  cbn [id type subtype]. repeat split.
  - cbn. discriminate.
  - intro Hne. destruct t1, t2; cbn; try discriminate; congruence.
Qed.

Lemma asset_ids_tell_the_tasks_apart_witness :
  "logo-1-0.5" <> "asset-Poster-1".
Proof.
  refine (proj1 (asset_ids_tell_the_tasks_apart (Some "key") getDemoBrandStyle "App Icon"
            Poster Merch (imageReply "AA" "1") (imageReply "BB" "1") (imageReply "CC" "1")
            _ _ _ eq_refl eq_refl eq_refl)).
Defined.

(* ================================================================== *)
(** ** Properties of the JSON text and of the string operations *)
(* ================================================================== *)


Lemma code_inj c (k : N) : (code c =? k)%N = true -> c = ascii_of_N k.
Proof.
  intro H. apply N.eqb_eq in H. unfold code in H. rewrite <- H. symmetry.
  apply ascii_N_embedding.
Qed.

Lemma eqb_code c a : Ascii.eqb c a = (code c =? code a)%N.
Proof.
  destruct (Ascii.eqb c a) eqn:E.
  - apply Ascii.eqb_eq in E. subst. symmetry. apply N.eqb_refl.
  - symmetry. apply N.eqb_neq. intro H. unfold code in H.
    assert (c = a) as Hc.
    { rewrite <- (ascii_N_embedding c), <- (ascii_N_embedding a), H. reflexivity. }
    subst. rewrite Ascii.eqb_refl in E. discriminate.
Qed.

Lemma code_lt c : (code c < 256)%N.
Proof. unfold code. apply N_ascii_bounded. Qed.

Lemma hexVal_hexChar (k : N) : (k < 16)%N -> hexVal (hexChar k) = Some k.
Proof.
  intro H.
  assert (k = 0 \/ k = 1 \/ k = 2 \/ k = 3 \/ k = 4 \/ k = 5 \/ k = 6 \/ k = 7 \/ k = 8 \/
          k = 9 \/ k = 10 \/ k = 11 \/ k = 12 \/ k = 13 \/ k = 14 \/ k = 15)%N as Hk by lia.
  repeat (destruct Hk as [-> | Hk]; [reflexivity|]). subst. reflexivity.
Qed.

Lemma parseChars_escape_u (n : N) tail :
  (n < 32)%N ->
  parseChars ("\"%char :: "u"%char :: "0"%char :: "0"%char
              :: hexChar (n / 16) :: hexChar (n mod 16) :: tail)
  = consUnit (Esc n) (parseChars tail).
Proof.
  intro H.
  change (parseChars ("\"%char :: "u"%char :: "0"%char :: "0"%char
                      :: hexChar (n / 16) :: hexChar (n mod 16) :: tail))
    with (match hex4 "0"%char "0"%char (hexChar (n / 16)) (hexChar (n mod 16)) with
          | Some m => consUnit (Esc m) (parseChars tail)
          | None => None
          end).
  unfold hex4.
  rewrite (hexVal_hexChar (n / 16)) by (apply N.Div0.div_lt_upper_bound; lia).
  rewrite (hexVal_hexChar (n mod 16)) by (apply N.mod_lt; lia).
  change (hexVal "0"%char) with (Some 0%N). cbv iota beta.
  replace ((((0 * 16 + 0) * 16 + n / 16) * 16 + n mod 16)%N) with n; [reflexivity|].
  rewrite (N.div_mod n 16) at 1 by lia. lia.
Qed.

Lemma parseChars_plain c tail :
  (32 <= code c)%N -> code c <> 34%N -> code c <> 92%N ->
  parseChars (c :: tail) = consUnit (Raw c) (parseChars tail).
Proof.
  intros H32 H34 H92.
  change (parseChars (c :: tail)) with
    (if isChar c dq then Some ([], tail)
     else if isChar c "\" then
       match tail with
       | [] => None
       | e :: rest1 =>
           if isChar e "u" then
             match rest1 with
             | h1 :: h2 :: h3 :: h4 :: rest2 =>
                 match hex4 h1 h2 h3 h4 with
                 | Some n => consUnit (Esc n) (parseChars rest2)
                 | None => None
                 end
             | _ => None
             end
           else
             match simpleEscape e with
             | Some x => consUnit (Raw x) (parseChars rest1)
             | None => None
             end
       end
     else if (code c <? 32)%N then None
     else consUnit (Raw c) (parseChars tail)).
  unfold isChar, dq. rewrite !eqb_code.
  change (code (ascii_of_nat 34)) with 34%N. change (code "\"%char) with 92%N.
  destruct (N.eqb_spec (code c) 34); [contradiction|].
  destruct (N.eqb_spec (code c) 92); [contradiction|].
  destruct (N.ltb_spec (code c) 32); [lia | reflexivity].
Qed.

Lemma parseChars_quoteChar c tail :
  parseChars (quoteChar c ++ tail) = consUnit (unitOf c) (parseChars tail).
Proof.
  unfold quoteChar, unitOf. cbv zeta.
  destruct (code c =? 34)%N eqn:E34.
  { apply code_inj in E34. subst c. reflexivity. }
  destruct (code c =? 92)%N eqn:E92.
  { apply code_inj in E92. subst c. reflexivity. }
  destruct (code c =? 8)%N eqn:E8.
  { apply code_inj in E8. subst c. reflexivity. }
  destruct (code c =? 12)%N eqn:E12.
  { apply code_inj in E12. subst c. reflexivity. }
  destruct (code c =? 10)%N eqn:E10.
  { apply code_inj in E10. subst c. reflexivity. }
  destruct (code c =? 13)%N eqn:E13.
  { apply code_inj in E13. subst c. reflexivity. }
  destruct (code c =? 9)%N eqn:E9.
  { apply code_inj in E9. subst c. reflexivity. }
  apply N.eqb_neq in E34, E92. cbn [orb negb].
  destruct (N.ltb_spec (code c) 32) as [Hlt | Hge]; cbn [andb].
  - cbn [app]. apply parseChars_escape_u. exact Hlt.
  - cbn [app]. apply parseChars_plain; assumption.
Qed.

Lemma encodeUnits_Esc_low (n : N) us :
  (n < 128)%N -> encodeUnits (Esc n :: us) = byte n :: encodeUnits us.
Proof.
  intro H.
  assert (isHigh n = false) as Hh.
  { unfold isHigh. destruct (N.leb_spec 55296 n); [lia | reflexivity]. }
  assert (utf8 n = [byte n]) as Hu.
  { unfold utf8. destruct (N.ltb_spec n 128); [reflexivity | lia]. }
  cbn [encodeUnits]. rewrite Hh, Hu. cbn [andb].
  destruct us as [|[c | lo] rest]; reflexivity.
Qed.

Lemma encodeUnits_unitOf c us :
  encodeUnits (unitOf c :: us) = c :: encodeUnits us.
Proof.
  unfold unitOf. cbv zeta.
  destruct ((code c <? 32) && _)%N eqn:E; [|reflexivity].
  apply andb_true_iff in E. destruct E as [E _]. apply N.ltb_lt in E.
  rewrite encodeUnits_Esc_low by lia. f_equal.
  unfold byte, code. apply ascii_N_embedding.
Qed.

Lemma encodeUnits_map cs : encodeUnits (map unitOf cs) = cs.
Proof.
  induction cs as [|c rest IH]; [reflexivity|].
  cbn [map]. rewrite encodeUnits_unitOf, IH. reflexivity.
Qed.

Lemma parseChars_quoted cs rest :
  parseChars (flat_map quoteChar cs ++ list_ascii_of_string dq ++ rest)
  = Some (map unitOf cs, rest).
Proof.
  induction cs as [|c more IH].
  - reflexivity.
  - cbn [flat_map map]. rewrite <- app_assoc, parseChars_quoteChar, IH. reflexivity.
Qed.

Lemma list_of_append a b :
  list_ascii_of_string (a ++ b)%string = list_ascii_of_string a ++ list_ascii_of_string b.
Proof. induction a as [|c a IH]; [reflexivity|]. cbn. rewrite IH. reflexivity. Qed.

(** A string as [JSON.stringify] writes it reads back: the quoted text
    starts with a double quote, and reading what follows gives the string
    itself and leaves the rest of the input untouched. *)
Theorem a_quoted_string_reads_back (s : string) (rest : list ascii) :
  exists body,
    list_ascii_of_string (quote s) = list_ascii_of_string dq ++ body /\
    parseString (body ++ rest) = Some (s, rest).
Proof.
  exists (flat_map quoteChar (list_ascii_of_string s) ++ list_ascii_of_string dq).
  split.
  - unfold quote. rewrite !list_of_append, list_ascii_of_string_of_list_ascii. reflexivity.
  - unfold parseString. rewrite <- app_assoc, parseChars_quoted, encodeUnits_map.
    rewrite string_of_list_ascii_of_string. reflexivity.
Qed.



Lemma list_quote s : list_ascii_of_string (quote s) = quoted s.
Proof.
  unfold quote, quoted, body. rewrite !list_of_append, list_ascii_of_string_of_list_ascii.
  reflexivity.
Qed.

Lemma parseString_body s rest : parseString (body s ++ qc :: rest) = Some (s, rest).
Proof.
  unfold parseString, body.
  change (qc :: rest) with (list_ascii_of_string dq ++ rest).
  rewrite parseChars_quoted, encodeUnits_map, string_of_list_ascii_of_string. reflexivity.
Qed.

Lemma parseValue_quoted f s rest :
  parseValue (S f) (quoted s ++ rest) = Some (JString s, rest).
Proof.
  unfold quoted. cbn [app]. rewrite <- app_assoc. cbn [app].
  change (parseValue (S f) (qc :: body s ++ qc :: rest))
    with (match parseString (body s ++ qc :: rest) with
          | Some (s0, r) => Some (JString s0, r)
          | None => None
          end).
  rewrite parseString_body. reflexivity.
Qed.

Lemma parseValue_space f cs : parseValue f (" "%char :: cs) = parseValue f cs.
Proof. destruct f; reflexivity. Qed.

Lemma parseValue_lf f cs : parseValue f (lf :: cs) = parseValue f cs.
Proof. destruct f; reflexivity. Qed.

Lemma parseValue_eq f cs :
  parseValue (S f) cs =
  match skipWs cs with
  | [] => None
  | c :: rest =>
      if isChar c "{" then
        match skipWs rest with
        | c' :: rest' =>
            if isChar c' "}" then Some (JObject [], rest')
            else parseMembers f (skipWs rest) []
        | [] => None
        end
      else if isChar c "[" then
        match skipWs rest with
        | c' :: rest' =>
            if isChar c' "]" then Some (JArray [], rest')
            else parseElements f rest []
        | [] => None
        end
      else if isChar c dq then
        match parseString rest with
        | Some (s, r) => Some (JString s, r)
        | None => None
        end
      else if isChar c "t" then parseLiteral "true" (JBool true) (c :: rest)
      else if isChar c "f" then parseLiteral "false" (JBool false) (c :: rest)
      else if isChar c "n" then parseLiteral "null" JNull (c :: rest)
      else parseNumber (c :: rest)
  end.
Proof. reflexivity. Qed.

Lemma parseElements_eq f cs acc :
  parseElements (S f) cs acc =
  match parseValue f cs with
  | None => None
  | Some (v, r) =>
      match skipWs r with
      | c :: r' =>
          if isChar c "," then parseElements f r' (v :: acc)
          else if isChar c "]" then Some (JArray (rev (v :: acc)), r')
          else None
      | [] => None
      end
  end.
Proof. reflexivity. Qed.

Lemma parseMembers_eq f cs acc :
  parseMembers (S f) cs acc =
  match cs with
  | q :: afterQuote =>
      if isChar q dq then
        match parseString afterQuote with
        | None => None
        | Some (k, r) =>
            match skipWs r with
            | colon :: r1 =>
                if isChar colon ":" then
                  match parseValue f r1 with
                  | None => None
                  | Some (v, r2) =>
                      match skipWs r2 with
                      | c :: r3 =>
                          if isChar c "," then parseMembers f (skipWs r3) ((k, v) :: acc)
                          else if isChar c "}" then Some (JObject (rev ((k, v) :: acc)), r3)
                          else None
                      | [] => None
                      end
                  end
                else None
            | [] => None
            end
        end
      else None
  | [] => None
  end.
Proof. reflexivity. Qed.

Lemma parseElements_space f cs acc :
  parseElements f (" "%char :: cs) acc = parseElements f cs acc.
Proof. destruct f; [reflexivity|]. rewrite !parseElements_eq, parseValue_space. reflexivity. Qed.

Lemma parseElements_lf f cs acc :
  parseElements f (lf :: cs) acc = parseElements f cs acc.
Proof. destruct f; [reflexivity|]. rewrite !parseElements_eq, parseValue_lf. reflexivity. Qed.


Lemma parseElements_strings l : forall f acc rest,
  l <> [] ->
  parseElements (List.length l + S f)
    (elems l ++ lf :: " "%char :: " "%char :: "]"%char :: rest) acc
  = Some (JArray (rev acc ++ map JString l), rest).
Proof.
  induction l as [|x l IH]; intros f acc rest Hne; [congruence|].
  destruct l as [|y l'].
  - cbn [List.length Nat.add elems]. rewrite parseElements_eq, parseValue_quoted.
    cbn [rev map]. reflexivity.
  - change (List.length (x :: y :: l') + S f)%nat with (S (List.length (y :: l') + S f)).
    change (elems (x :: y :: l')) with
      (quoted x ++ ","%char :: lf :: " "%char :: " "%char :: " "%char :: " "%char
                 :: elems (y :: l')).
    rewrite <- app_assoc. cbn [app].
    rewrite parseElements_eq.
    change (List.length (y :: l') + S f)%nat with (S (List.length l' + S f)) at 1.
    rewrite parseValue_quoted.
    change (skipWs (","%char :: ?r)) with (","%char :: r).
    cbv iota. change (isChar ","%char ",") with true. cbv iota.
    rewrite parseElements_lf, !parseElements_space.
    rewrite IH by discriminate. cbn [rev map]. rewrite <- app_assoc. reflexivity.
Qed.


Lemma parseValue_array l f rest :
  parseValue (S (List.length l + S f)) (arrayText l ++ rest)
  = Some (JArray (map JString l), rest).
Proof.
  destruct l as [|x l'].
  - reflexivity.
  - unfold arrayText. cbn [app]. rewrite <- app_assoc. cbn [app].
    rewrite parseValue_eq.
    change (skipWs ("["%char :: ?r)) with ("["%char :: r). cbv iota.
    change (isChar "["%char "{") with false. change (isChar "["%char "[") with true.
    cbv iota.
    assert (forall r, skipWs (lf :: " "%char :: " "%char :: " "%char :: " "%char
                               :: elems (x :: l') ++ r)
                      = elems (x :: l') ++ r /\
                      exists r', elems (x :: l') ++ r = qc :: r') as Hsk.
    { intro r. destruct l'; cbn [elems quoted app]; split; try reflexivity; eauto. }
    destruct (Hsk (lf :: " "%char :: " "%char :: "]"%char :: rest)) as [-> [r' Hr']].
    rewrite Hr'. change (isChar qc "]") with false. cbv iota. rewrite <- Hr'.
    rewrite parseElements_lf, !parseElements_space.
    rewrite (parseElements_strings (x :: l') f [] rest) by discriminate. reflexivity.
Qed.

Lemma member_more f k vtext v next acc :
  (forall rest, parseValue f (vtext ++ rest) = Some (v, rest)) ->
  parseMembers (S f)
    (quoted k ++ ":"%char :: " "%char :: vtext
     ++ ","%char :: lf :: " "%char :: " "%char :: qc :: next) acc
  = parseMembers f (qc :: next) ((k, v) :: acc).
Proof.
  intro Hv. unfold quoted. cbn [app]. rewrite <- app_assoc. cbn [app].
  rewrite parseMembers_eq. change (isChar qc dq) with true. cbv iota.
  rewrite parseString_body.
  change (skipWs (":"%char :: ?r)) with (":"%char :: r). cbv iota.
  change (isChar ":"%char ":") with true. cbv iota.
  rewrite parseValue_space, Hv.
  reflexivity.
Qed.

Lemma member_last f k vtext v rest acc :
  (forall rest, parseValue f (vtext ++ rest) = Some (v, rest)) ->
  parseMembers (S f) (quoted k ++ ":"%char :: " "%char :: vtext ++ lf :: "}"%char :: rest) acc
  = Some (JObject (rev ((k, v) :: acc)), rest).
Proof.
  intro Hv. unfold quoted. cbn [app]. rewrite <- app_assoc. cbn [app].
  rewrite parseMembers_eq. change (isChar qc dq) with true. cbv iota.
  rewrite parseString_body.
  change (skipWs (":"%char :: ?r)) with (":"%char :: r). cbv iota.
  change (isChar ":"%char ":") with true. cbv iota.
  rewrite parseValue_space, Hv.
  reflexivity.
Qed.

Lemma fuel_step : forall f,
  (forall cs r, parseValue f cs = Some r -> parseValue (S f) cs = Some r) /\
  (forall cs acc r, parseElements f cs acc = Some r -> parseElements (S f) cs acc = Some r) /\
  (forall cs acc r, parseMembers f cs acc = Some r -> parseMembers (S f) cs acc = Some r).
Proof.
  induction f as [|f (IHv & IHe & IHm)].
  - repeat split; intros; discriminate.
  - split; [|split].
    + intros cs r. rewrite (parseValue_eq (S f)), (parseValue_eq f).
      destruct (skipWs cs) as [|c rest]; [discriminate|].
      destruct (isChar c "{").
      { destruct (skipWs rest) as [|c' rest']; [discriminate|].
        destruct (isChar c' "}"); [auto | apply IHm]. }
      destruct (isChar c "[").
      { destruct (skipWs rest) as [|c' rest']; [discriminate|].
        destruct (isChar c' "]"); [auto | apply IHe]. }
      auto.
    + intros cs acc r. rewrite (parseElements_eq (S f)), (parseElements_eq f).
      destruct (parseValue f cs) as [[v r0]|] eqn:Ev; [|discriminate].
      rewrite (IHv _ _ Ev).
      destruct (skipWs r0) as [|c r']; [discriminate|].
      destruct (isChar c ","); [apply IHe | auto].
    + intros cs acc r. rewrite (parseMembers_eq (S f)), (parseMembers_eq f).
      destruct cs as [|q afterQuote]; [discriminate|].
      destruct (isChar q dq); [|discriminate].
      destruct (parseString afterQuote) as [[k r0]|]; [|discriminate].
      destruct (skipWs r0) as [|colon r1]; [discriminate|].
      destruct (isChar colon ":"); [|discriminate].
      destruct (parseValue f r1) as [[v r2]|] eqn:Ev; [|discriminate].
      rewrite (IHv _ _ Ev).
      destruct (skipWs r2) as [|c r3]; [discriminate|].
      destruct (isChar c ","); [apply IHm | auto].
Qed.

Lemma fuel_more f d cs r : parseValue f cs = Some r -> parseValue (f + d) cs = Some r.
Proof.
  intro H. induction d as [|d IH]; [rewrite Nat.add_0_r; exact H|].
  rewrite Nat.add_succ_r. apply fuel_step. exact IH.
Qed.


Lemma elems_join l :
  list_ascii_of_string (JsString.join ("," ++ nl ++ "    ")%string (map quote l)) = elems l.
Proof.
  induction l as [|x rest IH]; [reflexivity|].
  destruct rest as [|y rest'].
  - cbn [map join elems]. apply list_quote.
  - change (map quote (x :: y :: rest')) with (quote x :: map quote (y :: rest')).
    change (JsString.join ("," ++ nl ++ "    ")%string (quote x :: map quote (y :: rest')))
      with (quote x ++ ("," ++ nl ++ "    ")
            ++ JsString.join ("," ++ nl ++ "    ") (map quote (y :: rest')))%string.
    rewrite !list_of_append, IH, list_quote. reflexivity.
Qed.

Lemma map_stringify_strings indent l :
  map (stringifyAt indent) (map JString l) = map quote l.
Proof. rewrite map_map. apply map_ext. reflexivity. Qed.

Lemma array_text l :
  list_ascii_of_string (stringifyAt "  " (JArray (map JString l))) = arrayText l.
Proof.
  destruct l as [|x rest]; [reflexivity|].
  change (stringifyAt "  " (JArray (map JString (x :: rest))))
    with ("[" ++ nl ++ "    "
          ++ JsString.join ("," ++ nl ++ "    ") (map (stringifyAt "    ") (map JString (x :: rest)))
          ++ nl ++ "  " ++ "]")%string.
  rewrite map_stringify_strings, !list_of_append, elems_join. reflexivity.
Qed.

Lemma manifest_text style generatedAt :
  list_ascii_of_string (JSON_stringify (styleGuide style generatedAt))
  = manifestText style generatedAt.
Proof.
  unfold JSON_stringify, styleGuide.
  change (stringifyAt ""
            (JObject
               [("name", JString (brandName style));
                ("theme", JString (themeDescription style));
                ("colors", JArray (map JString (dominantColors style)));
                ("fonts", JString (fontStyle style));
                ("layout", JString (layoutVibe style));
                ("generatedAt", JString generatedAt)]))
    with ("{" ++ nl ++ "  "
          ++ ((quote "name" ++ ": " ++ quote (brandName style))
          ++ ("," ++ nl ++ "  ")
          ++ (quote "theme" ++ ": " ++ quote (themeDescription style))
          ++ ("," ++ nl ++ "  ")
          ++ (quote "colors" ++ ": "
              ++ stringifyAt "  " (JArray (map JString (dominantColors style))))
          ++ ("," ++ nl ++ "  ")
          ++ (quote "fonts" ++ ": " ++ quote (fontStyle style))
          ++ ("," ++ nl ++ "  ")
          ++ (quote "layout" ++ ": " ++ quote (layoutVibe style))
          ++ ("," ++ nl ++ "  ")
          ++ (quote "generatedAt" ++ ": " ++ quote generatedAt))
          ++ nl ++ "" ++ "}")%string.
  rewrite !list_of_append, !list_quote, array_text.
  unfold manifestText. cbn [list_ascii_of_string nl app].
  do 12 (rewrite <- ?app_assoc; cbn [app]). reflexivity.
Qed.

Lemma member_next f k vtext v k' more acc :
  (forall rest, parseValue f (vtext ++ rest) = Some (v, rest)) ->
  parseMembers (S f)
    (quoted k ++ ":"%char :: " "%char :: vtext
     ++ ","%char :: lf :: " "%char :: " "%char :: quoted k' ++ more) acc
  = parseMembers f (quoted k' ++ more) ((k, v) :: acc).
Proof.
  intro Hv. unfold quoted at 2 3. cbn [app]. apply member_more. exact Hv.
Qed.

Lemma parse_manifestText style generatedAt g :
  parseValue (S (S (S (S (S (List.length (dominantColors style) + S (S (S g))))))))
    (manifestText style generatedAt)
  = Some (styleGuide style generatedAt, []).
Proof.
  unfold manifestText. rewrite parseValue_eq.
  change (skipWs ("{"%char :: ?r)) with ("{"%char :: r). cbv iota.
  change (isChar "{"%char "{") with true. cbv iota.
  change (skipWs (lf :: " "%char :: " "%char :: quoted "name" ++ ?r))
    with (quoted "name" ++ r).
  change (quoted "name" ++ ?r) with (qc :: (body "name" ++ [qc]) ++ r) at 1.
  cbv iota. change (isChar qc "}") with false. cbv iota.
  change (qc :: (body "name" ++ [qc]) ++ ?r) with (quoted "name" ++ r).
  rewrite (member_next _ "name" (quoted (brandName style)) (JString (brandName style))
             "theme" _ [] (parseValue_quoted _ (brandName style))).
  rewrite (member_next _ "theme" (quoted (themeDescription style))
             (JString (themeDescription style)) "colors" _ _
             (parseValue_quoted _ (themeDescription style))).
  rewrite (member_next _ "colors" (arrayText (dominantColors style))
             (JArray (map JString (dominantColors style))) "fonts" _ _
             (parseValue_array (dominantColors style) (S (S g)))).
  rewrite !Nat.add_succ_r.
  rewrite (member_next _ "fonts" (quoted (fontStyle style)) (JString (fontStyle style))
             "layout" _ _ (parseValue_quoted _ (fontStyle style))).
  rewrite (member_next _ "layout" (quoted (layoutVibe style)) (JString (layoutVibe style))
             "generatedAt" _ _ (parseValue_quoted _ (layoutVibe style))).
  change [lf; "}"%char] with (lf :: "}"%char :: @nil ascii).
  rewrite (member_last _ "generatedAt" (quoted generatedAt) (JString generatedAt) [] _
             (parseValue_quoted _ generatedAt)).
  reflexivity.
Qed.

Lemma manifestText_length style generatedAt :
  (List.length (dominantColors style) + 8 <= 2 * List.length (manifestText style generatedAt) + 2)%nat.
Proof.
  assert (forall l, List.length l <= List.length (elems l))%nat as He.
  { induction l as [|x rest IH]; [apply Nat.le_refl|].
    destruct rest as [|y rest']; [cbn; lia|].
    change (elems (x :: y :: rest')) with
      (quoted x ++ ","%char :: lf :: " "%char :: " "%char :: " "%char :: " "%char
                 :: elems (y :: rest')).
    rewrite length_app. cbn [List.length] in *. lia. }
  assert (forall l, List.length l <= List.length (arrayText l))%nat as Ha.
  { intro l. destruct l as [|x rest]; [cbn; lia|].
    unfold arrayText. cbn [List.length]. rewrite length_app. specialize (He (x :: rest)).
    cbn [List.length] in *. lia. }
  unfold manifestText. cbn [List.length].
  repeat (rewrite length_app; cbn [List.length]).
  specialize (Ha (dominantColors style)). lia.
Qed.

(** X25.  The manifest written into the archive reads back: parsing the text of
    [style-guide.json] gives the style guide itself, for every brand style and
    every time stamp. *)
Theorem the_manifest_reads_back (style : BrandStyle) (generatedAt : string) :
  JSON_parse (JSON_stringify (styleGuide style generatedAt))
  = Some (styleGuide style generatedAt).
Proof.
  unfold JSON_parse. rewrite manifest_text.
  pose proof (manifestText_length style generatedAt) as Hlen.
  set (n := List.length (dominantColors style)) in *.
  set (len := List.length (manifestText style generatedAt)) in *.
  replace (2 * len + 2)%nat
    with (S (S (S (S (S (n + S (S (S 0))))))) + (2 * len + 2 - (n + 8)))%nat by lia.
  rewrite (fuel_more _ _ _ _ (parse_manifestText style generatedAt 0)). reflexivity.
Qed.



Lemma wsLen_underscore rest : wsLen ("_"%char :: rest) = 0%nat.
Proof. destruct rest as [|b [|c r]]; reflexivity. Qed.

Lemma ws2_underscore a : ws2 a (code "_"%char) = false.
Proof. unfold ws2. change (code "_"%char) with 95%N. cbn. apply andb_false_r. Qed.

Lemma ws3_underscore_mid a c : ws3 a (code "_"%char) c = false.
Proof.
  unfold ws3. change (code "_"%char) with 95%N. cbn.
  rewrite !andb_false_r. reflexivity.
Qed.

Lemma ws3_underscore_last a b : ws3 a b (code "_"%char) = false.
Proof.
  unfold ws3. change (code "_"%char) with 95%N. cbn.
  rewrite !andb_false_r. reflexivity.
Qed.

Lemma wsLen_zero_inv c rest :
  wsLen (c :: rest) = 0%nat ->
  ws1 (code c) = false /\
  match rest with
  | [] => True
  | b :: rest' =>
      ws2 (code c) (code b) = false /\
      match rest' with
      | [] => True
      | d :: _ => ws3 (code c) (code b) (code d) = false
      end
  end.
Proof.
  unfold wsLen. destruct (ws1 (code c)); [discriminate|]. intro H. split; [reflexivity|].
  destruct rest as [|b rest']; [exact I|].
  destruct (ws2 (code c) (code b)); [discriminate|]. split; [reflexivity|].
  destruct rest' as [|d r]; [exact I|].
  destruct (ws3 (code c) (code b) (code d)); [discriminate | reflexivity].
Qed.

Lemma replaceWsFrom_head rest :
  rest = [] /\ replaceWsFrom false 0 rest = [] \/
  (exists tail, replaceWsFrom false 0 rest = "_"%char :: tail) \/
  (exists b rest', rest = b :: rest' /\ wsLen rest = 0%nat /\
                   replaceWsFrom false 0 rest = b :: replaceWsFrom false 0 rest').
Proof.
  destruct rest as [|b rest']; [left; split; reflexivity|]. right.
  cbn [replaceWsFrom]. destruct (wsLen (b :: rest')) eqn:E.
  - right. exists b, rest'. repeat split.
  - left. eexists. reflexivity.
Qed.

Lemma wsLen_kept c rest :
  wsLen (c :: rest) = 0%nat -> wsLen (c :: replaceWsFrom false 0 rest) = 0%nat.
Proof.
  intro H. pose proof (wsLen_zero_inv c rest H) as [H1 H2].
  destruct (replaceWsFrom_head rest) as [[-> ->] | [[tail ->] | (b & rest' & -> & Hb & ->)]].
  - unfold wsLen. rewrite H1. reflexivity.
  - unfold wsLen. rewrite H1, ws2_underscore.
    destruct tail; [reflexivity|]. rewrite ws3_underscore_mid. reflexivity.
  - destruct H2 as [H2 H3].
    destruct (replaceWsFrom_head rest') as [[-> ->] | [[tail ->] | (d & r'' & -> & Hd & ->)]].
    + unfold wsLen. rewrite H1, H2. reflexivity.
    + unfold wsLen. rewrite H1, H2, ws3_underscore_last. reflexivity.
    + unfold wsLen. rewrite H1, H2, H3. reflexivity.
Qed.

Lemma replaceWsFrom_clean cs : forall inRun skip,
  hasWs (replaceWsFrom inRun skip cs) = false.
Proof.
  induction cs as [|c rest IH]; intros inRun skip; [reflexivity|].
  cbn [replaceWsFrom]. destruct skip as [|k]; [|apply IH].
  destruct (wsLen (c :: rest)) as [|k] eqn:E.
  - cbn [hasWs]. rewrite (wsLen_kept c rest E), IH. reflexivity.
  - destruct inRun; cbn [app]; [apply IH|].
    cbn [hasWs]. rewrite wsLen_underscore, IH. reflexivity.
Qed.

Lemma replaceWsFrom_id cs : forall b,
  hasWs cs = false -> replaceWsFrom b 0 cs = cs.
Proof.
  induction cs as [|c rest IH]; intros b H; [reflexivity|].
  cbn [hasWs] in H. apply orb_false_iff in H. destruct H as [H1 H2].
  apply negb_false_iff, Nat.eqb_eq in H1.
  cbn [replaceWsFrom]. rewrite H1, IH by exact H2. reflexivity.
Qed.

(** X26.  Replacing each run of white space by an underscore leaves no white
    space in the result, is idempotent, and returns a text without white
    space as it is. *)
Theorem replaceWs_leaves_no_white_space (s : string) :
  hasWs (list_ascii_of_string (replaceWs s)) = false /\
  replaceWs (replaceWs s) = replaceWs s /\
  (hasWs (list_ascii_of_string s) = false -> replaceWs s = s).
Proof.
  unfold replaceWs. rewrite !list_ascii_of_string_of_list_ascii.
  split; [apply replaceWsFrom_clean|]. split.
  - rewrite replaceWsFrom_id by apply replaceWsFrom_clean. reflexivity.
  - intro H. rewrite replaceWsFrom_id by exact H. apply string_of_list_ascii_of_string.
Qed.

Lemma afterComma_found a b :
  Forall (fun c => c <> ","%char) a -> afterComma (a ++ ","%char :: b) = Some b.
Proof.
  induction 1 as [|c a Hc _ IH]; [reflexivity|].
  cbn [app afterComma]. destruct (Ascii.eqb c ",") eqn:E; [|exact IH].
  apply Ascii.eqb_eq in E. contradiction.
Qed.

Lemma afterComma_none a :
  Forall (fun c => c <> ","%char) a -> afterComma a = None.
Proof.
  induction 1 as [|c a Hc _ IH]; [reflexivity|].
  cbn [afterComma]. destruct (Ascii.eqb c ",") eqn:E; [|exact IH].
  apply Ascii.eqb_eq in E. contradiction.
Qed.

Lemma untilComma_stops a rest :
  Forall (fun c => c <> ","%char) a -> untilComma (a ++ ","%char :: rest) = a.
Proof.
  induction 1 as [|c a Hc _ IH]; [reflexivity|].
  cbn [app untilComma]. destruct (Ascii.eqb c ",") eqn:E; [|rewrite IH; reflexivity].
  apply Ascii.eqb_eq in E. contradiction.
Qed.

Lemma untilComma_all a :
  Forall (fun c => c <> ","%char) a -> untilComma a = a.
Proof.
  induction 1 as [|c a Hc _ IH]; [reflexivity|].
  cbn [untilComma]. destruct (Ascii.eqb c ",") eqn:E; [|rewrite IH; reflexivity].
  apply Ascii.eqb_eq in E. contradiction.
Qed.


(** X27.  [res.split(',')[1]] recovers the payload of a data URL: for a header
    and a payload without a comma it gives the payload, also when more text
    follows a second comma; a text without a comma gives nothing; the payload
    of the URL the generators build is recovered. *)
Theorem the_payload_of_a_data_url_is_recovered :
  (forall a b, noComma a -> noComma b -> splitCommaSecond (a ++ "," ++ b)%string = Some b) /\
  (forall a b c, noComma a -> noComma b ->
     splitCommaSecond (a ++ "," ++ b ++ "," ++ c)%string = Some b) /\
  (forall s, noComma s -> splitCommaSecond s = None) /\
  (forall d, noComma d -> splitCommaSecond ("data:image/png;base64," ++ d)%string = Some d).
Proof.
  assert (forall a b, noComma a -> noComma b ->
            splitCommaSecond (a ++ "," ++ b)%string = Some b) as H1.
  { intros a b Ha Hb. unfold splitCommaSecond, noComma in *. rewrite !list_of_append.
    cbn [list_ascii_of_string app]. rewrite afterComma_found by exact Ha.
    rewrite untilComma_all by exact Hb. rewrite string_of_list_ascii_of_string. reflexivity. }
  split; [exact H1|]. split; [|split].
  - intros a b c Ha Hb. unfold splitCommaSecond, noComma in *. rewrite !list_of_append.
    cbn [list_ascii_of_string app]. rewrite afterComma_found by exact Ha.
    rewrite untilComma_stops by exact Hb. rewrite string_of_list_ascii_of_string. reflexivity.
  - intros s Hs. unfold splitCommaSecond, noComma in *. rewrite afterComma_none by exact Hs.
    reflexivity.
  - intros d Hd. apply (H1 "data:image/png;base64" d); [|exact Hd].
    unfold noComma. cbn [list_ascii_of_string]. repeat (constructor; [discriminate|]). constructor.
Qed.

Lemma wsLen_le cs : (wsLen cs <= List.length cs)%nat.
Proof.
  unfold wsLen. destruct cs as [|a [|b [|c r]]]; cbn [List.length];
    repeat match goal with |- context [if ?x then _ else _] => destruct x end; lia.
Qed.

Lemma trimStart_blank cs : forall k, allWsFrom k cs = true -> trimStartFrom k cs = [].
Proof.
  induction cs as [|c rest IH]; intros k H; [reflexivity|].
  cbn [allWsFrom trimStartFrom] in *. destruct k as [|k]; [|apply IH; exact H].
  destruct (wsLen (c :: rest)); [discriminate | apply IH; exact H].
Qed.

Lemma trimStart_not_blank cs : forall k,
  (k <= List.length cs)%nat -> allWsFrom k cs = false ->
  exists c r, trimStartFrom k cs = c :: r /\ wsLen (c :: r) = 0%nat.
Proof.
  induction cs as [|c rest IH]; intros k Hk H.
  - cbn [List.length] in Hk. assert (k = 0)%nat by lia. subst. discriminate.
  - cbn [allWsFrom trimStartFrom List.length] in *. destruct k as [|k].
    + destruct (wsLen (c :: rest)) as [|j] eqn:E.
      * exists c, rest. split; [reflexivity | exact E].
      * apply IH; [|exact H]. pose proof (wsLen_le (c :: rest)) as Hl.
        rewrite E in Hl. cbn [List.length] in Hl. lia.
    + apply IH; [lia | exact H].
Qed.

(** X28.  The form submits nothing exactly when the input is empty or all white
    space; otherwise it passes the input on as typed, not trimmed. *)
Theorem handleSubmit_passes_the_url_untrimmed (url : string) :
  (UrlInput.handleSubmit url = None <-> allWsFrom 0 (list_ascii_of_string url) = true) /\
  (allWsFrom 0 (list_ascii_of_string url) = false -> UrlInput.handleSubmit url = Some url).
Proof.
  unfold UrlInput.handleSubmit, trim.
  destruct (allWsFrom 0 (list_ascii_of_string url)) eqn:E.
  - rewrite (trimStart_blank _ 0 E). cbn. split; [split; reflexivity | discriminate].
  - destruct (trimStart_not_blank _ 0 (Nat.le_0_l _) E) as (c & r & -> & Hw).
    cbn [trimEndList allWsFrom]. rewrite Hw. cbn [string_of_list_ascii truthy].
    split; [split; discriminate | reflexivity].
Qed.

Lemma allWsFrom_length run : forall k, allWsFrom k run = true -> (k <= List.length run)%nat.
Proof.
  induction run as [|c rest IH]; intros k H.
  - cbn in H. apply Nat.eqb_eq in H. subst. cbn. lia.
  - cbn [allWsFrom] in H. cbn [List.length]. destruct k as [|k].
    + lia.
    + apply IH in H. lia.
Qed.

(** The white-space character that starts [a ++ b] lies within [a] when [a]
    is long enough. *)
Lemma wsLen_cut a b k :
  wsLen (a ++ b) = S k -> (S k <= List.length a)%nat -> wsLen a = S k.
Proof.
  unfold wsLen.
  destruct a as [|x [|y [|z r]]]; cbn [app List.length]; intros H Hl.
  - lia.
  - destruct (ws1 (code x)); [exact H|].
    destruct b as [|y [|z r]]; [discriminate| |].
    + destruct (ws2 _ _); [injection H as <-; lia | discriminate].
    + destruct (ws2 _ _); [injection H as <-; lia|].
      destruct (ws3 _ _ _); [injection H as <-; lia | discriminate].
  - destruct (ws1 (code x)); [exact H|].
    destruct (ws2 _ _); [exact H|].
    destruct b as [|z r]; [discriminate|].
    destruct (ws3 _ _ _); [injection H as <-; lia | discriminate].
  - exact H.
Qed.

(** Within a run, [replaceWsFrom] writes nothing up to the end of the run. *)
Lemma replaceWsFrom_run cs : forall skip,
  (skip <= List.length cs)%nat ->
  exists run rest,
    cs = run ++ rest /\ allWsFrom skip run = true /\ wsLen rest = 0%nat /\
    replaceWsFrom true skip cs = replaceWsFrom false 0 rest.
Proof.
  induction cs as [|c tl IH]; intros skip Hs.
  - cbn [List.length] in Hs. assert (skip = 0)%nat by lia. subst.
    exists [], []. repeat split.
  - destruct skip as [|k].
    + destruct (wsLen (c :: tl)) as [|k] eqn:E.
      * exists [], (c :: tl). repeat split; [exact E|].
        cbn [replaceWsFrom]. rewrite E. reflexivity.
      * assert (k <= List.length tl)%nat as Hk.
        { pose proof (wsLen_le (c :: tl)) as Hl. rewrite E in Hl. cbn [List.length] in Hl. lia. }
        destruct (IH k Hk) as (run & rest & Htl & Hall & Hrest & Hrep).
        exists (c :: run), rest. subst tl. split; [reflexivity|].
        split; [|split; [exact Hrest|]].
        -- cbn [allWsFrom].
           rewrite (wsLen_cut (c :: run) rest k E)
             by (cbn [List.length]; apply allWsFrom_length in Hall; lia).
           exact Hall.
        -- cbn [replaceWsFrom]. rewrite E. exact Hrep.
    + cbn [List.length] in Hs.
      destruct (IH k ltac:(lia)) as (run & rest & Htl & Hall & Hrest & Hrep).
      exists (c :: run), rest. subst tl. repeat split; assumption.
Qed.

Lemma replaceWsFrom_underscored n : forall cs,
  (List.length cs <= n)%nat -> Underscored cs (replaceWsFrom false 0 cs).
Proof.
  induction n as [|n IH]; intros cs Hn.
  - destruct cs; [constructor | cbn in Hn; lia].
  - destruct cs as [|c tl]; [constructor|]. cbn [List.length] in Hn.
    destruct (wsLen (c :: tl)) as [|k] eqn:E.
    + cbn [replaceWsFrom]. rewrite E. apply Underscored_keep; [exact E|]. apply IH. lia.
    + cbn [replaceWsFrom]. rewrite E. cbn [app].
      assert (k <= List.length tl)%nat as Hk.
      { pose proof (wsLen_le (c :: tl)) as Hl. rewrite E in Hl. cbn [List.length] in Hl. lia. }
      destruct (replaceWsFrom_run tl k Hk) as (run & rest & Htl & Hall & Hrest & Hrep).
      rewrite Hrep. subst tl. change (c :: run ++ rest) with ((c :: run) ++ rest).
      apply Underscored_run; [discriminate| |exact Hrest|].
      * cbn [allWsFrom].
        rewrite (wsLen_cut (c :: run) rest k E)
          by (cbn [List.length]; apply allWsFrom_length in Hall; lia).
        exact Hall.
      * apply IH. rewrite length_app in Hn. lia.
Qed.

(** [replaceWs] replaces each run of white space by one underscore. *)
Lemma replaceWs_underscored (s : string) :
  Underscored (list_ascii_of_string s) (list_ascii_of_string (replaceWs s)).
Proof.
  unfold replaceWs. rewrite list_ascii_of_string_of_list_ascii.
  apply (replaceWsFrom_underscored (List.length (list_ascii_of_string s))). lia.
Qed.

(* ================================================================== *)
(** ** Properties of the generation orchestrator *)
(* ================================================================== *)

Lemma typeName_inj a b : typeName a = typeName b -> a = b.
Proof. destruct a, b; simpl; intro H; try reflexivity; discriminate. Qed.

Lemma waveTask_eqb_eq a b : waveTask_eqb a b = true <-> a = b.
Proof.
  destruct a as [x|x], b as [y|y]; simpl; split; intro H; try discriminate.
  - apply String.eqb_eq in H. f_equal. apply typeName_inj. exact H.
  - injection H as ->. apply String.eqb_refl.
  - apply String.eqb_eq in H. congruence.
  - injection H as ->. apply String.eqb_refl.
Qed.

Lemma isPending_In t l : isPending t l = true <-> In t l.
Proof.
  unfold isPending. rewrite existsb_exists. split.
  - intros (x & Hin & Heq). apply waveTask_eqb_eq in Heq. subst x. exact Hin.
  - intro Hin. exists t. split; [exact Hin | apply waveTask_eqb_eq; reflexivity].
Qed.

Lemma removeTask_perm t l : In t l -> Permutation l (t :: removeTask t l).
Proof.
  induction l as [|x rest IH]; simpl; [tauto|]. intro Hin.
  destruct (waveTask_eqb t x) eqn:E.
  - apply waveTask_eqb_eq in E. subst x. apply Permutation_refl.
  - destruct Hin as [-> | Hin].
    + assert (waveTask_eqb t t = true) by (apply waveTask_eqb_eq; reflexivity). congruence.
    + apply Permutation_trans with (x :: t :: removeTask t rest).
      * apply perm_skip. apply IH. exact Hin.
      * apply perm_swap.
Qed.


Lemma Scheduled_cons p t o wave :
  Scheduled p ((t, o) :: wave) -> In t p /\ Scheduled (removeTask t p) wave.
Proof.
  intros [rest H]. simpl in H.
  assert (In t p) as Hin.
  { eapply Permutation_in; [exact H | left; reflexivity]. }
  split; [exact Hin|]. exists rest.
  apply Permutation_cons_inv with t.
  apply Permutation_trans with p; [exact H | apply removeTask_perm; exact Hin].
Qed.

Lemma Scheduled_all p wave :
  Permutation (map fst wave) p -> Scheduled p wave.
Proof. intro H. exists []. rewrite app_nil_r. exact H. Qed.

Lemma Scheduled_nil_inv wave : Scheduled [] wave -> wave = [].
Proof.
  intros [rest H]. apply Permutation_sym, Permutation_nil in H.
  destruct wave; [reflexivity | discriminate].
Qed.

Section Orchestrator.

Variable clock : nat -> string.
Variable apiKey : option string.
Variable onReject : string -> Session -> Session.
Variable style : BrandStyle.


Local Abbreviation step := (taskSettled clock apiKey onReject style).
Local Abbreviation produced := (produced apiKey style).
Local Abbreviation delivered := (delivered apiKey style).
Local Abbreviation uncaught := (uncaught apiKey style).
Local Abbreviation firstUncaught := (firstUncaught apiKey style).

Hypothesis onReject_assets :
  forall m s, assets (ui (onReject m s)) = assets (ui s).

Lemma joinStep_assets run :
  assets (ui (session (joinStep clock run))) = assets (ui (session run)).
Proof.
  unfold joinStep. destruct (join run); try reflexivity.
  destruct (pending run); reflexivity.
Qed.

Lemma step_assets run ev :
  In (fst ev) (pending run) ->
  assets (ui (session (step run ev))) =
  assets (ui (session run)) ++ delivered [ev].
Proof.
  destruct ev as [t o]. intro Hin. apply isPending_In in Hin.
  unfold taskSettled. cbn [fst] in Hin. rewrite Hin. cbn [negb].
  unfold delivered, produced. cbn [flat_map fst snd]. rewrite app_nil_r.
  destruct t as [a | v].
  - rewrite joinStep_assets. cbn [session].
    destruct (generateBrandAsset apiKey style a o); cbn; [reflexivity | rewrite app_nil_r; reflexivity].
  - destruct (generateLogoVariant apiKey style v o).
    + rewrite joinStep_assets. reflexivity.
    + rewrite app_nil_r. destruct (join run); cbn [session]; try reflexivity.
      apply onReject_assets.
Qed.

Lemma step_pending run ev :
  In (fst ev) (pending run) ->
  pending (step run ev) = removeTask (fst ev) (pending run).
Proof.
  destruct ev as [t o]. intro Hin. apply isPending_In in Hin.
  unfold taskSettled. cbn [fst] in *. rewrite Hin. cbn [negb].
  assert (forall r, pending (joinStep clock r) = pending r) as Hj.
  { intro r. unfold joinStep. destruct (join r); try reflexivity.
    destruct (pending r) eqn:E; [reflexivity | exact E]. }
  destruct t as [a | v].
  - rewrite Hj. reflexivity.
  - destruct (generateLogoVariant apiKey style v o).
    + rewrite Hj. reflexivity.
    + destruct (join run); reflexivity.
Qed.

Lemma delivered_cons ev wave : delivered (ev :: wave) = delivered [ev] ++ delivered wave.
Proof. unfold delivered. cbn [flat_map]. rewrite app_nil_r. reflexivity. Qed.

Lemma fold_assets wave : forall run,
  Scheduled (pending run) wave ->
  assets (ui (session (fold_left step wave run))) =
  assets (ui (session run)) ++ delivered wave.
Proof.
  induction wave as [|[t o] rest IH]; intros run Hs.
  - simpl. rewrite app_nil_r. reflexivity.
  - apply Scheduled_cons in Hs. destruct Hs as [Hin Hs]. cbn [fold_left].
    rewrite IH.
    + rewrite (step_assets run (t, o) Hin).
      rewrite (delivered_cons (t, o) rest), app_assoc. reflexivity.
    + rewrite (step_pending run (t, o) Hin). exact Hs.
Qed.


(** What the caller's reaction makes of the run state. *)
Variable after : string -> AnalysisState -> AnalysisState.
Hypothesis onReject_state :
  forall m s, state (ui (onReject m s)) = after m (state (ui s)).

Lemma step_rejected run ev m :
  join run = FirstRejected m ->
  join (step run ev) = FirstRejected m /\
  state (ui (session (step run ev))) = state (ui (session run)).
Proof.
  destruct ev as [t o]. intro Hj. unfold taskSettled.
  destruct (isPending t (pending run)); cbn [negb]; [|split; [exact Hj | reflexivity]].
  destruct t as [a | v].
  - unfold joinStep. cbn [join]. rewrite Hj. cbn [join session].
    split; [reflexivity|].
    destruct (generateBrandAsset apiKey style a o); reflexivity.
  - destruct (generateLogoVariant apiKey style v o).
    + unfold joinStep. cbn [join]. rewrite Hj. cbn [join session]. split; reflexivity.
    + rewrite Hj. cbn [join session]. split; reflexivity.
Qed.

Lemma fold_rejected wave : forall run m,
  join run = FirstRejected m ->
  join (fold_left step wave run) = FirstRejected m /\
  state (ui (session (fold_left step wave run))) = state (ui (session run)).
Proof.
  induction wave as [|ev rest IH]; intros run m Hj; [split; [exact Hj | reflexivity]|].
  cbn [fold_left]. destruct (step_rejected run ev m Hj) as [Hj' Hs'].
  destruct (IH _ m Hj') as [H1 H2]. split; [exact H1 | congruence].
Qed.

(** A settlement that is caught leaves the join waiting, unless it was the
    last one. *)
Lemma step_caught run ev :
  join run = Waiting ->
  In (fst ev) (pending run) ->
  uncaught ev = None ->
  (removeTask (fst ev) (pending run) <> [] ->
     join (step run ev) = Waiting /\
     state (ui (session (step run ev))) = state (ui (session run))) /\
  (removeTask (fst ev) (pending run) = [] ->
     join (step run ev) = AllFulfilled /\
     state (ui (session (step run ev))) = complete).
Proof.
  destruct ev as [t o]. cbn [fst]. intros Hj Hin Hu. apply isPending_In in Hin.
  unfold taskSettled. rewrite Hin. cbn [negb].
  unfold uncaught in Hu. cbn [fst snd] in Hu.
  destruct t as [a | v].
  - unfold joinStep. cbn [join pending]. rewrite Hj.
    destruct (removeTask (AssetTask a) (pending run)) eqn:E.
    + split; [congruence|]. intros _. split; reflexivity.
    + split; [|discriminate]. intros _. cbn [join session]. split; [reflexivity|].
      destruct (generateBrandAsset apiKey style a o); reflexivity.
  - destruct (generateLogoVariant apiKey style v o); [|discriminate].
    unfold joinStep. cbn [join pending]. rewrite Hj.
    destruct (removeTask (ExtraLogoTask v) (pending run)) eqn:E.
    + split; [congruence|]. intros _. split; reflexivity.
    + split; [|discriminate]. intros _. cbn [join session]. split; reflexivity.
Qed.

Lemma step_uncaught run ev m :
  join run = Waiting ->
  In (fst ev) (pending run) ->
  uncaught ev = Some m ->
  join (step run ev) = FirstRejected m /\
  state (ui (session (step run ev))) = after m (state (ui (session run))).
Proof.
  destruct ev as [t o]. cbn [fst]. intros Hj Hin Hu. apply isPending_In in Hin.
  unfold taskSettled. rewrite Hin. cbn [negb].
  unfold uncaught in Hu. cbn [fst snd] in Hu.
  destruct t as [a | v]; [discriminate|].
  destruct (generateLogoVariant apiKey style v o); [discriminate|].
  injection Hu as ->. rewrite Hj. cbn [join session]. split; [reflexivity|].
  apply onReject_state.
Qed.

(** Every task settles and none is left uncaught: the join fulfils. *)
Lemma fold_all_caught wave : forall run,
  join run = Waiting ->
  pending run <> [] ->
  Permutation (map fst wave) (pending run) ->
  firstUncaught wave = None ->
  join (fold_left step wave run) = AllFulfilled /\
  state (ui (session (fold_left step wave run))) = complete.
Proof.
  induction wave as [|[t o] rest IH]; intros run Hj Hne Hp Hu.
  - apply Permutation_nil in Hp. congruence.
  - cbn [firstUncaught] in Hu.
    destruct (uncaught (t, o)) eqn:Eu; [discriminate|].
    assert (Hs := Scheduled_all _ _ Hp). apply Scheduled_cons in Hs.
    destruct Hs as [Hin _].
    assert (Permutation (map fst rest) (removeTask t (pending run))) as Hp'.
    { apply Permutation_cons_inv with t.
      apply Permutation_trans with (pending run); [exact Hp | apply removeTask_perm; exact Hin]. }
    destruct (step_caught run (t, o) Hj Hin Eu) as [Hmore Hlast].
    cbn [fold_left]. cbn [fst] in *.
    destruct (removeTask t (pending run)) eqn:E.
    + apply Permutation_sym, Permutation_nil in Hp'.
      destruct rest; [|discriminate]. cbn [fold_left]. apply Hlast. reflexivity.
    + destruct Hmore as [Hj' Hs']; [discriminate|].
      apply IH; try assumption.
      * rewrite (step_pending run (t, o) Hin). cbn [fst]. rewrite E. discriminate.
      * rewrite (step_pending run (t, o) Hin). cbn [fst]. rewrite E. exact Hp'.
Qed.

(** One settlement is left uncaught: the join rejects with the first such
    message, however many tasks are still in flight. *)
Lemma fold_uncaught wave : forall run m,
  join run = Waiting ->
  Scheduled (pending run) wave ->
  firstUncaught wave = Some m ->
  join (fold_left step wave run) = FirstRejected m /\
  state (ui (session (fold_left step wave run))) = after m (state (ui (session run))).
Proof.
  induction wave as [|[t o] rest IH]; intros run m Hj Hs Hu; [discriminate|].
  apply Scheduled_cons in Hs. destruct Hs as [Hin Hs].
  cbn [firstUncaught] in Hu. cbn [fold_left].
  destruct (uncaught (t, o)) as [m'|] eqn:Eu.
  - injection Hu as ->.
    destruct (step_uncaught run (t, o) m Hj Hin Eu) as [Hj' Hs'].
    destruct (fold_rejected rest _ m Hj') as [H1 H2]. split; [exact H1 | congruence].
  - destruct (step_caught run (t, o) Hj Hin Eu) as [Hmore Hlast]. cbn [fst] in *.
    destruct (removeTask t (pending run)) eqn:E.
    + exfalso. apply Scheduled_nil_inv in Hs. subst rest. discriminate.
    + destruct Hmore as [Hj' Hs']; [discriminate|].
      destruct (IH (step run (t, o)) m Hj') as [H1 H2]; try assumption.
      * rewrite (step_pending run (t, o) Hin). cbn [fst]. rewrite E. exact Hs.
      * split; [exact H1 | congruence].
Qed.

End Orchestrator.

Section Runs.

Variable clock : nat -> string.
Variable apiKey : option string.
Variable style : BrandStyle.

(** The run when the second wave has just been sent. *)
Lemma primarySettled_run primary s :
  let run := primarySettled clock apiKey style primary (startGeneration_begin clock apiKey style s) in
  join run = Waiting /\ pending run = secondWave /\
  state (ui (session run)) = generating /\
  assets (ui (session run)) =
    match generateLogoVariant apiKey style "Minimalist Wordmark" primary with
    | Ok primaryLogo => [primaryLogo]
    | Err _ => []
    end.
Proof.
  cbv zeta. unfold primarySettled, startGeneration_begin.
  change (nth 0 LOGO_VARIANTS "undefined") with "Minimalist Wordmark".
  destruct (generateLogoVariant apiKey style "Minimalist Wordmark" primary);
    destruct (getClient apiKey); repeat split.
Qed.


Lemma analyzeCatch_assets m s : assets (ui (analyzeCatch clock m s)) = assets (ui s).
Proof. reflexivity. Qed.

Lemma analyzeCatch_state m s : state (ui (analyzeCatch clock m s)) = error m.
Proof. reflexivity. Qed.

Lemma fold_pending onReject wave : forall run,
  Scheduled (pending run) wave ->
  Permutation
    (map fst wave ++ pending (fold_left (taskSettled clock apiKey onReject style) wave run))
    (pending run).
Proof.
  induction wave as [|[t o] rest IH]; intros run Hs; [apply Permutation_refl|].
  apply Scheduled_cons in Hs. destruct Hs as [Hin Hs].
  cbn [fold_left map app fst].
  apply Permutation_trans with (t :: removeTask t (pending run));
    [|apply Permutation_sym, removeTask_perm; exact Hin].
  apply perm_skip.
  pose proof (step_pending clock apiKey onReject style run (t, o) Hin) as Hsp.
  cbn [fst] in Hsp. rewrite <- Hsp. apply IH. rewrite Hsp. exact Hs.
Qed.

Lemma delivered_app a b :
  delivered apiKey style (a ++ b) = delivered apiKey style a ++ delivered apiKey style b.
Proof. unfold delivered. apply flat_map_app. Qed.

Lemma delivered_all_length wave :
  (forall ev, In ev wave -> failed apiKey style ev = false) ->
  List.length (delivered apiKey style wave) = List.length wave.
Proof.
  induction wave as [|ev rest IH]; intro H; [reflexivity|].
  rewrite delivered_cons, length_app, IH by (intros e He; apply H; right; exact He).
  specialize (H ev (or_introl eq_refl)). unfold failed in H. unfold delivered.
  cbn [flat_map]. destruct (produced apiKey style ev); [reflexivity | discriminate].
Qed.

Lemma firstUncaught_app_none a b :
  (forall ev, In ev a -> failed apiKey style ev = false) ->
  firstUncaught apiKey style (a ++ b) = firstUncaught apiKey style b.
Proof.
  induction a as [|ev rest IH]; intro H; [reflexivity|].
  cbn [app firstUncaught]. rewrite IH by (intros e He; apply H; right; exact He).
  specialize (H ev (or_introl eq_refl)). unfold failed, produced in H. unfold uncaught.
  destruct (fst ev); [reflexivity|].
  destruct (generateLogoVariant apiKey style variant (snd ev)); [reflexivity | discriminate].
Qed.

(** C1, where the code departs from it.  Of the six tasks exactly one fails,
    and it is one of the two extra logo variants, whose promise has no
    [catch]: the five other assets are delivered, but [Promise.all] rejects,
    [startGeneration] rejects with the message of the failure, and the
    [catch] of [handleAnalyze] puts the run in the state [error], not
    [complete]. *)
Theorem one_failed_extra_logo_ends_the_run_in_error
    primary wave s before variant outcome rest primaryLogo message :
  wave = before ++ (ExtraLogoTask variant, outcome) :: rest ->
  Permutation (map fst wave) secondWave ->
  generateLogoVariant apiKey style "Minimalist Wordmark" primary = Ok primaryLogo ->
  generateLogoVariant apiKey style variant outcome = Err message ->
  (forall ev, In ev (before ++ rest) -> failed apiKey style ev = false) ->
  let run := startGeneration clock apiKey (analyzeCatch clock) style primary wave s in
  join run = FirstRejected message /\
  state (ui (session run)) = error message /\
  state (ui (session run)) <> complete /\
  List.length (assets (ui (session run))) = 5%nat.
Proof.
  intros Hw Hp Hprimary Hfail Hothers. cbv zeta. unfold startGeneration.
  pose proof (primarySettled_run primary s) as Hrun. cbv zeta in Hrun.
  set (run0 := primarySettled clock apiKey style primary
                 (startGeneration_begin clock apiKey style s)) in *.
  destruct Hrun as (Hj & Hpend & Hst & Has).
  assert (firstUncaught apiKey style wave = Some message) as Hu.
  { rewrite Hw, firstUncaught_app_none by (intros e He; apply Hothers, in_or_app; left; exact He).
    cbn [firstUncaught]. unfold uncaught. cbn [fst snd]. rewrite Hfail. reflexivity. }
  assert (Scheduled (pending run0) wave) as Hs by (rewrite Hpend; apply Scheduled_all; exact Hp).
  destruct (fold_uncaught clock apiKey (analyzeCatch clock) style
              (fun m _ => error m) (analyzeCatch_state) wave run0 message Hj Hs Hu)
    as [H1 H2].
  split; [exact H1|]. split; [exact H2|]. split; [rewrite H2; discriminate|].
  rewrite (fold_assets clock apiKey (analyzeCatch clock) style analyzeCatch_assets wave run0 Hs).
  rewrite Has, Hprimary, length_app. cbn [List.length].
  assert (List.length wave = 5%nat) as Hlen.
  { rewrite <- (length_map fst wave), (Permutation_length Hp). reflexivity. }
  rewrite Hw, delivered_app, delivered_cons, !length_app.
  rewrite (delivered_all_length before)
    by (intros e He; apply Hothers, in_or_app; left; exact He).
  rewrite (delivered_all_length rest)
    by (intros e He; apply Hothers, in_or_app; right; exact He).
  unfold delivered at 1. cbn [flat_map]. unfold produced. cbn [fst snd]. rewrite Hfail.
  cbn [List.length app]. rewrite Hw, length_app in Hlen. cbn [List.length] in Hlen. lia.
Qed.

(** C2, where the code departs from it.  As soon as an extra logo variant
    fails, the promise of [Promise.all] and with it [startGeneration] settle,
    by rejection, and the run state is [error]: the tasks of the second wave
    that have not settled yet, [5 - length wave] of them, are still in
    flight. *)
Theorem join_rejects_while_tasks_are_in_flight primary wave s message :
  Scheduled secondWave wave ->
  firstUncaught apiKey style wave = Some message ->
  let run := startGeneration clock apiKey (analyzeCatch clock) style primary wave s in
  join run = FirstRejected message /\
  state (ui (session run)) = error message /\
  Permutation (map fst wave ++ pending run) secondWave /\
  List.length (pending run) = (5 - List.length wave)%nat.
Proof.
  intros Hs Hu. cbv zeta. unfold startGeneration.
  pose proof (primarySettled_run primary s) as Hrun. cbv zeta in Hrun.
  set (run0 := primarySettled clock apiKey style primary
                 (startGeneration_begin clock apiKey style s)) in *.
  destruct Hrun as (Hj & Hpend & Hst & Has). rewrite <- Hpend in Hs.
  destruct (fold_uncaught clock apiKey (analyzeCatch clock) style
              (fun m _ => error m) (analyzeCatch_state) wave run0 message Hj Hs Hu)
    as [H1 H2].
  pose proof (fold_pending (analyzeCatch clock) wave run0 Hs) as Hperm. rewrite Hpend in Hperm.
  split; [exact H1|]. split; [exact H2|]. split; [exact Hperm|].
  apply Permutation_length in Hperm. rewrite length_app, length_map in Hperm.
  cbn [secondWave List.length] in Hperm. change (List.length secondWave) with 5%nat in Hperm. lia.
Qed.

End Runs.


Lemma one_failed_extra_logo_ends_the_run_in_error_witness :
  state (ui (session (startGeneration sampleClock (Some "key") (analyzeCatch sampleClock)
                        getDemoBrandStyle (imageReply "PP" "0") abstractIconFails
                        initialSession)))
  = error "quota exceeded".
Proof.
  refine (proj1 (proj2 (one_failed_extra_logo_ends_the_run_in_error sampleClock (Some "key")
            getDemoBrandStyle (imageReply "PP" "0") abstractIconFails initialSession
            [(AssetTask Billboard, imageReply "AA" "1")] "Abstract Icon"
            (GenRejected "quota exceeded")
            [ (AssetTask Merch, imageReply "BB" "2"); (AssetTask Poster, imageReply "CC" "3");
              (ExtraLogoTask "App Icon", imageReply "EE" "5") ]
            _ "quota exceeded" eq_refl _ eq_refl eq_refl _))).
  - cbn. apply Permutation_trans with
      [AssetTask Billboard; AssetTask Merch; ExtraLogoTask "Abstract Icon";
       AssetTask Poster; ExtraLogoTask "App Icon"].
    + apply perm_skip. apply perm_swap.
    + apply perm_skip. apply perm_skip. apply perm_swap.
  - intros ev Hin. cbn in Hin.
    destruct Hin as [<- | [<- | [<- | [<- | []]]]]; reflexivity.
Defined.

Lemma join_rejects_while_tasks_are_in_flight_witness :
  let run := startGeneration sampleClock (Some "key") (analyzeCatch sampleClock)
               getDemoBrandStyle (imageReply "PP" "0")
               [(ExtraLogoTask "Abstract Icon", GenRejected "quota exceeded")]
               initialSession in
  join run = FirstRejected "quota exceeded" /\ List.length (pending run) = 4%nat.
Proof.
  cbv zeta.
  destruct (join_rejects_while_tasks_are_in_flight sampleClock (Some "key") getDemoBrandStyle
              (imageReply "PP" "0")
              [(ExtraLogoTask "Abstract Icon", GenRejected "quota exceeded")]
              initialSession "quota exceeded") as (H1 & _ & _ & H4).
  - exists [AssetTask Billboard; AssetTask Merch; AssetTask Poster; ExtraLogoTask "App Icon"].
    cbn. apply Permutation_sym.
    apply Permutation_trans with
      [AssetTask Billboard; AssetTask Merch; ExtraLogoTask "Abstract Icon";
       AssetTask Poster; ExtraLogoTask "App Icon"].
    + apply perm_skip. apply perm_skip. apply perm_swap.
    + apply Permutation_trans with
        [AssetTask Billboard; ExtraLogoTask "Abstract Icon"; AssetTask Merch;
         AssetTask Poster; ExtraLogoTask "App Icon"].
      * apply perm_skip. apply perm_swap.
      * apply perm_swap.
  - reflexivity.
  - split; [exact H1 | exact H4].
Defined.

Section RunsMore.

Variable clock : nat -> string.
Variable apiKey : option string.
Variable style : BrandStyle.

Local Abbreviation step := (taskSettled clock apiKey (analyzeCatch clock) style).
Local Abbreviation run0 primary s :=
  (primarySettled clock apiKey style primary (startGeneration_begin clock apiKey style s)).

Lemma fold_last_log wave : forall run,
  join run = Waiting -> pending run <> [] ->
  Permutation (map fst wave) (pending run) ->
  firstUncaught apiKey style wave = None ->
  let r := fold_left step wave run in
  pending r = [] /\ progress (ui (session r)) = "" /\
  last (logs (ui (session r))) "" =
    ("[" ++ clock (pred (ticks (session r))) ++ "] All assets generated successfully.")%string.
Proof.
  induction wave as [|[t o] rest IH]; intros run Hj Hne Hp Hu.
  - apply Permutation_nil in Hp. congruence.
  - cbn [firstUncaught] in Hu.
    destruct (uncaught apiKey style (t, o)) eqn:Eu; [discriminate|].
    assert (Hs := Scheduled_all _ _ Hp). apply Scheduled_cons in Hs. destruct Hs as [Hin _].
    assert (Permutation (map fst rest) (removeTask t (pending run))) as Hp'.
    { apply Permutation_cons_inv with t.
      apply Permutation_trans with (pending run); [exact Hp | apply removeTask_perm; exact Hin]. }
    pose proof (step_pending clock apiKey (analyzeCatch clock) style run (t, o) Hin) as Hsp.
    cbn [fst] in Hsp.
    destruct (step_caught clock apiKey (analyzeCatch clock) style run (t, o) Hj Hin Eu)
      as [Hmore Hlast].
    cbn [fst] in *. cbn [fold_left].
    destruct (removeTask t (pending run)) as [|x l] eqn:E.
    + apply Permutation_sym, Permutation_nil in Hp'. destruct rest; [|discriminate].
      cbn [fold_left]. cbv zeta. split; [rewrite Hsp; reflexivity|].
      clear Hmore Hlast IH. apply isPending_In in Hin.
      unfold taskSettled. rewrite Hin. cbn [negb]. rewrite E.
      unfold uncaught in Eu. cbn [fst snd] in Eu.
      destruct t as [a | v].
      * unfold joinStep. cbn [join pending]. rewrite Hj. cbn [session].
        destruct (generateBrandAsset apiKey style a o); cbn; split; try reflexivity;
          apply last_last.
      * destruct (generateLogoVariant apiKey style v o); [|discriminate].
        unfold joinStep. cbn [join pending]. rewrite Hj. cbn [session].
        cbn; split; try reflexivity; apply last_last.
    + destruct Hmore as [Hj' _]; [discriminate|].
      apply IH; try assumption; rewrite Hsp; [discriminate | exact Hp'].
Qed.

Lemma startGeneration_assets primary wave s :
  Scheduled secondWave wave ->
  assets (ui (session (startGeneration clock apiKey (analyzeCatch clock) style primary wave s)))
  = primaryAssets apiKey style primary ++ delivered apiKey style wave.
Proof.
  intros Hs. unfold startGeneration.
  pose proof (primarySettled_run clock apiKey style primary s) as Hrun. cbv zeta in Hrun.
  set (r0 := run0 primary s) in *.
  destruct Hrun as (Hj & Hpend & Hst & Has). rewrite <- Hpend in Hs.
  rewrite (fold_assets clock apiKey (analyzeCatch clock) style (analyzeCatch_assets clock)
             wave r0 Hs).
  rewrite Has. reflexivity.
Qed.

Lemma startGeneration_brandStyle primary wave s :
  brandStyle (ui (session (startGeneration clock apiKey (analyzeCatch clock) style primary wave s)))
  = Some style.
Proof.
  unfold startGeneration. set (r0 := run0 primary s).
  assert (forall w r, brandStyle (ui (session (fold_left step w r)))
                      = brandStyle (ui (session r))) as Hb.
  { induction w as [|[t o] rest IH]; intro r; [reflexivity|].
    cbn [fold_left]. rewrite IH. unfold taskSettled.
    destruct (isPending t (pending r)); cbn [negb]; [|reflexivity].
    assert (forall r', brandStyle (ui (session (joinStep clock r')))
                       = brandStyle (ui (session r'))) as Hjs.
    { intro r'. unfold joinStep. destruct (join r'); try reflexivity.
      destruct (pending r'); reflexivity. }
    destruct t as [a | v].
    - rewrite Hjs. cbn [session]. destruct (generateBrandAsset apiKey style a o); reflexivity.
    - destruct (generateLogoVariant apiKey style v o).
      + rewrite Hjs. reflexivity.
      + destruct (join r); reflexivity. }
  rewrite Hb. unfold r0, primarySettled, startGeneration_begin.
  destruct (generateLogoVariant apiKey style _ primary); destruct (getClient apiKey); reflexivity.
Qed.

Lemma startGeneration_ends_complete primary wave s :
  Permutation (map fst wave) secondWave ->
  firstUncaught apiKey style wave = None ->
  let run := startGeneration clock apiKey (analyzeCatch clock) style primary wave s in
  join run = AllFulfilled /\ pending run = [] /\
  state (ui (session run)) = complete /\
  progress (ui (session run)) = "" /\
  last (logs (ui (session run))) "" =
    ("[" ++ clock (pred (ticks (session run))) ++ "] All assets generated successfully.")%string.
Proof.
  intros Hp Hu. cbv zeta. unfold startGeneration.
  pose proof (primarySettled_run clock apiKey style primary s) as Hrun. cbv zeta in Hrun.
  set (r0 := run0 primary s) in *.
  destruct Hrun as (Hj & Hpend & Hst & Has).
  assert (pending r0 <> []) as Hne by (rewrite Hpend; discriminate).
  rewrite <- Hpend in Hp.
  destruct (fold_all_caught clock apiKey (analyzeCatch clock) style wave r0 Hj Hne Hp Hu)
    as [H1 H2].
  destruct (fold_last_log wave r0 Hj Hne Hp Hu) as (H3 & H4 & H5).
  repeat split; assumption.
Qed.

(** X13.  When every task of the second wave settles and no extra logo fails,
    failures of the primary logo and of the brand assets being caught,
    [startGeneration] fulfils with nothing pending: the state is [complete],
    the progress text is empty, the assets are those delivered, and the last
    log line reports the success. *)
Theorem caught_failures_do_not_fail_the_run primary wave s :
  Permutation (map fst wave) secondWave ->
  firstUncaught apiKey style wave = None ->
  let run := startGeneration clock apiKey (analyzeCatch clock) style primary wave s in
  join run = AllFulfilled /\ pending run = [] /\
  state (ui (session run)) = complete /\
  progress (ui (session run)) = "" /\
  assets (ui (session run)) = primaryAssets apiKey style primary ++ delivered apiKey style wave /\
  last (logs (ui (session run))) "" =
    ("[" ++ clock (pred (ticks (session run))) ++ "] All assets generated successfully.")%string.
Proof.
  intros Hp Hu. cbv zeta.
  destruct (startGeneration_ends_complete primary wave s Hp Hu) as (H1 & H2 & H3 & H4 & H5).
  repeat split; try assumption.
  apply startGeneration_assets, Scheduled_all. exact Hp.
Qed.

(** X14.  Whatever tasks of the second wave settle, in whatever order, the
    assets are the primary logo, if it was generated, followed by the assets
    the settled tasks delivered, in the order of their completion; the brand
    style is the one the run was started with. *)
Theorem assets_follow_the_completion_order primary wave s :
  Scheduled secondWave wave ->
  let run := startGeneration clock apiKey (analyzeCatch clock) style primary wave s in
  assets (ui (session run)) = primaryAssets apiKey style primary ++ delivered apiKey style wave /\
  brandStyle (ui (session run)) = Some style.
Proof.
  intros Hs. cbv zeta. split.
  - apply startGeneration_assets. exact Hs.
  - apply startGeneration_brandStyle.
Qed.

(** X15.  Two runs whose tasks of the second wave settle with the same outcomes
    in different orders end with the same assets, up to their order. *)
Theorem completion_order_permutes_the_assets primary wave wave' s :
  Scheduled secondWave wave ->
  Permutation wave wave' ->
  Permutation
    (assets (ui (session (startGeneration clock apiKey (analyzeCatch clock) style primary wave s))))
    (assets (ui (session (startGeneration clock apiKey (analyzeCatch clock) style primary wave' s)))).
Proof.
  intros Hs Hperm.
  assert (Scheduled secondWave wave') as Hs'.
  { destruct Hs as [rest H]. exists rest.
    apply Permutation_trans with (map fst wave ++ rest); [|exact H].
    apply Permutation_app_tail, Permutation_map, Permutation_sym. exact Hperm. }
  rewrite (startGeneration_assets primary wave s Hs).
  rewrite (startGeneration_assets primary wave' s Hs').
  apply Permutation_app_head. unfold delivered. apply Permutation_flat_map. exact Hperm.
Qed.


Lemma requests_emit e l :
  analysisRequests (l ++ [e]) =
  analysisRequests l ++ match e with GenerateContent r => [r] | _ => [] end.
Proof. unfold analysisRequests. rewrite flat_map_app. cbn [flat_map]. rewrite app_nil_r. reflexivity. Qed.

Lemma joinStep_out run :
  out (session (joinStep clock run)) = out (session run).
Proof.
  unfold joinStep. destruct (join run); try reflexivity. destruct (pending run); reflexivity.
Qed.

Lemma step_requests run ev :
  analysisRequests (out (session (step run ev))) = analysisRequests (out (session run)).
Proof.
  destruct ev as [t o]. unfold taskSettled.
  destruct (isPending t (pending run)); cbn [negb]; [|reflexivity].
  destruct t as [a | v].
  - rewrite joinStep_out. cbn [session].
    destruct (generateBrandAsset apiKey style a o); [reflexivity|].
    cbn [addLog setLogs onUI emit out ui]. rewrite requests_emit, app_nil_r. reflexivity.
  - destruct (generateLogoVariant apiKey style v o).
    + rewrite joinStep_out. reflexivity.
    + destruct (join run); cbn [session]; try reflexivity.
      cbn [analyzeCatch addLog setLogs setState onUI emit out ui].
      rewrite requests_emit, app_nil_r. reflexivity.
Qed.

(** X16.  With an API key, [startGeneration] sends exactly six requests in a
    fixed order: the primary logo, the three brand assets, then the two extra
    logos; each is sent once, whatever the outcomes and however many tasks
    settle. *)
Theorem every_task_is_requested_exactly_once k primary wave s :
  getClient apiKey = Ok k ->
  analysisRequests
    (out (session (startGeneration clock apiKey (analyzeCatch clock) style primary wave s))) =
  analysisRequests (out s)
  ++ logoRequest style "Minimalist Wordmark"
     :: [ assetRequest style Billboard; assetRequest style Merch; assetRequest style Poster;
          logoRequest style "Abstract Icon"; logoRequest style "App Icon" ].
Proof.
  intro Hk. unfold startGeneration.
  assert (forall w r, analysisRequests (out (session (fold_left step w r)))
                      = analysisRequests (out (session r))) as Hfold.
  { induction w as [|ev rest IH]; intro r; [reflexivity|].
    cbn [fold_left]. rewrite IH. apply step_requests. }
  rewrite Hfold. unfold primarySettled, startGeneration_begin. rewrite Hk.
  destruct (generateLogoVariant apiKey style _ primary);
    cbn [joinStep join pending secondWave BRAND_ASSETS LOGO_VARIANTS map skipn app fold_left
         session waveRequest nth];
    cbn [appendAsset setAssets addLog setLogs setProgress setState setBrandStyle onUI emit out ui];
    rewrite !requests_emit; rewrite <- ?app_assoc; cbn [app]; rewrite ?app_nil_r; reflexivity.
Qed.

End RunsMore.

(** X17.  In demo mode nothing catches the rejection of [startGeneration]: when
    an extra logo fails, the state is left at [generating]. *)
Theorem demo_run_is_stuck_by_an_uncaught_failure clock apiKey primary wave s message :
  Scheduled secondWave wave ->
  firstUncaught apiKey getDemoBrandStyle wave = Some message ->
  state (ui (handleDemoMode clock apiKey primary wave s)) = generating.
Proof.
  intros Hs Hu. unfold handleDemoMode. cbv zeta.
  set (s1 := addLog clock "Loaded 'NeonFlux' demo brand profile." _).
  unfold startGeneration.
  pose proof (primarySettled_run clock apiKey getDemoBrandStyle primary s1) as Hrun.
  cbv zeta in Hrun. destruct Hrun as (Hj & Hpend & Hst & _). rewrite <- Hpend in Hs.
  destruct (fold_uncaught clock apiKey (fun _ s => s) getDemoBrandStyle
              (fun _ st => st) (fun _ _ => eq_refl) wave _ message Hj Hs Hu) as [_ H].
  rewrite H. exact Hst.
Qed.

Lemma demo_run_is_stuck_by_an_uncaught_failure_witness :
  state (ui (handleDemoMode sampleClock (Some "key") (imageReply "PP" "0") abstractIconFails
               initialSession)) = generating.
Proof.
  apply (demo_run_is_stuck_by_an_uncaught_failure sampleClock (Some "key") (imageReply "PP" "0")
           abstractIconFails initialSession "quota exceeded").
  - exists []. cbn. apply Permutation_trans with
      [AssetTask Billboard; AssetTask Merch; ExtraLogoTask "Abstract Icon";
       AssetTask Poster; ExtraLogoTask "App Icon"].
    + apply perm_skip. apply perm_swap.
    + apply perm_skip. apply perm_skip. apply perm_swap.
  - reflexivity.
Defined.

Lemma joinStep_appends clock (r : GenRun) :
  exists newLogs,
    assets (ui (session (joinStep clock r))) = assets (ui (session r)) /\
    logs (ui (session (joinStep clock r))) = logs (ui (session r)) ++ newLogs /\
    out (session (joinStep clock r)) = out (session r) /\
    ticks (session (joinStep clock r)) = (ticks (session r) + List.length newLogs)%nat /\
    brandStyle (ui (session (joinStep clock r))) = brandStyle (ui (session r)).
Proof.
  unfold joinStep. destruct (join r).
  - destruct (pending r).
    + eexists (cons _ nil). cbn. rewrite Nat.add_1_r. repeat split.
    + exists []. rewrite app_nil_r, Nat.add_0_r. repeat split.
  - exists []. rewrite app_nil_r, Nat.add_0_r. repeat split.
  - exists []. rewrite app_nil_r, Nat.add_0_r. repeat split.
Qed.

(** X18.  The settlement of one task only appends: the assets, the log lines
    and the effects of before are kept in front of the new ones, at most one
    asset is added, the clock is read once per new log line, and the brand
    style is unchanged. *)
Theorem a_settlement_only_appends clock apiKey style run ev :
  let run' := taskSettled clock apiKey (analyzeCatch clock) style run ev in
  exists newAssets newLogs newEffects,
    assets (ui (session run')) = assets (ui (session run)) ++ newAssets /\
    logs (ui (session run')) = logs (ui (session run)) ++ newLogs /\
    out (session run') = out (session run) ++ newEffects /\
    ticks (session run') = (ticks (session run) + List.length newLogs)%nat /\
    (List.length newAssets <= 1)%nat /\
    brandStyle (ui (session run')) = brandStyle (ui (session run)).
Proof.
  cbv zeta. destruct ev as [t o]. unfold taskSettled.
  destruct (isPending t (pending run)); cbn [negb].
  2:{ exists [], [], []. rewrite !app_nil_r, Nat.add_0_r. repeat split. cbn. lia. }
  destruct t as [a | v].
  - destruct (generateBrandAsset apiKey style a o) as [asset | m].
    + destruct (joinStep_appends clock (mkGenRun (appendAsset asset
                  (addLog clock ("Generated " ++ typeName a ++ " asset.") (session run)))
                  (join run) (removeTask (AssetTask a) (pending run))))
        as (nl & H1 & H2 & H3 & H4 & H5).
      eexists (cons asset nil), (cons _ nl), nil. rewrite H1, H2, H3, H4, H5. cbn.
      rewrite <- app_assoc, app_nil_r. cbn. repeat split; lia.
    + destruct (joinStep_appends clock (mkGenRun
                  (addLog clock ("Error generating " ++ typeName a ++ ": " ++ m)
                     (emit (ConsoleError ("Failed to generate " ++ typeName a) m) (session run)))
                  (join run) (removeTask (AssetTask a) (pending run))))
        as (nl & H1 & H2 & H3 & H4 & H5).
      eexists nil, (cons _ nl), (cons _ nil). rewrite H1, H2, H3, H4, H5. cbn.
      rewrite <- app_assoc, app_nil_r. cbn. repeat split; lia.
  - destruct (generateLogoVariant apiKey style v o) as [asset | m].
    + destruct (joinStep_appends clock (mkGenRun (appendAsset asset (session run))
                  (join run) (removeTask (ExtraLogoTask v) (pending run))))
        as (nl & H1 & H2 & H3 & H4 & H5).
      eexists (cons asset nil), nl, nil. rewrite H1, H2, H3, H4, H5. cbn.
      rewrite app_nil_r. repeat split; lia.
    + destruct (join run); cbn [session].
      * eexists nil, (cons _ nil), (cons _ nil). cbn. rewrite app_nil_r, Nat.add_1_r. repeat split; lia.
      * exists [], [], []. rewrite !app_nil_r, Nat.add_0_r. repeat split. cbn. lia.
      * exists [], [], []. rewrite !app_nil_r, Nat.add_0_r. repeat split. cbn. lia.
Qed.

Lemma perform_frame clock e s1 :
  exists more,
    logs (ui (perform clock s1 e)) = logs (ui s1) ++ more /\
    analyzedUrl (ui (perform clock s1 e)) = analyzedUrl (ui s1) /\
    assets (ui (perform clock s1 e)) = assets (ui s1) /\
    brandStyle (ui (perform clock s1 e)) = brandStyle (ui s1).
Proof.
  destruct e; [eexists (cons _ nil); repeat split | ..];
    exists []; rewrite app_nil_r; repeat split.
Qed.

Lemma fold_perform_frame clock fx : forall s1,
  exists more,
    logs (ui (fold_left (perform clock) fx s1)) = logs (ui s1) ++ more /\
    analyzedUrl (ui (fold_left (perform clock) fx s1)) = analyzedUrl (ui s1) /\
    assets (ui (fold_left (perform clock) fx s1)) = assets (ui s1) /\
    brandStyle (ui (fold_left (perform clock) fx s1)) = brandStyle (ui s1).
Proof.
  induction fx as [|e rest IH]; intro s1; cbn [fold_left].
  - exists []. rewrite app_nil_r. repeat split.
  - destruct (IH (perform clock s1 e)) as (r' & G1 & G2 & G3 & G4).
    destruct (perform_frame clock e s1) as (more & R1 & R2 & R3 & R4).
    exists (more ++ r'). rewrite G1, G2, G3, G4, R1, R2, R3, R4, app_assoc. repeat split.
Qed.

(** X19.  [handleAnalyze] starts from an empty log: after the extraction the
    first log line is the start of the analysis of the URL, whatever was
    logged before; the analysed URL is the one given, the state is
    [analyzing], and the assets and the brand style of before are in place. *)
Theorem analysis_starts_from_an_empty_log clock apiKey url shot race s :
  let s' := fst (handleAnalyze_extract clock apiKey url shot race s) in
  exists rest,
    logs (ui s') = ("[" ++ clock (ticks s) ++ "] Starting analysis for: " ++ url)%string :: rest /\
    analyzedUrl (ui s') = url /\
    state (ui s') = analyzing /\
    assets (ui s') = assets (ui s) /\
    brandStyle (ui s') = brandStyle (ui s).
Proof.
  cbv zeta. unfold handleAnalyze_extract.
  destruct (analyzeBrandFromUrl apiKey url shot race) as [fx r]. cbn [fst].
  match goal with
  | |- context [fold_left (perform clock) fx ?s0] =>
      destruct (fold_perform_frame clock fx s0) as (more & H1 & H2 & H3 & H4)
  end.
  exists more. rewrite H1, H2, H3, H4, fold_perform_state. repeat split.
Qed.

Lemma billboardFails_schedule : Permutation (map fst billboardFails) secondWave.
Proof.
  cbn.
  apply Permutation_trans with
    [AssetTask Billboard; ExtraLogoTask "App Icon"; AssetTask Merch;
     ExtraLogoTask "Abstract Icon"; AssetTask Poster]; [apply perm_swap|].
  apply perm_skip.
  apply Permutation_trans with
    [AssetTask Merch; ExtraLogoTask "App Icon"; ExtraLogoTask "Abstract Icon";
     AssetTask Poster]; [apply perm_swap|].
  apply perm_skip.
  apply Permutation_trans with
    [ExtraLogoTask "App Icon"; AssetTask Poster; ExtraLogoTask "Abstract Icon"];
    [apply perm_skip; apply perm_swap|].
  apply Permutation_trans with
    [AssetTask Poster; ExtraLogoTask "App Icon"; ExtraLogoTask "Abstract Icon"];
    [apply perm_swap|].
  apply perm_skip. apply perm_swap.
Qed.

Lemma caught_failures_do_not_fail_the_run_witness :
  let run := startGeneration sampleClock (Some "key") (analyzeCatch sampleClock)
               getDemoBrandStyle (GenRejected "overloaded") billboardFails initialSession in
  state (ui (session run)) = complete /\ List.length (assets (ui (session run))) = 4%nat.
Proof.
  cbv zeta.
  destruct (caught_failures_do_not_fail_the_run sampleClock (Some "key") getDemoBrandStyle
              (GenRejected "overloaded") billboardFails initialSession
              billboardFails_schedule eq_refl) as (_ & _ & Hstate & _ & Hassets & _).
  split; [exact Hstate|]. rewrite Hassets. reflexivity.
Defined.

Lemma assets_follow_the_completion_order_witness :
  map subtype
    (assets (ui (session (startGeneration sampleClock (Some "key") (analyzeCatch sampleClock)
                            getDemoBrandStyle (imageReply "PP" "0") billboardFails
                            initialSession))))
  = ["Minimalist Wordmark"; "App Icon"; "Merch"; "Abstract Icon"; "Poster"].
Proof.
  destruct (assets_follow_the_completion_order sampleClock (Some "key") getDemoBrandStyle
              (imageReply "PP" "0") billboardFails initialSession
              (Scheduled_all _ _ billboardFails_schedule)) as [H _].
  rewrite H. reflexivity.
Defined.

Lemma completion_order_permutes_the_assets_witness :
  Permutation
    (assets (ui (session (startGeneration sampleClock (Some "key") (analyzeCatch sampleClock)
                            getDemoBrandStyle (imageReply "PP" "0") billboardFails
                            initialSession))))
    (assets (ui (session (startGeneration sampleClock (Some "key") (analyzeCatch sampleClock)
                            getDemoBrandStyle (imageReply "PP" "0") (rev billboardFails)
                            initialSession)))).
Proof.
  apply (completion_order_permutes_the_assets sampleClock (Some "key") getDemoBrandStyle
           (imageReply "PP" "0") billboardFails (rev billboardFails) initialSession).
  - apply Scheduled_all. exact billboardFails_schedule.
  - apply Permutation_rev.
Defined.

Lemma every_task_is_requested_exactly_once_witness :
  List.length
    (analysisRequests
       (out (session (startGeneration sampleClock (Some "key") (analyzeCatch sampleClock)
                        getDemoBrandStyle (GenRejected "overloaded") abstractIconFails
                        initialSession)))) = 6%nat.
Proof.
  rewrite (every_task_is_requested_exactly_once sampleClock (Some "key") getDemoBrandStyle
             "key" (GenRejected "overloaded") abstractIconFails initialSession eq_refl).
  reflexivity.
Defined.

(* ================================================================== *)
(** ** Properties of the archive export *)
(* ================================================================== *)



Lemma find_file_same name d fs : find name (file name d fs) = Some d.
Proof.
  induction fs as [|[n c] rest IH]; cbn [file find].
  - rewrite String.eqb_refl. reflexivity.
  - destruct (String.eqb n name) eqn:E; cbn [find]; rewrite E; [reflexivity | exact IH].
Qed.

Lemma find_file_other name d fs p :
  p <> name -> find p (file name d fs) = find p fs.
Proof.
  intro Hne. induction fs as [|[n c] rest IH]; cbn [file find].
  - destruct (String.eqb name p) eqn:E; [|reflexivity].
    apply String.eqb_eq in E. congruence.
  - destruct (String.eqb n name) eqn:E; cbn [find].
    + apply String.eqb_eq in E. subst n.
      destruct (String.eqb name p) eqn:E'; [|reflexivity].
      apply String.eqb_eq in E'. congruence.
    + rewrite IH. reflexivity.
Qed.


Section Archive.

Variable fetchImage : string -> ImageFetch.
Variable generatedAt : string.

Local Abbreviation imageTrace := (imageTrace fetchImage).
Local Abbreviation stored := (stored fetchImage).


Lemma addImage_step s folder a :
  let r := addImage fetchImage (s, folder) a in
  ui (fst r) = ui s /\ ticks (fst r) = ticks s /\
  out (fst r) = out s ++ imageTrace a /\
  folderName (snd r) = folderName folder /\
  forall p, find p (files (snd r)) = stored p [a] (find p (files folder)).
Proof.
  cbv zeta. unfold addImage, imageTrace. cbn [stored].
  destruct (fetchImage (imageUrl a)) as [message | blob]; cbn [fst snd emit ui ticks out].
  - repeat split; try reflexivity. rewrite <- app_assoc. reflexivity.
  - repeat split; try reflexivity. intro p. cbn [files].
    destruct (String.eqb (assetPath a) p) eqn:E.
    + apply String.eqb_eq in E. subst p. apply find_file_same.
    + apply find_file_other. intro Heq. subst p.
      rewrite String.eqb_refl in E. discriminate.
Qed.

Lemma addImage_fold l : forall s folder,
  let r := fold_left (addImage fetchImage) l (s, folder) in
  ui (fst r) = ui s /\ ticks (fst r) = ticks s /\
  out (fst r) = out s ++ flat_map imageTrace l /\
  folderName (snd r) = folderName folder /\
  forall p, find p (files (snd r)) = stored p l (find p (files folder)).
Proof.
  induction l as [|a rest IH]; intros s folder; cbv zeta.
  - cbn [fold_left fst snd flat_map stored]. rewrite app_nil_r. repeat split; reflexivity.
  - cbn [fold_left flat_map].
    pose proof (addImage_step s folder a) as Hstep. cbv zeta in Hstep.
    destruct (addImage fetchImage (s, folder) a) as [s1 f1]. cbn [fst snd] in Hstep.
    destruct Hstep as (H1 & H2 & H3 & H4 & H5).
    specialize (IH s1 f1). cbv zeta in IH. destruct IH as (I1 & I2 & I3 & I4 & I5).
    repeat split; try congruence.
    + rewrite I3, H3, <- app_assoc. reflexivity.
    + intro p. rewrite I5, H5. reflexivity.
Qed.

Lemma stored_kept p l : forall c, exists c', stored p l (Some c) = Some c'.
Proof.
  induction l as [|x rest IH]; intro c; cbn [stored]; [eauto|].
  destruct (fetchImage (imageUrl x)); [apply IH|].
  destruct (String.eqb (assetPath x) p); apply IH.
Qed.

Lemma stored_present p l : forall init a blob,
  In a l -> fetchImage (imageUrl a) = ImageBlob blob -> assetPath a = p ->
  exists c, stored p l init = Some c.
Proof.
  induction l as [|x rest IH]; intros init a blob Hin Hf Hp; [destruct Hin|].
  cbn [stored]. destruct Hin as [-> | Hin].
  - rewrite Hf, Hp, String.eqb_refl. apply stored_kept.
  - eapply IH; eassumption.
Qed.

(** Whatever is stored was there before or is the blob of an asset of that
    path whose fetch succeeded. *)
Lemma stored_origin p l : forall init c,
  stored p l init = Some c ->
  init = Some c \/
  exists a blob, In a l /\ fetchImage (imageUrl a) = ImageBlob blob /\
                 assetPath a = p /\ c = BlobFile blob.
Proof.
  induction l as [|x rest IH]; intros init c H; cbn [stored] in H; [left; exact H|].
  apply IH in H. destruct H as [H | (a & blob & Hin & Hf & Hp & Hc)].
  - destruct (fetchImage (imageUrl x)) as [m | blob] eqn:Ef; [left; exact H|].
    destruct (String.eqb (assetPath x) p) eqn:E; [|left; exact H].
    right. exists x, blob. apply String.eqb_eq in E.
    repeat split; try assumption; [left; reflexivity | congruence].
  - right. exists a, blob. repeat split; try assumption. right. exact Hin.
Qed.

(** With one asset per path, the file at the path of a fetched asset is its
    own blob. *)
Lemma stored_own p l : forall init a blob,
  NoDup (map assetPath l) ->
  In a l -> fetchImage (imageUrl a) = ImageBlob blob -> assetPath a = p ->
  stored p l init = Some (BlobFile blob).
Proof.
  induction l as [|x rest IH]; intros init a blob Hnd Hin Hf Hp; [destruct Hin|].
  cbn [map] in Hnd. inversion Hnd as [|? ? Hnotin Hnd']; subst.
  cbn [stored]. destruct Hin as [-> | Hin].
  - rewrite Hf, String.eqb_refl.
    destruct (stored (assetPath a) rest (Some (BlobFile blob))) as [c|] eqn:E.
    + apply stored_origin in E. destruct E as [E | (a' & b' & Hin' & _ & Hp' & _)].
      * congruence.
      * exfalso. apply Hnotin. rewrite <- Hp'. apply in_map. exact Hin'.
    + destruct (stored_kept (assetPath a) rest (BlobFile blob)) as [c' Hc']. congruence.
  - eapply IH; try eassumption. reflexivity.
Qed.

Lemma assetPath_not_manifest a : assetPath a <> "style-guide.json".
Proof.
  unfold assetPath. destruct (type a); cbn; intro H; discriminate H.
Qed.

Lemma stored_manifest l : forall c,
  stored "style-guide.json" l (Some c) = Some c.
Proof.
  induction l as [|x rest IH]; intro c; cbn [stored]; [reflexivity|].
  destruct (fetchImage (imageUrl x)); [apply IH|].
  destruct (String.eqb (assetPath x) "style-guide.json") eqn:E; [|apply IH].
  apply String.eqb_eq in E. exfalso. exact (assetPath_not_manifest x E).
Qed.

Lemma fetched_imageTrace l : fetched (flat_map imageTrace l) = map imageUrl l.
Proof.
  induction l as [|a rest IH]; [reflexivity|].
  cbn [flat_map map]. unfold fetched in *. rewrite flat_map_app, IH.
  unfold imageTrace. destruct (fetchImage (imageUrl a)); reflexivity.
Qed.

Lemma saved_imageTrace l : savedArchives (flat_map imageTrace l) = [].
Proof.
  induction l as [|a rest IH]; [reflexivity|].
  cbn [flat_map]. unfold savedArchives in *. rewrite flat_map_app, IH.
  unfold imageTrace. destruct (fetchImage (imageUrl a)); reflexivity.
Qed.

(** The path of an asset: the folder of its type, then its subtype with each
    run of white space replaced by one underscore, then [.png]. *)
Lemma assetPath_shape (a : GeneratedAsset) :
  exists u,
    Underscored (list_ascii_of_string (subtype a)) (list_ascii_of_string u) /\
    assetPath a =
      ((match type a with logo => "logos/" | social => "socials/" end) ++ u ++ ".png")%string /\
    (typeString (type a) ++ "s/" ++ replaceWs (subtype a) ++ ".png")%string =
      ((match type a with logo => "logos/" | social => "socials/" end) ++ u ++ ".png")%string.
Proof.
  exists (replaceWs (subtype a)). split; [apply replaceWs_underscored|].
  unfold assetPath. destruct (type a); split; reflexivity.
Qed.

(** C8.  With a style and at least one asset, the export fetches the image
    of every asset, once and in order, and always ends by saving the
    archive.  The archive holds the manifest; for every asset whose fetch
    succeeded it holds a file at [<type>s/<subtype, white space replaced>.png]
    (the asset's own blob when no two assets share a path); and it holds
    nothing else: an asset whose fetch failed is skipped, alone.  The path
    of an asset is [logos/] or [socials/], by its type, followed by its
    subtype with each run of white space replaced by one underscore, and
    [.png]. *)
Theorem export_skips_only_the_failed_assets (s : Session) (style : BrandStyle) :
  brandStyle (ui s) = Some style ->
  assets (ui s) <> [] ->
  exists (zip : Zip) (trace : list Effect),
    out (handleDownloadZip fetchImage generatedAt s) =
      out s ++ trace ++ [SaveAs zip (brandName style ++ "_BrandKit.zip")] /\
    fetched trace = map imageUrl (assets (ui s)) /\
    savedArchives trace = [] /\
    find "style-guide.json" (files zip) =
      Some (TextFile (JSON_stringify (styleGuide style generatedAt))) /\
    (forall a blob,
       In a (assets (ui s)) -> fetchImage (imageUrl a) = ImageBlob blob ->
       exists c,
         find (typeString (type a) ++ "s/" ++ replaceWs (subtype a) ++ ".png") (files zip)
         = Some c) /\
    (forall a blob,
       NoDup (map assetPath (assets (ui s))) ->
       In a (assets (ui s)) -> fetchImage (imageUrl a) = ImageBlob blob ->
       find (typeString (type a) ++ "s/" ++ replaceWs (subtype a) ++ ".png") (files zip)
       = Some (BlobFile blob)) /\
    (forall p c,
       find p (files zip) = Some c ->
       p = "style-guide.json" \/
       exists a blob, In a (assets (ui s)) /\ fetchImage (imageUrl a) = ImageBlob blob /\
                      assetPath a = p /\ c = BlobFile blob) /\
    (forall a,
       In a (assets (ui s)) ->
       exists u,
         Underscored (list_ascii_of_string (subtype a)) (list_ascii_of_string u) /\
         assetPath a =
           ((match type a with logo => "logos/" | social => "socials/" end)
            ++ u ++ ".png")%string /\
         (typeString (type a) ++ "s/" ++ replaceWs (subtype a) ++ ".png")%string =
           ((match type a with logo => "logos/" | social => "socials/" end)
            ++ u ++ ".png")%string).
Proof.
  intros Hstyle Hne. unfold handleDownloadZip. rewrite Hstyle.
  destruct (assets (ui s)) as [|a0 rest] eqn:Ea; [congruence|]. rewrite <- Ea. clear Hne.
  set (folder0 := mkZip _ (file "style-guide.json" _ _)).
  pose proof (addImage_fold (assets (ui s)) s folder0) as H. cbv zeta in H.
  destruct (fold_left (addImage fetchImage) (assets (ui s)) (s, folder0)) as [s1 f1].
  cbn [fst snd] in H. destruct H as (H1 & H2 & H3 & H4 & H5).
  assert (find "style-guide.json" (files folder0)
          = Some (TextFile (JSON_stringify (styleGuide style generatedAt)))) as Hm.
  { unfold folder0. cbn [files]. apply find_file_same. }
  exists f1, (flat_map imageTrace (assets (ui s))).
  split; [cbn [emit out]; rewrite H3, <- app_assoc; reflexivity|].
  split; [apply fetched_imageTrace|]. split; [apply saved_imageTrace|].
  split; [rewrite H5, Hm; apply stored_manifest|].
  split; [|split; [|split]].
  - intros a blob Hin Hf. rewrite H5. eapply stored_present; try eassumption. reflexivity.
  - intros a blob Hnd Hin Hf. rewrite H5. eapply stored_own; try eassumption. reflexivity.
  - intros p c Hfind. rewrite H5 in Hfind. apply stored_origin in Hfind.
    destruct Hfind as [Hinit | Hex]; [|right; exact Hex].
    left. unfold folder0 in Hinit. cbn [files file find] in Hinit.
    destruct (String.eqb "style-guide.json" p) eqn:E; [|discriminate].
    apply String.eqb_eq in E. congruence.
  - intros a _. apply assetPath_shape.
Qed.

(** C10.  Without a style, or with no asset, [handleDownloadZip] returns
    the session as it was: no state is changed, nothing is fetched and no
    archive is saved. *)
Theorem export_without_style_or_assets_does_nothing (s : Session) :
  brandStyle (ui s) = None \/ assets (ui s) = [] ->
  handleDownloadZip fetchImage generatedAt s = s /\
  fetched (out (handleDownloadZip fetchImage generatedAt s)) = fetched (out s) /\
  savedArchives (out (handleDownloadZip fetchImage generatedAt s)) = savedArchives (out s).
Proof.
  intro H.
  assert (handleDownloadZip fetchImage generatedAt s = s) as E.
  { unfold handleDownloadZip. destruct H as [-> | H]; [reflexivity|].
    rewrite H. destruct (brandStyle (ui s)); reflexivity. }
  rewrite E. repeat split.
Qed.

End Archive.

Lemma export_skips_only_the_failed_assets_witness :
  exists (zip : Zip) (trace : list Effect),
    out (handleDownloadZip billboardOffline "2026-01-01T00:00:00.000Z" sampleKitSession)
    = out sampleKitSession ++ trace ++ [SaveAs zip "NeonFlux_BrandKit.zip"] /\
    fetched trace = [ "data:image/png;base64,AA"; "data:image/png;base64,BB";
                      "data:image/png;base64,CC" ] /\
    find "style-guide.json" (files zip) =
      Some (TextFile (JSON_stringify (styleGuide getDemoBrandStyle "2026-01-01T00:00:00.000Z"))) /\
    find "logos/App_Icon.png" (files zip) = Some (BlobFile "data:image/png;base64,AA") /\
    find "socials/Billboard.png" (files zip) = None /\
    find "socials/Poster.png" (files zip) = Some (BlobFile "data:image/png;base64,CC").
Proof.
  destruct (export_skips_only_the_failed_assets billboardOffline
              "2026-01-01T00:00:00.000Z" sampleKitSession getDemoBrandStyle)
    as (zip & trace & Hout & Hfetched & _ & Hmanifest & _ & Hown & Horigin & _).
  - reflexivity.
  - discriminate.
  - assert (NoDup (map assetPath (assets (ui sampleKitSession)))) as Hnd.
    { vm_compute. repeat (constructor; [simpl; intuition discriminate|]). constructor. }
    exists zip, trace.
    split; [exact Hout|]. split; [exact Hfetched|]. split; [exact Hmanifest|].
    split; [|split].
    + apply (Hown (mkGeneratedAsset "logo-1-0.5" logo "App  Icon" "data:image/png;base64,AA"
                     "App  Icon logo variant") "data:image/png;base64,AA" Hnd).
      * simpl. auto.
      * reflexivity.
    + destruct (find "socials/Billboard.png" (files zip)) as [c|] eqn:E; [exfalso|reflexivity].
      destruct (Horigin _ _ E) as [H | (a & blob & Hin & Hfe & Hp & _)]; [discriminate|].
      simpl in Hin. destruct Hin as [<-|[<-|[<-|[]]]].
      * vm_compute in Hp. discriminate.
      * vm_compute in Hfe. discriminate.
      * vm_compute in Hp. discriminate.
    + apply (Hown (mkGeneratedAsset "asset-Poster-3" social "Poster" "data:image/png;base64,CC"
                     "Poster Mockup") "data:image/png;base64,CC" Hnd).
      * simpl. auto.
      * reflexivity.
Defined.

Lemma export_without_style_or_assets_does_nothing_witness :
  handleDownloadZip (fun _ => ImageBlob "png") "2026-01-01T00:00:00.000Z" initialSession
  = initialSession.
Proof.
  apply (export_without_style_or_assets_does_nothing (fun _ => ImageBlob "png")
           "2026-01-01T00:00:00.000Z" initialSession).
  left. reflexivity.
Defined.

(** X20.  [handleDownloadZip] changes no state of the interface and writes no
    log line; it only appends effects, and an archive it saves is named after
    the brand of the current style, with the folder named after the brand with
    each run of white space replaced by one underscore. *)
Theorem export_leaves_the_state_alone fetchImage generatedAt (s : Session) :
  ui (handleDownloadZip fetchImage generatedAt s) = ui s /\
  ticks (handleDownloadZip fetchImage generatedAt s) = ticks s /\
  exists more,
    out (handleDownloadZip fetchImage generatedAt s) = out s ++ more /\
    forall zip name,
      In (zip, name) (savedArchives more) ->
      exists style u,
        brandStyle (ui s) = Some style /\
        name = (brandName style ++ "_BrandKit.zip")%string /\
        folderName zip = (replaceWs (brandName style) ++ "_BrandKit")%string /\
        Underscored (list_ascii_of_string (brandName style)) (list_ascii_of_string u) /\
        folderName zip = (u ++ "_BrandKit")%string.
Proof.
  unfold handleDownloadZip.
  destruct (brandStyle (ui s)) as [style|] eqn:Es.
  2:{ repeat split. exists []. rewrite app_nil_r. split; [reflexivity | intros z n []]. }
  destruct (assets (ui s)) as [|a0 rest] eqn:Ea.
  { repeat split. exists []. rewrite app_nil_r. split; [reflexivity | intros z n []]. }
  set (folder0 := mkZip _ (file "style-guide.json" _ _)).
  pose proof (addImage_fold fetchImage (a0 :: rest) s folder0) as H. cbv zeta in H.
  destruct (fold_left (addImage fetchImage) (a0 :: rest) (s, folder0)) as [s1 f1].
  cbn [fst snd] in H. destruct H as (H1 & H2 & H3 & H4 & _).
  cbn [emit ui ticks out]. split; [exact H1|]. split; [exact H2|].
  exists (flat_map (imageTrace fetchImage) (a0 :: rest)
          ++ [SaveAs f1 (brandName style ++ "_BrandKit.zip")]).
  split; [rewrite H3, app_assoc; reflexivity|].
  intros zip name Hin. unfold savedArchives in Hin. rewrite flat_map_app in Hin.
  fold (savedArchives (flat_map (imageTrace fetchImage) (a0 :: rest))) in Hin.
  rewrite saved_imageTrace in Hin. cbn in Hin. destruct Hin as [Hin | []].
  injection Hin as <- <-. exists style, (replaceWs (brandName style)).
  repeat split; [exact H4 | apply replaceWs_underscored | exact H4].
Qed.

Lemma export_leaves_the_state_alone_witness :
  exists zip,
    savedArchives (out (handleDownloadZip billboardOffline "2026-01-01T00:00:00.000Z"
                          spacedKitSession))
    = [(zip, "Neon  Flux_BrandKit.zip")] /\
    folderName zip = "Neon_Flux_BrandKit".
Proof.
  destruct (export_leaves_the_state_alone billboardOffline "2026-01-01T00:00:00.000Z"
              spacedKitSession) as (_ & _ & more & Hout & Hsaved).
  simpl app in Hout.
  assert (exists zip,
            savedArchives (out (handleDownloadZip billboardOffline "2026-01-01T00:00:00.000Z"
                                  spacedKitSession))
            = [(zip, "Neon  Flux_BrandKit.zip")]) as [zip Hz]
    by (eexists; reflexivity).
  exists zip. split; [exact Hz|].
  assert (In (zip, "Neon  Flux_BrandKit.zip") (savedArchives more)) as Hin
    by (rewrite <- Hout, Hz; left; reflexivity).
  destruct (Hsaved _ _ Hin) as (style & u & Hstyle & _ & Hfolder & _).
  injection Hstyle as <-. exact Hfolder.
Defined.

(** Adding a file to the folder makes it the content under its path and
    leaves every other path as it was; paths stay unique, a path already
    present keeps its place, and a new path is added at the end. *)
Theorem file_replaces_or_adds (name : string) (data : Content) (fs : list (string * Content)) :
  find name (file name data fs) = Some data /\
  (forall p, p <> name -> find p (file name data fs) = find p fs) /\
  (NoDup (map fst fs) -> NoDup (map fst (file name data fs))) /\
  (find name fs <> None -> map fst (file name data fs) = map fst fs) /\
  (find name fs = None -> file name data fs = fs ++ [(name, data)]).
Proof.
  split; [apply find_file_same|]. split; [intros p Hp; apply find_file_other; exact Hp|].
  assert ((find name fs <> None -> map fst (file name data fs) = map fst fs) /\
          (find name fs = None -> file name data fs = fs ++ [(name, data)])) as [Hk Ha].
  { induction fs as [|[n c] rest [IH1 IH2]]; cbn [file find map fst app].
    - split; [congruence | reflexivity].
    - destruct (String.eqb n name) eqn:E; cbn [map fst].
      + split; [reflexivity | discriminate].
      + split; intro H; [rewrite IH1 by exact H | rewrite IH2 by exact H]; reflexivity. }
  split; [|split; assumption].
  intro Hnd. destruct (find name fs) eqn:E.
  - rewrite Hk by discriminate. exact Hnd.
  - rewrite Ha by reflexivity. rewrite map_app. cbn [map fst].
    apply NoDup_app; [exact Hnd | constructor; [intros [] | constructor] |].
    intros x Hx [<- | []].
    clear Hk Ha Hnd. induction fs as [|[n c] rest IH]; [destruct Hx|].
    cbn [find] in E. cbn [map fst] in Hx.
    destruct (String.eqb n name) eqn:En; [discriminate|].
    destruct Hx as [-> | Hx]; [rewrite String.eqb_refl in En; discriminate | auto].
Qed.

Lemma file_replaces_or_adds_witness :
  file "logos/App_Icon.png" (BlobFile "b") [("style-guide.json", TextFile "{}")]
  = [("style-guide.json", TextFile "{}"); ("logos/App_Icon.png", BlobFile "b")].
Proof.
  apply (file_replaces_or_adds "logos/App_Icon.png" (BlobFile "b")
           [("style-guide.json", TextFile "{}")]).
  reflexivity.
Defined.

(** X22.  [checkKey] reports a missing key only when the wrapper is present and
    answers false; without the wrapper, or when its call fails, it reports
    that a key is present.  It changes neither the state of the run, nor the
    assets, nor the log. *)
Theorem checkKey_defaults_to_having_a_key (aistudio : option (Result bool)) (s : Session) :
  (hasKey (ui (checkKey aistudio s)) = false <-> aistudio = Some (Ok false)) /\
  state (ui (checkKey aistudio s)) = state (ui s) /\
  assets (ui (checkKey aistudio s)) = assets (ui s) /\
  logs (ui (checkKey aistudio s)) = logs (ui s).
Proof.
  destruct aistudio as [[[|] | m]|]; cbn; repeat split; try discriminate; try reflexivity.
Qed.

Section Shown.

Variable clock : nat -> string.
Variable apiKey : option string.
Variable style : BrandStyle.

Lemma logo_is_logo variant outcome a :
  generateLogoVariant apiKey style variant outcome = Ok a ->
  Render.isLogo a = true /\ subtype a = variant.
Proof.
  unfold generateLogoVariant. destruct (getClient apiKey); [|discriminate].
  destruct outcome; [discriminate|]. destruct (negb _); [discriminate|].
  intro H. injection H as <-. split; reflexivity.
Qed.

Lemma brand_is_social t outcome a :
  generateBrandAsset apiKey style t outcome = Ok a ->
  Render.isLogo a = false /\ subtype a = typeName t.
Proof.
  unfold generateBrandAsset. destruct (getClient apiKey); [|discriminate].
  destruct outcome; [discriminate|]. destruct (negb _); [discriminate|].
  intro H. injection H as <-. split; reflexivity.
Qed.

Local Abbreviation step := (taskSettled clock apiKey (analyzeCatch clock) style).

Lemma startGeneration_hasKey primary wave s :
  hasKey (ui (session (startGeneration clock apiKey (analyzeCatch clock) style primary wave s)))
  = hasKey (ui s).
Proof.
  unfold startGeneration.
  assert (forall w r, hasKey (ui (session (fold_left step w r))) = hasKey (ui (session r))) as Hb.
  { induction w as [|[t o] rest IH]; intro r; [reflexivity|].
    cbn [fold_left]. rewrite IH. unfold taskSettled.
    destruct (isPending t (pending r)); cbn [negb]; [|reflexivity].
    assert (forall r', hasKey (ui (session (joinStep clock r'))) = hasKey (ui (session r'))) as Hjs.
    { intro r'. unfold joinStep. destruct (join r'); try reflexivity.
      destruct (pending r'); reflexivity. }
    destruct t as [a | v].
    - rewrite Hjs. cbn [session]. destruct (generateBrandAsset apiKey style a o); reflexivity.
    - destruct (generateLogoVariant apiKey style v o).
      + rewrite Hjs. reflexivity.
      + destruct (join r); reflexivity. }
  rewrite Hb. unfold primarySettled, startGeneration_begin.
  destruct (generateLogoVariant apiKey style _ primary); destruct (getClient apiKey); reflexivity.
Qed.

(** While no settlement is left uncaught, the state stays as it was or
    becomes [complete]. *)
Lemma fold_caught_state wave : forall run,
  join run = Waiting ->
  Scheduled (pending run) wave ->
  firstUncaught apiKey style wave = None ->
  state (ui (session (fold_left step wave run))) = state (ui (session run)) \/
  state (ui (session (fold_left step wave run))) = complete.
Proof.
  induction wave as [|[t o] rest IH]; intros run Hj Hs Hu; [left; reflexivity|].
  apply Scheduled_cons in Hs. destruct Hs as [Hin Hs].
  cbn [firstUncaught] in Hu. cbn [fold_left].
  destruct (uncaught apiKey style (t, o)) eqn:Eu; [discriminate|].
  destruct (step_caught clock apiKey (analyzeCatch clock) style run (t, o) Hj Hin Eu)
    as [Hmore Hlast].
  cbn [fst] in *.
  destruct (removeTask t (pending run)) eqn:E.
  - apply Scheduled_nil_inv in Hs. subst rest. cbn [fold_left].
    right. apply Hlast. reflexivity.
  - destruct Hmore as [Hj' Hs']; [discriminate|].
    destruct (IH (step run (t, o)) Hj') as [H | H].
    + rewrite (step_pending clock apiKey (analyzeCatch clock) style run (t, o) Hin).
      cbn [fst]. rewrite E. exact Hs.
    + exact Hu.
    + left. congruence.
    + right. exact H.
Qed.

Lemma startGeneration_state primary wave s :
  Scheduled secondWave wave ->
  (firstUncaught apiKey style wave = None ->
     let st := state (ui (session (startGeneration clock apiKey (analyzeCatch clock) style
                                     primary wave s))) in
     st = generating \/ st = complete) /\
  (forall m, firstUncaught apiKey style wave = Some m ->
     state (ui (session (startGeneration clock apiKey (analyzeCatch clock) style
                           primary wave s))) = error m).
Proof.
  intro Hs. unfold startGeneration.
  pose proof (primarySettled_run clock apiKey style primary s) as Hrun. cbv zeta in Hrun.
  set (r0 := primarySettled clock apiKey style primary
               (startGeneration_begin clock apiKey style s)) in *.
  destruct Hrun as (Hj & Hpend & Hst & _). rewrite <- Hpend in Hs.
  split.
  - intro Hu. cbv zeta.
    destruct (fold_caught_state wave r0 Hj Hs Hu) as [H | H]; [left; congruence | right; exact H].
  - intros m Hu.
    destruct (fold_uncaught clock apiKey (analyzeCatch clock) style
                (fun m _ => error m) (analyzeCatch_state clock) wave r0 m Hj Hs Hu) as [_ H].
    exact H.
Qed.

(** X23.  With a key, while a run started by [handleAnalyze] has no uncaught
    failure, the board of results is rendered and its logo box shows the
    primary logo whenever it was generated; when the primary logo failed, it
    shows the first logo the second wave delivered, in the order of
    completion, if there is one.  After an uncaught failure of an extra logo
    the state is [error] and the logo box is not rendered. *)
Theorem the_logo_box_shows_the_primary_logo primary wave s :
  hasKey (ui s) = true ->
  Scheduled secondWave wave ->
  let box := Render.logoBox
      (ui (session (startGeneration clock apiKey (analyzeCatch clock) style primary wave s))) in
  (firstUncaught apiKey style wave = None ->
     (forall a, generateLogoVariant apiKey style "Minimalist Wordmark" primary = Ok a ->
        box = Some (Some a)) /\
     (forall m, generateLogoVariant apiKey style "Minimalist Wordmark" primary = Err m ->
        box = Some (List.find Render.isLogo (delivered apiKey style wave)))) /\
  (forall m, firstUncaught apiKey style wave = Some m -> box = None).
Proof.
  intros Hkey Hs. cbv zeta. unfold Render.logoBox, Render.showsBoard.
  rewrite startGeneration_hasKey, Hkey.
  rewrite (startGeneration_brandStyle clock apiKey style primary wave s).
  rewrite (startGeneration_assets clock apiKey style primary wave s Hs).
  destruct (startGeneration_state primary wave s Hs) as [Hcaught Huncaught].
  split.
  - intro Hu. specialize (Hcaught Hu). cbv zeta in Hcaught.
    assert (forall l, (if true && true &&
                          match state (ui (session (startGeneration clock apiKey
                                  (analyzeCatch clock) style primary wave s))) with
                          | generating | complete => true
                          | _ => false
                          end
                       then Some (Render.primaryLogo l) else None)
                      = Some (Render.primaryLogo l)) as Hshown.
    { intro l. destruct Hcaught as [-> | ->]; reflexivity. }
    rewrite Hshown. unfold primaryAssets, Render.primaryLogo. split.
    + intros a Ha. rewrite Ha. cbn [app List.find].
      destruct (logo_is_logo _ _ _ Ha) as [-> _]. reflexivity.
    + intros m Hm. rewrite Hm. reflexivity.
  - intros m Hu. rewrite (Huncaught m Hu). reflexivity.
Qed.

End Shown.

Lemma the_logo_box_shows_the_primary_logo_witness :
  option_map (option_map subtype)
    (Render.logoBox
       (ui (session (startGeneration sampleClock (Some "key") (analyzeCatch sampleClock)
                       getDemoBrandStyle (GenRejected "overloaded") billboardFails
                       (checkKey None initialSession)))))
  = Some (Some "App Icon") /\
  Render.logoBox
    (ui (session (startGeneration sampleClock (Some "key") (analyzeCatch sampleClock)
                    getDemoBrandStyle (imageReply "PP" "0") abstractIconFails
                    (checkKey None initialSession))))
  = None.
Proof.
  split.
  - destruct (the_logo_box_shows_the_primary_logo sampleClock (Some "key") getDemoBrandStyle
                (GenRejected "overloaded") billboardFails (checkKey None initialSession)
                eq_refl (Scheduled_all _ _ billboardFails_schedule)) as [H _].
    destruct (H eq_refl) as [_ H']. rewrite (H' "overloaded" eq_refl). reflexivity.
  - assert (Scheduled secondWave abstractIconFails) as Hs.
    { apply Scheduled_all. vm_compute.
      apply Permutation_cons; [reflexivity|].
      apply perm_trans with
        (ExtraLogoTask "Abstract Icon" :: [AssetTask Merch; AssetTask Poster; ExtraLogoTask "App Icon"]).
      - reflexivity.
      - apply Permutation_sym. apply perm_trans with
          (AssetTask Merch :: ExtraLogoTask "Abstract Icon" :: [AssetTask Poster; ExtraLogoTask "App Icon"]).
        + apply perm_skip. apply perm_swap.
        + apply perm_swap. }
    destruct (the_logo_box_shows_the_primary_logo sampleClock (Some "key") getDemoBrandStyle
                (imageReply "PP" "0") abstractIconFails (checkKey None initialSession)
                eq_refl Hs) as [_ H].
    apply (H "quota exceeded"). reflexivity.
Defined.

(** X21.  When the extraction fulfils with a value of the shape of a brand
    style, every task of the second wave settles and no extra logo fails,
    [handleAnalyze] ends in [complete] with that style and with the primary
    logo, if generated, followed by the delivered assets. *)
Theorem a_run_composes_extraction_and_generation
    clock apiKey url shot race primary wave s v style :
  snd (analyzeBrandFromUrl apiKey url shot race) = Ok v ->
  asBrandStyle v = Some style ->
  Permutation (map fst wave) secondWave ->
  firstUncaught apiKey style wave = None ->
  exists s',
    handleAnalyze clock apiKey url shot race primary wave s = Some s' /\
    state (ui s') = complete /\
    brandStyle (ui s') = Some style /\
    assets (ui s') = primaryAssets apiKey style primary ++ delivered apiKey style wave.
Proof.
  intros Hv Hs Hp Hu. unfold handleAnalyze, handleAnalyze_extract.
  destruct (analyzeBrandFromUrl apiKey url shot race) as [fx r]. cbn [snd] in Hv. subst r.
  rewrite Hs. eexists. split; [reflexivity|].
  match goal with
  | |- context [startGeneration clock apiKey (analyzeCatch clock) style primary wave ?s0] =>
      destruct (startGeneration_ends_complete clock apiKey style primary wave s0 Hp Hu)
        as (_ & _ & Hstate & _);
      pose proof (startGeneration_brandStyle clock apiKey style primary wave s0) as Hstyle;
      pose proof (startGeneration_assets clock apiKey style primary wave s0
                    (Scheduled_all _ _ Hp)) as Hassets
  end.
  split; [exact Hstate|]. split; [exact Hstyle | exact Hassets].
Qed.

Lemma a_run_composes_extraction_and_generation_witness :
  exists s',
    handleAnalyze sampleClock (Some "key") "acme.test" (FetchFailed "offline")
      (CallFirst (Ok (Some oneColourResponse))) (imageReply "PP" "0") billboardFails
      initialSession = Some s' /\
    state (ui s') = complete.
Proof.
  destruct (a_run_composes_extraction_and_generation sampleClock (Some "key") "acme.test"
              (FetchFailed "offline") (CallFirst (Ok (Some oneColourResponse)))
              (imageReply "PP" "0") billboardFails initialSession oneColourStyle
              (mkBrandStyle "Acme" "Plain" ["#000000"] "Sans" "Grid"))
    as (s' & H1 & H2 & _).
  - vm_compute. reflexivity.
  - reflexivity.
  - exact billboardFails_schedule.
  - reflexivity.
  - exists s'. split; [exact H1 | exact H2].
Defined.

Lemma removeAll_passes p optNl a : forall b,
  Forall (fun c => c <> backtick) a ->
  removeAllFrom (backtick :: p) optNl 0 (a ++ b) = a ++ removeAllFrom (backtick :: p) optNl 0 b.
Proof.
  induction a as [|c a IH]; intros b H; [reflexivity|].
  inversion H as [|? ? Hc Ha]; subst.
  cbn [app removeAllFrom prefixOf].
  destruct (Ascii.eqb backtick c) eqn:E.
  - apply Ascii.eqb_eq in E. congruence.
  - cbn [andb]. rewrite IH by exact Ha. reflexivity.
Qed.

Lemma wsLen_lf c rest : wsLen (c :: rest ++ [lf]) = wsLen (c :: rest).
Proof.
  destruct rest as [|b [|d r]]; cbn [app]; unfold wsLen.
  - destruct (ws1 (code c)); [reflexivity|].
    unfold ws2. change (code lf) with 10%N. cbn. rewrite andb_false_r. reflexivity.
  - destruct (ws1 (code c)); [reflexivity|]. destruct (ws2 (code c) (code b)); [reflexivity|].
    unfold ws3. change (code lf) with 10%N. cbn. rewrite !andb_false_r. reflexivity.
  - reflexivity.
Qed.

Lemma allWs_lf t : forall k,
  (k <= List.length t)%nat -> allWsFrom k (t ++ [lf]) = allWsFrom k t.
Proof.
  induction t as [|c rest IH]; intros k Hk.
  - cbn [List.length] in Hk. assert (k = 0)%nat by lia. subst. reflexivity.
  - cbn [app allWsFrom List.length] in *. destruct k as [|k]; [|apply IH; lia].
    change (c :: rest ++ [lf]) with (c :: (rest ++ [lf])).
    rewrite wsLen_lf. destruct (wsLen (c :: rest)) as [|j] eqn:E; [reflexivity|].
    apply IH. pose proof (wsLen_le (c :: rest)) as Hl. rewrite E in Hl.
    cbn [List.length] in Hl. lia.
Qed.

Lemma trimStart_lf t : forall k,
  (k <= List.length t)%nat ->
  trimStartFrom k (t ++ [lf]) =
  if allWsFrom k t then [] else trimStartFrom k t ++ [lf].
Proof.
  induction t as [|c rest IH]; intros k Hk.
  - cbn [List.length] in Hk. assert (k = 0)%nat by lia. subst. reflexivity.
  - cbn [app allWsFrom trimStartFrom List.length] in *. destruct k as [|k]; [|apply IH; lia].
    change (c :: rest ++ [lf]) with (c :: (rest ++ [lf])).
    rewrite wsLen_lf. destruct (wsLen (c :: rest)) as [|j] eqn:E; [reflexivity|].
    apply IH. pose proof (wsLen_le (c :: rest)) as Hl. rewrite E in Hl.
    cbn [List.length] in Hl. lia.
Qed.

Lemma trimEnd_lf t : trimEndList (t ++ [lf]) = trimEndList t.
Proof.
  induction t as [|c rest IH]; [reflexivity|].
  cbn [app trimEndList].
  change (c :: rest ++ [lf]) with ((c :: rest) ++ [lf]).
  rewrite (allWs_lf (c :: rest) 0) by lia. rewrite IH. reflexivity.
Qed.

Lemma trim_lf_end cs :
  trimEndList (trimStartFrom 0 (cs ++ [lf])) = trimEndList (trimStartFrom 0 cs).
Proof.
  rewrite trimStart_lf by lia. destruct (allWsFrom 0 cs) eqn:E.
  - rewrite (trimStart_blank cs 0 E). reflexivity.
  - apply trimEnd_lf.
Qed.

(** X24.  For a body without a backtick, a response in a [json] code fence or
    in a plain code fence is cleaned to the trimmed body, as is the body
    alone; for a non-empty body, [analyzeBrandFromUrl] settles on the fenced
    response as it does on the body alone. *)
Theorem a_fenced_response_parses_like_its_content (body : string) :
  noBacktick body ->
  stripFences ("```json" ++ nl ++ body ++ nl ++ "```")%string = trim body /\
  stripFences ("```" ++ nl ++ body ++ nl ++ "```")%string = trim body /\
  stripFences body = trim body /\
  (truthy body = true ->
   forall apiKey url shot,
     snd (analyzeBrandFromUrl apiKey url shot
            (CallFirst (Ok (Some ("```json" ++ nl ++ body ++ nl ++ "```")%string))))
     = snd (analyzeBrandFromUrl apiKey url shot (CallFirst (Ok (Some body))))).
Proof.
  intro Hb. unfold noBacktick in Hb.
  assert (forall p o, removeAllFrom (backtick :: p) o 0 (list_ascii_of_string body)
                      = list_ascii_of_string body) as Hid.
  { intros p o. rewrite <- (app_nil_r (list_ascii_of_string body)) at 1.
    rewrite removeAll_passes by exact Hb. rewrite app_nil_r. reflexivity. }
  assert (stripFences body = trim body) as H3.
  { unfold stripFences, removeAll, trim.
    change (list_ascii_of_string "```json") with (backtick :: backtick :: backtick :: list_ascii_of_string "json").
    change (list_ascii_of_string "```") with [backtick; backtick; backtick].
    rewrite Hid, !list_ascii_of_string_of_list_ascii, Hid.
    reflexivity. }
  assert (stripFences ("```json" ++ nl ++ body ++ nl ++ "```")%string = trim body) as H1.
  { unfold stripFences, removeAll, trim.
    rewrite !list_of_append. rewrite ?list_ascii_of_string_of_list_ascii.
    change (list_ascii_of_string "```json") with (backtick :: backtick :: backtick :: list_ascii_of_string "json").
    change (list_ascii_of_string nl) with [lf].
    change (list_ascii_of_string "```") with [backtick; backtick; backtick].
    change (removeAllFrom (backtick :: backtick :: backtick :: list_ascii_of_string "json") true 0
              ((backtick :: backtick :: backtick :: list_ascii_of_string "json")
               ++ [lf] ++ list_ascii_of_string body ++ [lf] ++ [backtick; backtick; backtick]))
      with (removeAllFrom (backtick :: backtick :: backtick :: list_ascii_of_string "json") true 0
              (list_ascii_of_string body ++ [lf; backtick; backtick; backtick])).
    rewrite removeAll_passes by exact Hb.
    change (removeAllFrom (backtick :: backtick :: backtick :: list_ascii_of_string "json") true 0 [lf; backtick; backtick; backtick])
      with [lf; backtick; backtick; backtick].
    rewrite ?list_ascii_of_string_of_list_ascii.
    rewrite removeAll_passes by exact Hb.
    change (removeAllFrom [backtick; backtick; backtick] false 0 [lf; backtick; backtick; backtick]) with [lf].
    rewrite trim_lf_end. reflexivity. }
  split; [exact H1|]. split; [|split].
  - unfold stripFences, removeAll, trim.
    rewrite !list_of_append. rewrite ?list_ascii_of_string_of_list_ascii.
    change (list_ascii_of_string "```json") with (backtick :: backtick :: backtick :: list_ascii_of_string "json").
    change (list_ascii_of_string nl) with [lf].
    change (list_ascii_of_string "```") with [backtick; backtick; backtick].
    change (removeAllFrom (backtick :: backtick :: backtick :: list_ascii_of_string "json") true 0
              ([backtick; backtick; backtick] ++ [lf] ++ list_ascii_of_string body ++ [lf] ++ [backtick; backtick; backtick]))
      with (backtick :: backtick :: backtick :: lf
            :: removeAllFrom (backtick :: backtick :: backtick :: list_ascii_of_string "json") true 0
                 (list_ascii_of_string body ++ [lf; backtick; backtick; backtick])).
    rewrite removeAll_passes by exact Hb.
    change (removeAllFrom (backtick :: backtick :: backtick :: list_ascii_of_string "json") true 0 [lf; backtick; backtick; backtick])
      with [lf; backtick; backtick; backtick].
    rewrite ?list_ascii_of_string_of_list_ascii.
    change (removeAllFrom [backtick; backtick; backtick] false 0
              (backtick :: backtick :: backtick :: lf :: list_ascii_of_string body ++ [lf; backtick; backtick; backtick]))
      with (lf :: removeAllFrom [backtick; backtick; backtick] false 0
                    (list_ascii_of_string body ++ [lf; backtick; backtick; backtick])).
    rewrite removeAll_passes by exact Hb.
    change (removeAllFrom [backtick; backtick; backtick] false 0 [lf; backtick; backtick; backtick]) with [lf].
    rewrite ?list_ascii_of_string_of_list_ascii.
    change (trimStartFrom 0 (lf :: list_ascii_of_string body ++ [lf]))
      with (trimStartFrom 0 (list_ascii_of_string body ++ [lf])).
    rewrite trim_lf_end. reflexivity.
  - exact H3.
  - intros Ht apiKey url shot. unfold analyzeBrandFromUrl.
    destruct (getClient apiKey); [|reflexivity].
    destruct (fetchScreenshotBase64 url shot) as [fx sb].
    assert (truthy ("```json" ++ nl ++ body ++ nl ++ "```")%string = true) as Hf
      by reflexivity.
    cbn [andThen snd]. rewrite Ht, Hf. cbn [negb andThen snd].
    rewrite H1, H3. destruct (JSON_parse (trim body)); reflexivity.
Qed.

Lemma a_fenced_response_parses_like_its_content_witness :
  stripFences ("```json" ++ nl ++ "{}" ++ nl ++ "```")%string = trim "{}".
Proof.
  apply (a_fenced_response_parses_like_its_content "{}").
  repeat (constructor; [discriminate|]). constructor.
Defined.
